(** * QAPointerModel: the answer-pointer decoders of biomedical_qa

A shallow embedding of [biomedical_qa/models/qa_pointer.py], and of what
the tools [tools/bioasq_inference.py] and [tools/evaluate.py] do
themselves: the answers written into a BioASQ document and the device
list.

The Python code builds a TensorFlow graph once ([_init]) and the graph
is evaluated once per batch.  Both views are modelled:
- the evaluation of the graph as functions over tensors (lists of rows),
  with the run-time errors of the TensorFlow kernels made explicit;
- the construction of the graph as a state-and-exception computation
  over the list of nodes created so far.

Real-valued tensors hold rationals ([Q]); [int64] tensors hold [Z] with
the two's-complement wrap-around written out. *)

From Stdlib Require Import ZArith QArith Qround Lia Lqa List.
From stdpp Require Import base gmap strings list.

Local Open Scope Z_scope.

(** ** Python values and errors *)

(** The values a configuration dictionary holds. *)
#[warnings="-register-all"]
Inductive pyval : Type :=
| PyNone
| PyInt (z : Z)
| PyFloat (q : Q)
| PyStr (s : string)
| PyDict (items : list (string * pyval)).

(** [v == s] for a string literal [s]. *)
Definition py_eq_str (v : pyval) (s : string) : bool :=
  match v with
  | PyStr s' => String.eqb s' s
  | _ => false
  end.

(** [ValueError fmt arg] stands for [ValueError(fmt % arg)];
    [TypeError call] is the [TypeError] raised in the call named. *)
Inductive error : Type :=
| KeyError (key : string)
| IndexError
| ValueError (fmt : string) (arg : pyval)
| TypeError (call : string)
| InvalidArgumentError (op : string).

Inductive result (A : Type) : Type :=
| Ok (a : A)
| Raise (e : error).
Arguments Ok {A} a.
Arguments Raise {A} e.

Definition rbind {A B} (m : result A) (k : A -> result B) : result B :=
  match m with
  | Ok a => k a
  | Raise e => Raise e
  end.

Notation "'let*' x ':=' m 'in' k" := (rbind m (fun x => k))
  (at level 10, x pattern, m at level 100, k at level 200).

Fixpoint rmapM {A B} (f : A -> result B) (l : list A) : result (list B) :=
  match l with
  | [] => Ok []
  | a :: l' => let* b := f a in let* bs := rmapM f l' in Ok (b :: bs)
  end.

(** [zip_with] that raises when the two lists disagree on their length. *)
Fixpoint rzipM {A B C} (op : string) (f : A -> B -> result C)
         (l : list A) (k : list B) : result (list C) :=
  match l, k with
  | [], [] => Ok []
  | a :: l', b :: k' =>
      let* c := f a b in let* cs := rzipM op f l' k' in Ok (c :: cs)
  | _, _ => Raise (InvalidArgumentError op)
  end.

#[global] Instance Q_eq_dec : EqDecision Q.
Proof. solve_decision. Defined.

(** ** The TensorFlow operations the model uses *)

Module TF.

(** [int64] arithmetic wraps around. *)
Definition wrap64 (z : Z) : Z := (z + 2 ^ 63) mod 2 ^ 64 - 2 ^ 63.
Definition add64 (a b : Z) : Z := wrap64 (a + b).
Definition sub64 (a b : Z) : Z := wrap64 (a - b).
Definition mul64 (a b : Z) : Z := wrap64 (a * b).
Definition in_int64 (z : Z) : Prop := - 2 ^ 63 <= z < 2 ^ 63.
Definition wrap32 (z : Z) : Z := (z + 2 ^ 31) mod 2 ^ 32 - 2 ^ 31.

(** Element-wise operations on two [int64] vectors of one shape. *)
Definition ew64 (op : string) (f : Z -> Z -> Z) (a b : list Z) : result (list Z) :=
  rzipM op (fun x y => Ok (f x y)) a b.

Definition ewbool (op : string) (f : bool -> bool -> bool) (a b : list bool)
  : result (list bool) :=
  rzipM op (fun x y => Ok (f x y)) a b.

(** [tf.equal] of two [int64] vectors. *)
Definition equal (a b : list Z) : result (list bool) :=
  rzipM "equal" (fun x y => Ok (x =? y)) a b.

(** [tf.cast(b, tf.int64)] of a boolean vector. *)
Definition cast_bool_int64 (b : list bool) : list Z :=
  map (fun x : bool => if x then 1 else 0) b.

(** A rank-2 tensor is a list of rows, a rank-3 tensor [batch, time,
    feature] a list of sequences of feature vectors. *)
Abbreviation vec := (list Q).
Abbreviation matrix := (list (list Q)).

(** [tf.reverse_sequence(input, seq_lengths, seq_dim=1)] on one batch
    row: the first [len] entries are reversed, the others stay.  The
    kernel rejects a negative length and one beyond the time dimension. *)
Definition reverse_row {A} (row : list A) (len : Z) : result (list A) :=
  if (0 <=? len) && (len <=? Z.of_nat (length row))
  then Ok (reverse (take (Z.to_nat len) row) ++ drop (Z.to_nat len) row)
  else Raise (InvalidArgumentError "reverse_sequence").

Definition reverse_sequence {A} (input : list (list A)) (seq_lengths : list Z)
  : result (list (list A)) :=
  rzipM "reverse_sequence" reverse_row input seq_lengths.

(** [tf.concat(1, [a, b])] of two rank-3 tensors: the batch dimensions
    must agree. *)
Definition concat1 {A} (a b : list (list A)) : result (list (list A)) :=
  rzipM "concat" (fun x y => Ok (x ++ y)) a b.

(** [tf.gather(params, indices)]: the CPU kernel raises on an index out
    of range. *)
Definition gather1 {A} (params : list A) (i : Z) : result A :=
  if 0 <=? i then
    match params !! Z.to_nat i with
    | Some a => Ok a
    | None => Raise (InvalidArgumentError "gather")
    end
  else Raise (InvalidArgumentError "gather").

Definition gather {A} (params : list A) (indices : list Z) : result (list A) :=
  rmapM (gather1 params) indices.

(** [tf.arg_max(input, 1)] on one row: the index of the first largest
    entry, as an [int64]; an empty row has no largest entry. *)
Fixpoint arg_max_from (best : Q) (besti i : nat) (row : list Q) : nat :=
  match row with
  | [] => besti
  | x :: row' =>
      if Qlt_le_dec best x
      then arg_max_from x i (S i) row'
      else arg_max_from best besti (S i) row'
  end.

Definition arg_max_row (row : list Q) : result Z :=
  match row with
  | [] => Raise (InvalidArgumentError "arg_max")
  | x :: row' => Ok (wrap64 (Z.of_nat (arg_max_from x 0 1 row')))
  end.

Definition arg_max (input : matrix) : result (list Z) := rmapM arg_max_row input.

(** Element-wise [+] of two rank-2 tensors of the same shape. *)
Definition add_rows (a b : vec) : result vec :=
  rzipM "add" (fun x y => Ok (x + y)%Q) a b.

Definition add (a b : matrix) : result matrix :=
  rzipM "add" add_rows a b.

(** [tf.range(0, n)] as [int64]. *)
Definition range (n : nat) : list Z := map Z.of_nat (seq 0 n).

(** [tf.reduce_max] of an [int64] vector. *)
Definition reduce_max (l : list Z) : Z :=
  match l with
  | [] => - 2 ^ 63
  | x :: l' => fold_left Z.max l' x
  end.

(** [tf.reshape(t, [-1, feature])] of a rank-3 tensor. *)
Definition flatten {A} (t : list (list A)) : list A := concat t.

(** [tf.zeros([rows, cols])]. *)
Definition zeros (rows cols : nat) : matrix := replicate rows (replicate cols 0%Q).

(** The random source of [tf.nn.dropout]: the uniform sample drawn for
    the entry at [batch, time, feature]. *)
Definition noise := nat -> nat -> nat -> Q.

(** [tf.nn.dropout(x, keep_prob)]: every entry is scaled by
    [1 / keep_prob] and multiplied by [floor (keep_prob + u)], where [u]
    is that entry's uniform sample from [[0, 1)]. *)
Definition dropout1 (keep_prob : Q) (x u : Q) : Q :=
  (x / keep_prob * inject_Z (Qfloor (keep_prob + u)))%Q.

Definition dropout (x : list (list vec)) (keep_prob : Q) (rnd : noise)
  : list (list vec) :=
  imap (fun b => imap (fun t => imap (fun h e => dropout1 keep_prob e (rnd b t h)))) x.

End TF.

(** ** [tfutil.mask_for_lengths] *)

Module Tfutil.

(** Modelled from the spec: [tfutil.mask_for_lengths] is not among the
    sources.  The decoders add its result to the end scores to mask
    "end positions before the start" ([mask_right=False], called on the
    start pointer) and "beyond start + MAX_ANSWER_LENGTH_HEURISTIC
    tokens after start" (default direction, called on
    [start + MAX_ANSWER_LENGTH_HEURISTIC + 1]).  So the result is a
    [batch x max_length] tensor that holds [value] at the masked
    positions and zero elsewhere: with [mask_right] the positions
    [>= lengths[b]], without it the positions [< lengths[b]].  The
    magnitude of [value] is not fixed by the spec and is a parameter. *)
Definition mask_row (value : Q) (max_length : nat) (mask_right : bool)
           (len : Z) : TF.vec :=
  map (fun j : nat =>
         if mask_right
         then (if len <=? Z.of_nat j then value else 0%Q)
         else (if Z.of_nat j <? len then value else 0%Q))
      (seq 0 max_length).

Definition mask_for_lengths (value : Q) (lengths : list Z)
           (max_length : nat) (mask_right : bool) : TF.matrix :=
  map (mask_row value max_length mask_right) lengths.

End Tfutil.

(** ** The null-token augmenter *)

Module Augment.
Section AppendNullWord.

(** A feature vector; the augmenter never looks inside it. *)
Context {V : Type}.

(** [self._batch_size]. *)
Variable batch_size : nat.

Definition append_null_word (tensor : list (list V)) (lengths : list Z)
           (null_word : V) : result (list (list V) * list Z) :=
  let tiled_null_word := replicate batch_size null_word in
  let reshaped_null_word := map (fun v => [v]) tiled_null_word in
  let* rev_tensor := TF.reverse_sequence tensor lengths in
  let* rev_tensor := TF.concat1 reshaped_null_word rev_tensor in
  let lengths1 := map (fun l => TF.add64 l 1) lengths in
  let* new_tensor := TF.reverse_sequence rev_tensor lengths1 in
  Ok (new_tensor, lengths1).

(** What [tf.reverse_sequence] makes of one row. *)
Definition reversed (row : list V) (L : Z) : list V :=
  reverse (take (Z.to_nat L) row) ++ drop (Z.to_nat L) row.

(** A row with its valid length, as the augmenter can take it. *)
Definition valid_row (row : list V) (L : Z) : Prop :=
  0 <= L <= Z.of_nat (length row) /\ Z.of_nat (length row) < 2 ^ 63 - 1.

(** The row the augmenter is to return: the valid tokens, the null word,
    what followed the valid tokens. *)
Definition augmented (null_word : V) (row : list V) (L : Z) : list V :=
  take (Z.to_nat L) row ++ null_word :: drop (Z.to_nat L) row.

End AppendNullWord.

Arguments reversed {V} row L.
Arguments valid_row {V} row L.
Arguments augmented {V} null_word row L.
End Augment.

(** ** What a forward pass reads *)

Module Model.

(** The code a decoder calls that is not among the sources.
    [controller_cell] is the recurrent cell [cell_constructor(...)]
    builds: one set of weights, applied at every iteration.
    [_highway_maxout_network] is [rnn_cell._highway_maxout_network]: the
    variable scope it is called in (its weights), then its arguments in
    the order of the call.  [mask_value] is the default [value] of
    [tfutil.mask_for_lengths]. *)
Record externals : Type := {
  controller_cell : TF.matrix -> TF.matrix -> TF.matrix * TF.matrix;
  _highway_maxout_network :
    string -> pyval -> pyval -> TF.matrix -> list TF.matrix -> list Z -> Z -> Z
    -> TF.matrix;
  mask_value : Q
}.

(** The attributes of [self] a decoder reads, with the values fed for
    the batch.  [input_size] is the static shape
    [context_states.get_shape()[-1]]. *)
Record tensors : Type := {
  keep_prob : Q;
  context_length : list Z;
  _batch_size : nat;
  _answer_layer_depth : pyval;
  _answer_layer_poolsize : pyval;
  size : Z;
  embedder_max_length : Z;
  answer_partition : list Z;
  correct_start_pointer : list Z;
  input_size : nat
}.

End Model.

(** ** The dynamic pointer decoder *)

Module DPN.
Section Decoder.

Variable net : Model.externals.
Variable self : Model.tensors.

Local Abbreviation controller_cell := (Model.controller_cell net).
Local Abbreviation _highway_maxout_network := (Model._highway_maxout_network net).
Local Abbreviation mask_value := (Model.mask_value net).
Local Abbreviation keep_prob := (Model.keep_prob self).
Local Abbreviation context_length := (Model.context_length self).
Local Abbreviation _batch_size := (Model._batch_size self).
Local Abbreviation _answer_layer_depth := (Model._answer_layer_depth self).
Local Abbreviation _answer_layer_poolsize := (Model._answer_layer_poolsize self).
Local Abbreviation size := (Model.size self).
Local Abbreviation embedder_max_length := (Model.embedder_max_length self).
Local Abbreviation answer_partition := (Model.answer_partition self).
Local Abbreviation input_size := (Model.input_size self).

(** The local variables of [_dpn_answer_layer] the loop reads and
    writes.  [next_start] and [next_end] are unbound before the first
    iteration; [current_start] and [current_end] start as [None]. *)
Record frame : Type := {
  cur_state : TF.matrix;
  u : TF.matrix;
  u_e : TF.matrix;
  is_stable : list bool;
  current_start : option (list Z);
  current_end : option (list Z);
  start_scores : list TF.matrix;
  end_scores : list TF.matrix;
  next_start : list Z;
  next_end : list Z
}.

Definition bound (v : option (list Z)) : result (list Z) :=
  match v with
  | Some l => Ok l
  | None => Raise (InvalidArgumentError "None")
  end.

(** The [if i > 0] branch of the loop body: the update of the stability
    flags and of the current pointers. *)
Definition update_stable (is_stable : list bool)
           (current_start current_end next_start next_end : list Z)
  : result (list bool * list Z * list Z) :=
  let* eqs := TF.equal next_start current_start in
  let* eqe := TF.equal next_end current_end in
  let* both := TF.ewbool "logical_and" andb eqs eqe in
  (* Once is_stable is true, it'll stay stable *)
  let* is_stable := TF.ewbool "logical_or" orb is_stable both in
  let is_stable_int := TF.cast_bool_int64 is_stable in
  let not_stable_int := map (TF.sub64 1) is_stable_int in
  let* keep := TF.ew64 "mul" TF.mul64 current_start is_stable_int in
  let* take := TF.ew64 "mul" TF.mul64 not_stable_int next_start in
  let* current_start := TF.ew64 "add" TF.add64 keep take in
  let* keep := TF.ew64 "mul" TF.mul64 current_end is_stable_int in
  let* take := TF.ew64 "mul" TF.mul64 not_stable_int next_end in
  let* current_end := TF.ew64 "add" TF.add64 keep take in
  Ok (is_stable, current_start, current_end).

Section Loop.

(** The values computed before the loop. *)
Variable context_states : list TF.matrix.
Variable max_length : Z.
Variable context_states_flat : list TF.vec.
Variable offsets : list Z.

(** One pass through the body of [for i in range(4)]. *)
Definition dpn_body (i : nat) (f : frame) : result frame :=
  let '(ctr_out, cur_state) := controller_cell (u f) (cur_state f) in
  let* inp := TF.concat1 (u f) ctr_out in
  let next_start_scores :=
    _highway_maxout_network "start" _answer_layer_depth _answer_layer_poolsize
      inp context_states context_length max_length size in
  let* next_start := TF.arg_max next_start_scores in
  let* idx := TF.ew64 "add" TF.add64 next_start offsets in
  let* u_s := TF.gather context_states_flat idx in
  let* u := TF.concat1 u_s (u_e f) in
  let* inp := TF.concat1 u ctr_out in
  let next_end_scores :=
    _highway_maxout_network "end" _answer_layer_depth _answer_layer_poolsize
      inp context_states context_length max_length size in
  let* next_end_scores_heuristic :=
    TF.add next_end_scores
      (Tfutil.mask_for_lengths mask_value next_start
         (Z.to_nat (embedder_max_length + 1)) false) in
  let* next_end := TF.arg_max next_end_scores_heuristic in
  let* idx := TF.ew64 "add" TF.add64 next_end offsets in
  let* u_e := TF.gather context_states_flat idx in
  let* u := TF.concat1 u_s u_e in
  let* (is_stable, current_start, current_end) :=
    if (0 <? i)%nat then
      let* cs := bound (current_start f) in
      let* ce := bound (current_end f) in
      update_stable (is_stable f) cs ce next_start next_end
    else Ok (is_stable f, next_start, next_end) in
  let* ss := TF.gather next_start_scores answer_partition in
  let* es := TF.gather next_end_scores answer_partition in
  Ok {| cur_state := cur_state; u := u; u_e := u_e;
        is_stable := is_stable;
        current_start := Some current_start;
        current_end := Some current_end;
        start_scores := start_scores f ++ [ss];
        end_scores := end_scores f ++ [es];
        next_start := next_start; next_end := next_end |}.

(** [for i in ...: body]; the body has no [break] and no [return]. *)
Fixpoint dpn_for (range : list nat) (f : frame) : result frame :=
  match range with
  | [] => Ok f
  | i :: range' => let* f' := dpn_body i f in dpn_for range' f'
  end.

End Loop.

(** The locals as the loop finds them. *)
Definition dpn_init (question_state : TF.matrix) : frame :=
  {| cur_state := question_state;
     u := TF.zeros _batch_size (2 * input_size);
     u_e := TF.zeros _batch_size input_size;
     is_stable := replicate _batch_size false;
     current_start := None; current_end := None;
     start_scores := []; end_scores := [];
     next_start := []; next_end := [] |}.

(** The locals after the first [n] iterations of the loop. *)
Definition dpn_iterate (n : nat) (question_state : TF.matrix)
           (context_states : list TF.matrix) (rnd : TF.noise) : result frame :=
  let context_states := TF.dropout context_states keep_prob rnd in
  let max_length := TF.wrap32 (TF.reduce_max context_length) in
  let context_states_flat := TF.flatten context_states in
  let offsets :=
    map (fun b => TF.mul64 b (TF.reduce_max context_length)) (TF.range _batch_size) in
  dpn_for context_states max_length context_states_flat offsets
    (seq 0 n) (dpn_init question_state).

Definition _dpn_answer_layer (question_state : TF.matrix)
           (context_states : list TF.matrix) (rnd : TF.noise)
  : result (list TF.matrix * list TF.matrix * list Z * list Z) :=
  let* f := dpn_iterate 4 question_state context_states rnd in
  let* current_end := bound (current_end f) in
  let* current_start := bound (current_start f) in
  let* end_pointer := TF.gather current_end answer_partition in
  let* start_pointer := TF.gather current_start answer_partition in
  Ok (start_scores f, end_scores f, start_pointer, end_pointer).

End Decoder.

(** The entry for example [b] of a pointer vector that may still be
    [None]. *)
Definition pointer (v : option (list Z)) (b : nat) : option Z :=
  match v with
  | Some l => l !! b
  | None => None
  end.

(** The shapes a forward pass relies on: the contexts are padded to the
    longest context of the batch; the flat indices fit [int64]; the
    answer partition points into the batch; the controller returns one
    row per example; and the scoring network, called as the decoder
    calls it (on the context states after dropout, the context lengths,
    [max_length] and the sizes of [self]), returns one row per example,
    as wide as the mask the decoder adds ([embedder.max_length + 1]).
    Nothing is asked of the network on other arguments. *)
Definition well_shaped (net : Model.externals) (self : Model.tensors)
           (question_state : TF.matrix) (context_states : list TF.matrix)
           (rnd : TF.noise) : Prop :=
  let B := Model._batch_size self in
  let M := TF.reduce_max (Model.context_length self) in
  let W := Z.to_nat (Model.embedder_max_length self + 1) in
  (1 <= W)%nat
  /\ Z.of_nat W <= M
  /\ 0 <= M /\ Z.of_nat B * M < 2 ^ 63 /\ M < 2 ^ 63
  /\ length question_state = B
  /\ length context_states = B
  /\ Forall (fun states => Z.of_nat (length states) = M) context_states
  /\ Forall (fun i => 0 <= i < Z.of_nat B) (Model.answer_partition self)
  /\ (forall u st, length u = B -> length st = B ->
                   length (fst (Model.controller_cell net u st)) = B
                   /\ length (snd (Model.controller_cell net u st)) = B)
  /\ (forall scope inputs,
         length inputs = B ->
         let scores :=
           Model._highway_maxout_network net scope
             (Model._answer_layer_depth self) (Model._answer_layer_poolsize self)
             inputs (TF.dropout context_states (Model.keep_prob self) rnd)
             (Model.context_length self) (TF.wrap32 M) (Model.size self) in
         length scores = B /\ Forall (fun row => length row = W) scores).

(** The shapes of the locals the next iteration relies on. *)
Definition shaped (batch_size : nat) (f : frame) : Prop :=
  length (u f) = batch_size /\ length (u_e f) = batch_size
  /\ length (is_stable f) = batch_size /\ length (cur_state f) = batch_size.

(** What holds of the locals after every iteration: the vectors have
    one entry per example, the pointers are [int64] values, and an
    example that is not stable has its current pointers at the
    predictions of the last iteration. *)
Definition settled (batch_size : nat) (f : frame) : Prop :=
  exists cs ce,
    current_start f = Some cs /\ current_end f = Some ce
    /\ length (is_stable f) = batch_size
    /\ length cs = batch_size /\ length ce = batch_size
    /\ length (next_start f) = batch_size /\ length (next_end f) = batch_size
    /\ Forall TF.in_int64 cs /\ Forall TF.in_int64 ce
    /\ Forall TF.in_int64 (next_start f) /\ Forall TF.in_int64 (next_end f)
    /\ forall b, is_stable f !! b = Some false ->
                 cs !! b = next_start f !! b /\ ce !! b = next_end f !! b.

(** The mask outweighs the end scores of a pass: in every row the end
    network returns when it is called as the decoder calls it, a score
    with the mask value added is below every score of the row.  The
    decoder relies on it when it adds the mask to "rule out" the
    positions before the start. *)
Definition mask_outweighs (net : Model.externals) (self : Model.tensors)
           (context_states : list TF.matrix) (rnd : TF.noise) : Prop :=
  forall inputs (b j k : nat) row x y,
    Model._highway_maxout_network net "end"
      (Model._answer_layer_depth self) (Model._answer_layer_poolsize self)
      inputs (TF.dropout context_states (Model.keep_prob self) rnd)
      (Model.context_length self)
      (TF.wrap32 (TF.reduce_max (Model.context_length self))) (Model.size self)
      !! b = Some row ->
    row !! j = Some x -> row !! k = Some y ->
    (x + Model.mask_value net < y)%Q.
End DPN.

(** ** The beam-search sequential pointer decoder *)

Module SPN.

Definition MAX_ANSWER_LENGTH_HEURISTIC : Z := 10.

(** The two graph variables that select the branches: [is_eval] and
    [beam_size], with the values their initializers give them. *)
Record variables : Type := { _eval : bool; _beam_size : Z }.

Definition initial_variables : variables := {| _eval := false; _beam_size := 1 |}.

(** [set_eval] runs the assignment of [True], [set_train] the
    initializer, [set_beam_size] an assignment to the [int32] variable:
    it checks nothing, and the variable holds the value given as an
    [int32], wrapped around when it is outside the range.  [set_eval]
    and [set_train] first call the base class, which is not among the
    sources and does not own these two variables. *)
Definition set_eval (v : variables) : variables :=
  {| _eval := true; _beam_size := _beam_size v |}.

Definition set_train (v : variables) : variables :=
  {| _eval := false; _beam_size := _beam_size v |}.

Definition set_beam_size (v : variables) (beam_size : Z) : variables :=
  {| _eval := _eval v; _beam_size := TF.wrap32 beam_size |}.

(** What the session calls of a caller do to the variables. *)
Inductive call : Type :=
| SetEval
| SetTrain
| SetBeamSize (beam_size : Z).

Definition run_call (v : variables) (c : call) : variables :=
  match c with
  | SetEval => set_eval v
  | SetTrain => set_train v
  | SetBeamSize k => set_beam_size v k
  end.

Fixpoint run_calls (v : variables) (cs : list call) : variables :=
  match cs with
  | [] => v
  | c :: cs' => run_calls (run_call v c) cs'
  end.

(** The interface of [beam_search.BeamSearchDecoder], which is not among
    the sources.  The object is stateful: the methods that record
    something return the new state. *)
Class BeamSearchDecoder (S : Type) : Type := {
  new_decoder : Z -> list Z -> S;
  receive_start_scores : S -> TF.matrix -> result (S * list Z);
  expand_batch : forall A : Type, S -> list A -> result (list A);
  receive_end_scores : S -> TF.matrix -> result S;
  get_top_spans : S -> result (list (list Z) * list (list Z) * TF.matrix);
  get_final_prediction : S -> result (TF.matrix * TF.matrix * list Z * list Z)
}.

(** [tf.shape(t)[1]] of a rank-3 tensor. *)
Definition shape1 {A} (t : list (list A)) : Z :=
  match t with
  | [] => 0
  | row :: _ => Z.of_nat (length row)
  end.

Section Decoder.

Context {S : Type} {decoder : BeamSearchDecoder S}.

Variable net : Model.externals.
Variable self : Model.tensors.
Variable vars : variables.

Local Abbreviation _highway_maxout_network := (Model._highway_maxout_network net).
Local Abbreviation mask_value := (Model.mask_value net).
Local Abbreviation keep_prob := (Model.keep_prob self).
Local Abbreviation context_length := (Model.context_length self).
Local Abbreviation _batch_size := (Model._batch_size self).
Local Abbreviation _answer_layer_depth := (Model._answer_layer_depth self).
Local Abbreviation _answer_layer_poolsize := (Model._answer_layer_poolsize self).
Local Abbreviation size := (Model.size self).
Local Abbreviation embedder_max_length := (Model.embedder_max_length self).
Local Abbreviation correct_start_pointer := (Model.correct_start_pointer self).
Local Abbreviation self_answer_partition := (Model.answer_partition self).

(** The local [hmn] of [_spn_answer_layer_impl]; [context_shape1] is the
    [context_shape[1]] it closes over. *)
Definition hmn (scope : string) (context_shape1 : Z) (input : TF.matrix)
           (states : list TF.matrix) (context_lengths : list Z) : TF.matrix :=
  (* Use context_length - 1 so that the null word is never selected. *)
  _highway_maxout_network scope _answer_layer_depth _answer_layer_poolsize
    input states (map (fun l => TF.sub64 l 1) context_lengths)
    context_shape1 size.

(** The locals of [_spn_answer_layer_impl] when it hands the end scores
    to the beam search. *)
Record frame : Type := {
  beam_search_decoder : S;
  start_scores : TF.matrix;
  predicted_start_pointer : list Z;
  partition : list Z;
  context_lengths : list Z;
  start_pointer : list Z;
  raw_end_scores : TF.matrix;
  masked_end_scores : TF.matrix;
  end_scores : TF.matrix
}.

Definition spn_scoring (question_state : TF.matrix)
           (context_states : list TF.matrix) (answer_partition : list Z)
           (beam_size : Z) (rnd : TF.noise) : result frame :=
  let beam_search_decoder := new_decoder beam_size answer_partition in
  let context_states := TF.dropout context_states keep_prob rnd in
  let context_shape1 := shape1 context_states in
  let context_states_flat := TF.flatten context_states in
  let offsets :=
    map (fun b => TF.mul64 b (TF.reduce_max context_length)) (TF.range _batch_size) in
  let start_scores :=
    hmn "start" context_shape1 question_state context_states context_length in
  let* (beam_search_decoder, predicted_start_pointer) :=
    receive_start_scores beam_search_decoder start_scores in
  let* partition := expand_batch _ beam_search_decoder answer_partition in
  let* question_state := TF.gather question_state partition in
  let* context_states := TF.gather context_states partition in
  let* offsets := TF.gather offsets partition in
  let* context_lengths := TF.gather context_length partition in
  let* start_pointer :=
    if _eval vars then Ok predicted_start_pointer
    else expand_batch _ beam_search_decoder correct_start_pointer in
  let* idx := TF.ew64 "add" TF.add64 start_pointer offsets in
  let* u_s := TF.gather context_states_flat idx in
  let* end_input := TF.concat1 u_s question_state in
  let end_scores :=
    hmn "end" context_shape1 end_input context_states context_lengths in
  (* Mask end scores for evaluation *)
  let* masked_end_scores :=
    TF.add end_scores
      (Tfutil.mask_for_lengths mask_value start_pointer
         (Z.to_nat (embedder_max_length + 1)) false) in
  let* masked_end_scores :=
    TF.add masked_end_scores
      (Tfutil.mask_for_lengths mask_value
         (map (fun s => TF.add64 (TF.add64 s MAX_ANSWER_LENGTH_HEURISTIC) 1)
              start_pointer)
         (Z.to_nat (embedder_max_length + 1)) true) in
  Ok {| beam_search_decoder := beam_search_decoder;
        start_scores := start_scores;
        predicted_start_pointer := predicted_start_pointer;
        partition := partition;
        context_lengths := context_lengths;
        start_pointer := start_pointer;
        raw_end_scores := end_scores;
        masked_end_scores := masked_end_scores;
        end_scores := if _eval vars then masked_end_scores else end_scores |}.

(** Returns the final prediction and the [top_starts], [top_ends],
    [top_probs] it stores on [self]. *)
Definition _spn_answer_layer_impl (question_state : TF.matrix)
           (context_states : list TF.matrix) (answer_partition : list Z)
           (beam_size : Z) (rnd : TF.noise)
  : result ((TF.matrix * TF.matrix * list Z * list Z)
            * (list (list Z) * list (list Z) * TF.matrix)) :=
  let* f := spn_scoring question_state context_states answer_partition beam_size rnd in
  let* beam_search_decoder := receive_end_scores (beam_search_decoder f) (end_scores f) in
  let* top := get_top_spans beam_search_decoder in
  let* final := get_final_prediction beam_search_decoder in
  Ok (final, top).

(** The beam size and the answer partition [_spn_answer_layer] passes on. *)
Definition effective_beam_size : Z :=
  (* Apply beam search only during evaluation *)
  if _eval vars then _beam_size vars else 1.

Definition effective_answer_partition (question_state : TF.matrix) : list Z :=
  (* During evaluation, we'll do the same for each answer *)
  if _eval vars then TF.range (length question_state) else self_answer_partition.

Definition expand_if_eval {A} (tensor : list A) : result (list A) :=
  if _eval vars then TF.gather tensor self_answer_partition else Ok tensor.

Definition _spn_answer_layer (question_state : TF.matrix)
           (context_states : list TF.matrix) (rnd : TF.noise)
  : result (TF.matrix * TF.matrix * list Z * list Z) :=
  let beam_size := effective_beam_size in
  let answer_partition := effective_answer_partition question_state in
  let* (start_scores, end_scores, starts, ends, _) :=
    _spn_answer_layer_impl question_state context_states answer_partition
      beam_size rnd in
  let* start_scores := expand_if_eval start_scores in
  let* end_scores := expand_if_eval end_scores in
  let* starts := expand_if_eval starts in
  let* ends := expand_if_eval ends in
  Ok (start_scores, end_scores, starts, ends).



End Decoder.

(** The mode and the beam size a sequence of calls leaves behind. *)
Fixpoint mode_after (eval : bool) (cs : list call) : bool :=
  match cs with
  | [] => eval
  | SetEval :: cs' => mode_after true cs'
  | SetTrain :: cs' => mode_after false cs'
  | SetBeamSize _ :: cs' => mode_after eval cs'
  end.

Fixpoint beam_size_after (beam_size : Z) (cs : list call) : Z :=
  match cs with
  | [] => beam_size
  | SetBeamSize k :: cs' => beam_size_after k cs'
  | _ :: cs' => beam_size_after beam_size cs'
  end.

End SPN.

(** ** Construction of the model: the graph, the attributes, the
    configuration dictionary *)

Module Build.

(** The default graph: the names of the nodes created so far, oldest
    first.  An exception leaves the nodes created before it in place. *)
Definition graph := list string.

Definition G (A : Type) : Type := graph -> result A * graph.

Definition gret {A} (a : A) : G A := fun g => (Ok a, g).

Definition gbind {A B} (m : G A) (k : A -> G B) : G B :=
  fun g =>
    match m g with
    | (Ok a, g') => k a g'
    | (Raise e, g') => (Raise e, g')
    end.

Definition graise {A} (e : error) : G A := fun g => (Raise e, g).

Definition glift {A} (r : result A) : G A := fun g => (r, g).

(** A call that adds nodes to the graph. *)
Definition emit (nodes : list string) : G unit := fun g => (Ok tt, g ++ nodes).

Notation "'do' x <- m ; k" := (gbind m (fun x => k))
  (at level 10, x pattern, m at level 100, k at level 200).
Notation "m ;; k" := (gbind m (fun _ => k))
  (at level 100, k at level 200, right associativity).

(** Python's [d[key]]. *)
Definition getitem (d : gmap string pyval) (key : string) : result pyval :=
  match d !! key with
  | Some v => Ok v
  | None => Raise (KeyError key)
  end.

(** [devices[i % len(devices)] if devices is not None else "/cpu:0"];
    on an empty list the first of these, [devices[0]], raises. *)
Definition device (devices : option (list string)) (i : nat) : result string :=
  match devices with
  | None => Ok "/cpu:0"%string
  | Some ds =>
      match ds !! (i `mod` length ds)%nat with
      | Some d => Ok d
      | None => Raise IndexError
      end
  end.

Section Model.

(** The upstream transfer model. *)
Variable T : Type.

(** The attributes [__init__] stores. *)
Record QAPointerModel : Type := {
  size : pyval;
  transfer_model : option T;
  keep_prob : Q;
  name : pyval;
  _composition : pyval;
  _device0 : string;
  _device1 : string;
  _device2 : string;
  _depends_on : list string;
  _transfer_layer_size : pyval;
  _answer_layer_depth : pyval;
  _answer_layer_poolsize : pyval;
  _answer_layer_type : pyval
}.

(** [ExtractionQAModel._init], [ExtractionQAModel.get_config] and
    [models.model_from_config] are not among the sources. *)
Variable ExtractionQAModel_init : QAPointerModel -> G unit.
Variable super_get_config : QAPointerModel -> gmap string pyval.
Variable model_from_config : pyval -> option (list string) -> G (option T).

Definition cell_constructor (self : QAPointerModel) : string :=
  if py_eq_str (_composition self) "GRU" then "GRUBlockCell"
  else if py_eq_str (_composition self) "RNN" then "BasicRNNCell"
  else "LSTMBlockCell".

(** The nodes each layer adds, one name per TensorFlow call. *)
Definition _preprocessing_layer (cell projection_scope : string) : G unit :=
  emit [cell; "RNN/bidirectional_dynamic_rnn"; "concat"; projection_scope]%string.

Definition append_null_word : G unit :=
  emit ["Tile"; "Reshape"; "ReverseSequence"; "concat"; "add"; "ReverseSequence";
        "add"]%string.

Definition _match_layer (cell : string) : G unit :=
  emit ["dot_co_attention"; cell; cell; "bidirectional_dynamic_rnn"; "concat"]%string.

Definition dpn_iteration_nodes : list string :=
  ["controller_cell"; "start/concat"; "start/highway_maxout_network"; "ArgMax";
   "add"; "Gather"; "concat"; "end/concat"; "end/highway_maxout_network";
   "mask_for_lengths"; "add"; "ArgMax"; "add"; "Gather"; "concat"]%string.

Definition dpn_stability_nodes : list string :=
  ["Equal"; "Equal"; "LogicalAnd"; "LogicalOr"; "Cast"; "mul"; "sub"; "mul";
   "add"; "mul"; "sub"; "mul"; "add"]%string.

Definition score_gather_nodes : list string := ["Gather"; "Gather"]%string.

(** Whether a cell takes one tensor as its state: the state of an
    [LSTMBlockCell] is a pair of tensors, the state of the two other
    cells is one tensor. *)
Definition takes_tensor_state (cell : string) : bool :=
  negb (String.eqb cell "LSTMBlockCell").

(** The nodes of [_dpn_answer_layer] before its loop. *)
Definition dpn_setup_nodes (cell : string) : list string :=
  ["dropout"; "Max"; "Cast"; cell; "Reshape"; "range"; "Cast"; "Max"; "mul";
   "zeros"; "zeros"; "Const"; "Tile"]%string.

(** The first iteration calls [controller_cell(u, cur_state)] with
    [cur_state = question_state], one tensor: an [LSTMBlockCell] raises
    there, before it adds a node. *)
Definition _dpn_answer_layer (cell : string) : G unit :=
  emit (dpn_setup_nodes cell) ;;
  if takes_tensor_state cell then
    emit (dpn_iteration_nodes ++ score_gather_nodes) ;;
    emit (dpn_iteration_nodes ++ dpn_stability_nodes ++ score_gather_nodes) ;;
    emit (dpn_iteration_nodes ++ dpn_stability_nodes ++ score_gather_nodes) ;;
    emit (dpn_iteration_nodes ++ dpn_stability_nodes ++ score_gather_nodes) ;;
    emit score_gather_nodes
  else graise (TypeError "controller_cell").

Definition _spn_answer_layer : G unit :=
  emit ["cond"; "cond"; "BeamSearchDecoder"; "dropout"; "Shape"; "Reshape"; "range";
        "Cast"; "Max"; "mul"; "start/sub"; "start/highway_maxout_network";
        "receive_start_scores"; "expand_batch"; "Gather"; "Gather"; "Gather";
        "Gather"; "cond"; "add"; "Gather"; "end/concat"; "end/sub";
        "end/highway_maxout_network"; "mask_for_lengths"; "add"; "add"; "add";
        "mask_for_lengths"; "add"; "cond"; "receive_end_scores"; "get_top_spans";
        "get_final_prediction"; "cond"; "cond"; "cond"; "cond"]%string.

(** The nodes [_init] itself adds before it reaches the pointer layer. *)
Definition variable_nodes : list string :=
  ["is_eval"; "is_eval/Assign"; "beam_size"; "ones"; "Neg"; "range"; "Cast"]%string.

Definition attention_nodes : list string :=
  ["Slice"; "attention"; "Squeeze"; "Softmax"; "ExpandDims"; "mul"; "Sum"]%string.

(** All the nodes [_init] adds after those of the base class and before
    it looks at the layer type. *)
Definition pre_pointer_nodes (cell : string) : list string :=
  variable_nodes
  ++ [cell; "RNN/bidirectional_dynamic_rnn"; "concat"; "question_proj"]%string
  ++ attention_nodes
  ++ [cell; "RNN/bidirectional_dynamic_rnn"; "concat"; "context_proj"]%string
  ++ ["NULL_WORD"]%string
  ++ ["Tile"; "Reshape"; "ReverseSequence"; "concat"; "add"; "ReverseSequence";
      "add"]%string
  ++ ["Tile"; "Reshape"; "ReverseSequence"; "concat"; "add"; "ReverseSequence";
      "add"]%string
  ++ ["dot_co_attention"; cell; cell; "bidirectional_dynamic_rnn"; "concat"]%string.

Definition valid_layer_type (t : pyval) : bool :=
  py_eq_str t "dpn" || py_eq_str t "spn".


Definition _init (self : QAPointerModel) : G unit :=
  ExtractionQAModel_init self ;;
  let cell := cell_constructor self in
  emit variable_nodes ;;
  (* preprocessing_layer *)
  _preprocessing_layer cell "question_proj" ;;
  emit attention_nodes ;;
  _preprocessing_layer cell "context_proj" ;;
  emit ["NULL_WORD"%string] ;;
  append_null_word ;;
  append_null_word ;;
  (* match_layer *)
  _match_layer cell ;;
  (* pointer_layer *)
  (if py_eq_str (_answer_layer_type self) "dpn" then _dpn_answer_layer cell
   else if py_eq_str (_answer_layer_type self) "spn" then _spn_answer_layer
   else graise (ValueError "Unknown answer layer type: %s" (_answer_layer_type self))) ;;
  gret tt.

(** [QAPointerModel.__init__] with the arguments [create_from_config]
    gives it (the others take their defaults).

Modelled from the spec: [ExtractionQAModel.__init__] is not among the
sources; construction is where an unknown layer type fails, so it
keeps [size], [transfer_model], [keep_prob] and [name] and runs
[_init]. *)
Definition __init__ (size : pyval) (transfer_model : option T) (name : pyval)
       (composition : pyval) (keep_prob : Q) (devices : option (list string))
       (answer_layer_depth answer_layer_poolsize answer_layer_type : pyval)
: G QAPointerModel :=
do device0 <- glift (device devices 0);
do device1 <- glift (device devices 1);
do device2 <- glift (device devices 2);
let self :=
{| size := size; transfer_model := transfer_model; keep_prob := keep_prob;
   name := name; _composition := composition;
   _device0 := device0; _device1 := device1; _device2 := device2;
   _depends_on := [];
   _transfer_layer_size := size;
   _answer_layer_depth := answer_layer_depth;
   _answer_layer_poolsize := answer_layer_poolsize;
   _answer_layer_type := answer_layer_type |} in
_init self ;;
gret self.

Definition get_config (self : QAPointerModel) : gmap string pyval :=
  let config := super_get_config self in
  let config := <["type" := PyStr "pointer"]> config in
  let config := <["composition" := _composition self]> config in
  let config := <["answer_layer_depth" := _answer_layer_depth self]> config in
  let config := <["answer_layer_poolsize" := _answer_layer_poolsize self]> config in
  let config := <["answer_layer_type" := _answer_layer_type self]> config in
  config.

(** [if key not in config: config[key] = value]. *)
Definition setdefault (key : string) (value : pyval) (config : gmap string pyval)
  : gmap string pyval :=
  match config !! key with
  | Some _ => config
  | None => <[key := value]> config
  end.

(** The dictionary as the first three statements leave it; the caller's
    dictionary is the one updated. *)
Definition with_defaults (config : gmap string pyval) : gmap string pyval :=
  (* Set defaults for backword compatibility *)
  let config := setdefault "answer_layer_depth" (PyInt 1) config in
  let config := setdefault "answer_layer_poolsize" (PyInt 8) config in
  let config := setdefault "answer_layer_type" (PyStr "dpn") config in
  config.

Definition create_from_config (config : gmap string pyval)
           (devices : option (list string)) (dropout : Q) : G QAPointerModel :=
  let config := with_defaults config in
  do tm_config <- glift (getitem config "transfer_model");
  do transfer_model <- model_from_config tm_config devices;
  do transfer_model <-
    match transfer_model with
    | None =>
        do tm_config <- glift (getitem config "transfer_model");
        model_from_config tm_config devices
    | Some _ => gret transfer_model
    end;
  do size <- glift (getitem config "size");
  do name <- glift (getitem config "name");
  do composition <- glift (getitem config "composition");
  do answer_layer_depth <- glift (getitem config "answer_layer_depth");
  do answer_layer_poolsize <- glift (getitem config "answer_layer_poolsize");
  do answer_layer_type <- glift (getitem config "answer_layer_type");
  __init__ size transfer_model name composition (1 - dropout)%Q devices
    answer_layer_depth answer_layer_poolsize answer_layer_type.

End Model.
End Build.

(** ** The projection of the preprocessing layer *)

Module Projection.

(** [np.eye(n)]. *)
Definition eye (n : nat) : TF.matrix :=
  map (fun i => map (fun j => if Nat.eqb i j then 1%Q else 0%Q) (seq 0 n)) (seq 0 n).

(** [np.concatenate([a, b])]: along the first axis. *)
Definition concatenate (a b : TF.matrix) : TF.matrix := a ++ b.

(** The value [projection_initializer] gives the [2 * size] by [size]
    weights of the projection. *)
Definition projection_initializer (size : nat) : TF.matrix :=
  concatenate (eye size) (eye size).

(** [x @ weights] for one input vector [x] and [weights] of [units]
    columns: what [fully_connected] computes of an input before it adds
    the biases and applies the activation. *)
Definition matmul (x : TF.vec) (weights : TF.matrix) (units : nat) : TF.vec :=
  map (fun j =>
         fold_right Qplus 0%Q (zip_with (fun xi row => (xi * nth j row 0)%Q) x weights))
      (seq 0 units).

End Projection.

(** ** The device flag of the tools *)

Module Flags.

Import Stdlib.Strings.Ascii.

(** Python's [s.split(sep)] for a separator of one character: the
    pieces between the separators, empty pieces included. *)
Fixpoint split (sep : Ascii.ascii) (s : string) : list string :=
  match s with
  | EmptyString => [EmptyString]
  | String c s' =>
      if Ascii.eqb c sep then EmptyString :: split sep s'
      else
        match split sep s' with
        | [] => [String c EmptyString]
        | piece :: pieces => String c piece :: pieces
        end
  end.

(** [devices = FLAGS.devices.split(",")], the first statement of both
    tools. *)
Definition devices (flag : string) : list string := split ","%char flag.

End Flags.

(** ** A small batch to run the decoders on *)

Module Scenario.

(** A controller that counts the iterations in its state. *)
Definition counting_cell (u st : TF.matrix) : TF.matrix * TF.matrix :=
  let st' := map (map (fun x => x + 1)%Q) st in (st', st').

(** A scoring network that reads the count, the last entry of its
    input: up to the second iteration position 1 scores best, from the
    third on position 0 (for the start) and position 2 (for the end). *)
Definition scripted_network (scope : string) (depth poolsize : pyval)
           (inputs : TF.matrix) (states : list TF.matrix) (lengths : list Z)
           (max_length size : Z) : TF.matrix :=
  map (fun row : TF.vec =>
         if Qle_bool (default 0 (last row)) 2 then [0; 1; 0]
         else if String.eqb scope "start" then [1; 0; 0] else [0; 0; 1])%Q
      inputs.

Definition net : Model.externals :=
  {| Model.controller_cell := counting_cell;
     Model._highway_maxout_network := scripted_network;
     Model.mask_value := (-1000)%Q |}.

(** One context of three positions, two gold answers on it. *)
Definition self : Model.tensors :=
  {| Model.keep_prob := 1%Q;
     Model.context_length := [3];
     Model._batch_size := 1;
     Model._answer_layer_depth := PyInt 1;
     Model._answer_layer_poolsize := PyInt 8;
     Model.size := 1;
     Model.embedder_max_length := 2;
     Model.answer_partition := [0; 0];
     Model.correct_start_pointer := [2; 0];
     Model.input_size := 1 |}.

(** A scoring network whose raw end scores are largest before the
    start it has just chosen. *)
Definition backward_network (scope : string) (depth poolsize : pyval)
           (inputs : TF.matrix) (states : list TF.matrix) (lengths : list Z)
           (max_length size : Z) : TF.matrix :=
  map (fun _ : TF.vec =>
         if String.eqb scope "start" then [0; 1; 0] else [1; 0; 0])%Q
      inputs.

Definition backward_net : Model.externals :=
  {| Model.controller_cell := counting_cell;
     Model._highway_maxout_network := backward_network;
     Model.mask_value := (-1000)%Q |}.

(** A scoring network that keeps to the lengths it is given and likes
    late positions: position [j] scores [j] inside the length of its
    row and [-1000] from there on. *)
Definition late_network (scope : string) (depth poolsize : pyval)
           (inputs : TF.matrix) (states : list TF.matrix) (lengths : list Z)
           (max_length size : Z) : TF.matrix :=
  map (fun len : Z =>
         map (fun j : nat =>
                if Z.of_nat j <? len then inject_Z (Z.of_nat j) else (-1000)%Q)
             (seq 0 3))
      lengths.

Definition late_net : Model.externals :=
  {| Model.controller_cell := counting_cell;
     Model._highway_maxout_network := late_network;
     Model.mask_value := (-1000)%Q |}.

(** A scoring network that gives every position of the states it is
    handed one score, the sum of the features there: its rows are as
    wide as the contexts are long, and it does not look at the lengths. *)
Definition positional_network (scope : string) (depth poolsize : pyval)
           (inputs : TF.matrix) (states : list TF.matrix) (lengths : list Z)
           (max_length size : Z) : TF.matrix :=
  map (fun example : TF.matrix => map (fun v : TF.vec => foldr Qplus 0%Q v) example)
      states.

Definition positional_net : Model.externals :=
  {| Model.controller_cell := counting_cell;
     Model._highway_maxout_network := positional_network;
     Model.mask_value := (-1000)%Q |}.

(** A scoring network that scores every position from the features
    there and likes the middle for the start and early positions for the
    end: with [x] the sum of the features of a position, the start score
    is [- (x - 2)^2] and the end score [- x]. *)
Definition early_network (scope : string) (depth poolsize : pyval)
           (inputs : TF.matrix) (states : list TF.matrix) (lengths : list Z)
           (max_length size : Z) : TF.matrix :=
  map (fun example : TF.matrix =>
         map (fun v : TF.vec =>
                let x := foldr Qplus 0 v in
                if String.eqb scope "start" then - ((x - 2) * (x - 2)) else - x)%Q
             example)
      states.

Definition early_net : Model.externals :=
  {| Model.controller_cell := counting_cell;
     Model._highway_maxout_network := early_network;
     Model.mask_value := (-1000)%Q |}.







(** A beam search of beam size 1 to run the sequential decoder with: it
    keeps the first largest start of every example and the first largest
    end of every row, and expands nothing.  It computes no
    probabilities. *)
Record greedy : Type := {
  starts : list Z;
  greedy_start_scores : TF.matrix;
  greedy_end_scores : TF.matrix
}.

#[global] Instance greedy_decoder : SPN.BeamSearchDecoder greedy :=
  {| SPN.new_decoder := fun _ _ =>
       {| starts := []; greedy_start_scores := []; greedy_end_scores := [] |};
     SPN.receive_start_scores := fun st scores =>
       let* starts := TF.arg_max scores in
       Ok ({| starts := starts; greedy_start_scores := scores;
              greedy_end_scores := [] |}, starts);
     SPN.expand_batch := fun A st tensor => Ok tensor;
     SPN.receive_end_scores := fun st scores =>
       Ok {| starts := starts st; greedy_start_scores := greedy_start_scores st;
             greedy_end_scores := scores |};
     SPN.get_top_spans := fun st =>
       let* ends := TF.arg_max (greedy_end_scores st) in
       Ok (map (fun s => [s]) (starts st), map (fun e => [e]) ends,
           map (fun _ => []) (starts st));
     SPN.get_final_prediction := fun st =>
       let* ends := TF.arg_max (greedy_end_scores st) in
       Ok (greedy_start_scores st, greedy_end_scores st, starts st, ends) |}.

Definition eval_mode : SPN.variables := {| SPN._eval := true; SPN._beam_size := 1 |}.
Definition train_mode : SPN.variables := {| SPN._eval := false; SPN._beam_size := 5 |}.

Definition question_state : TF.matrix := [[0%Q]].
Definition context_states : list TF.matrix := [[[1]; [2]; [3]]]%Q.
Definition rnd : TF.noise := fun _ _ _ => (1 # 2)%Q.

End Scenario.

(** ** The BioASQ inference tool: [tools/bioasq_inference.py] *)

Module Inference.

(** A JSON document as [json.load] returns it: [None], [bool], [int],
    [float], [str], [list] and [dict] with string keys.  The file is
    written back with [sort_keys=True], so the order of the keys of a
    dictionary is not kept. *)
#[warnings="-register-all"]
Inductive json : Type :=
| JNull
| JBool (b : bool)
| JInt (z : Z)
| JFloat (q : Q)
| JStr (s : string)
| JList (l : list json)
| JDict (d : gmap string json).

(** The exceptions [insert_answers] can end in. *)
Inductive exn : Type :=
| KeyError (key : string)
| IndexError
| TypeError.

Inductive outcome (A : Type) : Type :=
| Return (a : A)
| Throw (e : exn).
Arguments Return {A} a.
Arguments Throw {A} e.

(** What [insert_answers] uses of an [InferenceResult], a class that is
    not among the sources: the attribute [answer_strings] and the
    [(answer_string, answer_prob)] pairs that iterating over it yields.
    Nothing is assumed about how the two relate. *)
Record InferenceResult : Type := {
  answer_strings : list string;
  pairs : list (string * Q)
}.

(** [obj[key]] for a string [key]: a dictionary raises [KeyError] for a
    key it lacks; a list or a string takes integer indices only; the
    other values cannot be subscripted. *)
Definition getitem (obj : json) (key : string) : outcome json :=
  match obj with
  | JDict d =>
      match d !! key with
      | Some v => Return v
      | None => Throw (KeyError key)
      end
  | _ => Throw TypeError
  end.

(** [obj[key] = value] on a dictionary. *)
Definition setitem (obj : json) (key : string) (value : json) : json :=
  match obj with
  | JDict d => JDict (<[key := value]> d)
  | _ => obj
  end.

(** The values [for question in v] goes through: the items of a list,
    the keys of a dictionary, the characters of a string; the other
    values are not iterable.  Keys and characters are strings, on the
    first of which the loop body raises, so their order plays no role. *)
Definition iterate (v : json) : outcome (list json) :=
  match v with
  | JList l => Return l
  | JDict d => Return (map (fun kv : string * json => JStr (fst kv)) (map_to_list d))
  | JStr s => Return (map (fun c => JStr (String c EmptyString)) (String.list_ascii_of_string s))
  | _ => Throw TypeError
  end.

(** [v == s] for a string literal [s]. *)
Definition json_eq_str (v : json) (s : string) : bool :=
  match v with
  | JStr s' => String.eqb s' s
  | _ => false
  end.

Section InsertAnswers.

(** [FLAGS.list_answer_prob_threshold]. *)
Variable list_answer_prob_threshold : Q.

(** The [<question id> -> InferenceResult] map; the ids are strings. *)
Variable answers : gmap string InferenceResult.

(** [q_id in answers], with the entry found: a list or a dictionary
    cannot be hashed; a value that is not a string is no key of the map. *)
Definition find (q_id : json) : outcome (option InferenceResult) :=
  match q_id with
  | JStr s => Return (answers !! s)
  | JList _ | JDict _ => Throw TypeError
  | _ => Return None
  end.

(** The answers above the threshold, in the order of the result. *)
Definition above_threshold (r : InferenceResult) : list string :=
  map fst
    (List.filter (fun p : string * Q => negb (Qle_bool (snd p) list_answer_prob_threshold))
       (pairs r)).

(** The body of the loop for one question: [None] when the question is
    passed over, the question as the body leaves it when it is appended
    to [questions]. *)
Definition insert_answer (question : json) : outcome (option json) :=
  match getitem question "id" with
  | Throw e => Throw e
  | Return q_id =>
      match find q_id with
      | Throw e => Throw e
      | Return None => Return None
      | Return (Some r) =>
          match getitem question "type" with
          | Throw e => Throw e
          | Return type =>
              let answer_strings' :=
                if json_eq_str type "list" then above_threshold r
                else take 5 (answer_strings r) in
              let checked :=
                match answer_strings' with
                | [] =>
                    match answer_strings r with
                    | [] => Throw IndexError
                    | s :: _ => Return [s]
                    end
                | _ => Return answer_strings'
                end in
              match checked with
              | Throw e => Throw e
              | Return answer_strings' =>
                  let question :=
                    setitem question "exact_answer"
                      (JList (map (fun s => JList [JStr s]) answer_strings')) in
                  let question := setitem question "ideal_answer" (JStr "") in
                  Return (Some question)
              end
          end
      end
  end.

(** [for question in ...: body].  The result is the list [questions]
    when the loop has finished; beside it, the items of the list gone
    through as the loop leaves them, since the body updates the
    dictionaries in place.  The items are distinct objects, as
    [json.load] builds them. *)
Fixpoint for_questions (items questions : list json)
  : outcome (list json) * list json :=
  match items with
  | [] => (Return questions, [])
  | question :: items' =>
      match insert_answer question with
      | Throw e => (Throw e, question :: items')
      | Return None =>
          let '(r, after) := for_questions items' questions in
          (r, question :: after)
      | Return (Some question') =>
          let '(r, after) := for_questions items' (questions ++ [question']) in
          (r, question' :: after)
      end
  end.

(** The value returned (or the exception), and [bioasq_json] as the
    call leaves the caller's object. *)
Definition insert_answers (bioasq_json : json) : outcome json * json :=
  match getitem bioasq_json "questions" with
  | Throw e => (Throw e, bioasq_json)
  | Return v =>
      match iterate v with
      | Throw e => (Throw e, bioasq_json)
      | Return items =>
          let '(r, after) := for_questions items [] in
          let bioasq_json' :=
            match v with
            | JList _ => setitem bioasq_json "questions" (JList after)
            | _ => bioasq_json
            end in
          (match r with
           | Return questions =>
               Return (JDict {[ "questions"%string := JList questions ]})
           | Throw e => Throw e
           end,
           bioasq_json')
      end
  end.

End InsertAnswers.

(** The id of a question, and whether the map has an answer for it. *)
Definition question_id (question : json) : option json :=
  match question with
  | JDict d => d !! "id"%string
  | _ => None
  end.

Definition answer_of (answers : gmap string InferenceResult) (question : json)
  : option InferenceResult :=
  match question_id question with
  | Some (JStr s) => answers !! s
  | _ => None
  end.

Definition answered (answers : gmap string InferenceResult) (question : json) : bool :=
  bool_decide (is_Some (answer_of answers question)).

(** [question.get(key)]. *)
Definition field (question : json) (key : string) : option json :=
  match question with
  | JDict d => d !! key
  | _ => None
  end.

(** [[[s] for s in answer_strings]]. *)
Definition exact_answer (answer_strings : list string) : json :=
  JList (map (fun s => JList [JStr s]) answer_strings).

(** [out["questions"]] of the dictionary returned. *)
Definition questions_of (doc : json) : list json :=
  match field doc "questions" with
  | Some (JList l) => l
  | _ => []
  end.

(** [question["type"] == "list"]. *)
Definition is_list (question : json) : bool :=
  match field question "type" with
  | Some type => json_eq_str type "list"
  | None => false
  end.

(** A question of a BioASQ document: a dictionary with a string id and
    a type. *)
Definition well_formed (question : json) : Prop :=
  (exists s, question_id question = Some (JStr s))
  /\ is_Some (field question "type").

(** An answered question that is left with nothing to write: the result
    has no answer strings, and the question is no list question or no
    pair of the result is above the threshold. *)
Definition nothing_to_insert (threshold : Q) (answers : gmap string InferenceResult)
           (question : json) : bool :=
  match answer_of answers question with
  | Some r =>
      match answer_strings r with
      | [] =>
          negb (is_list question)
          || match above_threshold threshold r with [] => true | _ => false end
      | _ => false
      end
  | None => false
  end.

(** The answer strings the body writes for a result: the ones chosen by
    the type of the question or, when there is none, the first answer
    string. *)
Definition written (threshold : Q) (list_question : bool) (r : InferenceResult)
  : list string :=
  let chosen :=
    if list_question then above_threshold threshold r else take 5 (answer_strings r) in
  match chosen with
  | [] => take 1 (answer_strings r)
  | _ => chosen
  end.

(** What the body makes of one question that it does not fail on. *)
Definition updated (threshold : Q) (answers : gmap string InferenceResult)
           (q q' : json) : Prop :=
  (insert_answer threshold answers q = Return None /\ q' = q)
  \/ insert_answer threshold answers q = Return (Some q').

End Inference.

(** ** A small BioASQ document *)

Module InferenceScenario.

Import Inference.

Definition factoid_question : json :=
  JDict (<["id" := JStr "q1"]> (<["type" := JStr "factoid"]>
          (<["body" := JStr "Which gene?"]> ∅)))%string.

Definition list_question : json :=
  JDict (<["id" := JStr "q2"]> (<["type" := JStr "list"]> ∅))%string.

(** A question the model gave no answer for; it has no type. *)
Definition open_question : json :=
  JDict (<["id" := JStr "q3"]> ∅)%string.

Definition bioasq_json : json :=
  JDict {[ "questions"%string :=
             JList [factoid_question; open_question; list_question] ]}.

Definition answers : gmap string InferenceResult :=
  <["q1"%string := {| answer_strings := ["a"; "b"; "c"; "d"; "e"; "f"]%string;
                      pairs := [("a", 1 # 2); ("b", 1 # 4)]%string%Q |}]>
  (<["q2"%string := {| answer_strings := ["x"; "y"; "z"]%string;
                       pairs := [("x", 1 # 2); ("y", 1 # 100); ("z", 1 # 10)]%string%Q |}]>
   ∅).

(** A result without answer strings, for a question that is no list
    question. *)
Definition empty_answers : gmap string InferenceResult :=
  <["q2"%string := {| answer_strings := ["x"]%string; pairs := [] |}]>
  (<["q3"%string := {| answer_strings := []; pairs := [("x"%string, 1 # 2)%Q] |}]> ∅).

Definition typed_questions : list json :=
  [list_question;
   JDict (<["id" := JStr "q3"]> (<["type" := JStr "summary"]> ∅))%string;
   factoid_question].

(** [FLAGS.list_answer_prob_threshold], by default 0.04. *)
Definition threshold : Q := 4 # 100.

End InferenceScenario.

(** * Properties *)

(** ** The error monad and the element-wise operations *)

Lemma rbind_Ok {A B} (m : result A) (k : A -> result B) (b : B) :
  rbind m k = Ok b -> exists a, m = Ok a /\ k a = Ok b.
Proof. destruct m as [a|e]; simpl; [eauto | discriminate]. Qed.

(** Splits every hypothesis [let* x := m in k = Ok b]. *)
Ltac inv_bind :=
  repeat match goal with
    | H : rbind ?m ?k = Ok ?b |- _ =>
        let a := fresh "a" in
        let Ha := fresh "Ha" in
        apply rbind_Ok in H; destruct H as (a & Ha & H); cbv beta in H
    | H : Ok _ = Ok _ |- _ => injection H as H
    end.

Lemma rzipM_Forall3 {A B C} op (f : A -> B -> result C) l k r :
  rzipM op f l k = Ok r -> Forall3 (fun a b c => f a b = Ok c) l k r.
Proof.
  revert k r. induction l as [|a l IH]; intros [|b k] r H; simpl in H;
    try discriminate.
  - injection H as <-. constructor.
  - inv_bind. subst r. constructor; auto.
Qed.

Lemma rzipM_zip_with {A B C} op (f : A -> B -> result C) (g : A -> B -> C) l k :
  Forall2 (fun a b => f a b = Ok (g a b)) l k ->
  rzipM op f l k = Ok (zip_with g l k).
Proof.
  induction 1 as [|a b l k Hab _ IH]; simpl; [done|].
  rewrite Hab. simpl. rewrite IH. done.
Qed.

Lemma rzipM_pure {A B C} op (g : A -> B -> C) l k :
  length l = length k -> rzipM op (fun x y => Ok (g x y)) l k = Ok (zip_with g l k).
Proof.
  intros Hlen. apply rzipM_zip_with.
  apply Forall2_same_length_lookup_2; [done|]. intros; done.
Qed.

Lemma rzipM_pure_inv {A B C} op (g : A -> B -> C) l k r :
  rzipM op (fun x y => Ok (g x y)) l k = Ok r ->
  length l = length k /\ r = zip_with g l k.
Proof.
  intros H. apply rzipM_Forall3 in H.
  induction H as [|a b c l k r Habc _ IH]; simpl; [done|].
  destruct IH as [-> ->]. injection Habc as <-. done.
Qed.

Lemma rmapM_Forall2 {A B} (f : A -> result B) l r :
  rmapM f l = Ok r -> Forall2 (fun a b => f a = Ok b) l r.
Proof.
  revert r. induction l as [|a l IH]; intros r H; simpl in H.
  - injection H as <-. constructor.
  - inv_bind. subst r. constructor; auto.
Qed.

(** ** [int64] arithmetic *)

Lemma wrap64_small z : TF.in_int64 z -> TF.wrap64 z = z.
Proof.
  unfold TF.in_int64, TF.wrap64. intros Hz.
  rewrite Z.mod_small; lia.
Qed.

Lemma wrap64_in_int64 z : TF.in_int64 (TF.wrap64 z).
Proof.
  unfold TF.in_int64, TF.wrap64.
  pose proof (Z.mod_pos_bound (z + 2 ^ 63) (2 ^ 64)). lia.
Qed.

(** ** The null-token augmenter *)

Section AppendNullWordFacts.

Context {V : Type}.
Import Augment.

Lemma reverse_row_ok (row : list V) (L : Z) :
  0 <= L <= Z.of_nat (length row) -> TF.reverse_row row L = Ok (reversed row L).
Proof.
  intros HL. unfold TF.reverse_row.
  replace ((0 <=? L) && (L <=? Z.of_nat (length row))) with true; [done|].
  symmetry. apply andb_true_iff. split; lia.
Qed.

Lemma length_reversed (row : list V) (L : Z) :
  0 <= L <= Z.of_nat (length row) -> length (reversed row L) = length row.
Proof.
  intros HL. unfold reversed.
  rewrite length_app, length_reverse, length_take, length_drop. lia.
Qed.

Lemma add64_length (row : list V) (L : Z) :
  valid_row row L -> TF.add64 L 1 = L + 1.
Proof.
  intros [HL HT]. unfold TF.add64. apply wrap64_small. unfold TF.in_int64. lia.
Qed.

(** Reversing, putting the null word in front and reversing one more
    position leaves the null word right after the valid tokens. *)
Lemma reversed_null_reversed (row : list V) (L : Z) (null_word : V) :
  valid_row row L ->
  reversed ([null_word] ++ reversed row L) (TF.add64 L 1) = augmented null_word row L.
Proof.
  intros Hv. rewrite (add64_length row L Hv). destruct Hv as [HL HT].
  unfold reversed, augmented.
  set (n := Z.to_nat L).
  assert (Hrev : length (reverse (take n row)) = n).
  { rewrite length_reverse, length_take. lia. }
  replace (Z.to_nat (L + 1)) with (S n) by lia.
  cbn [app take drop].
  rewrite take_app_length' by done.
  rewrite drop_app_length' by done.
  rewrite reverse_cons, reverse_involutive, <- app_assoc. done.
Qed.

Lemma reverse_sequence_ok (tensor : list (list V)) (lengths : list Z) :
  Forall2 valid_row tensor lengths ->
  TF.reverse_sequence tensor lengths = Ok (zip_with reversed tensor lengths).
Proof.
  intros H. apply rzipM_zip_with.
  eapply Forall2_impl; [exact H|]. intros row L [HL _]. by apply reverse_row_ok.
Qed.

Lemma reverse_sequence_again (tensor : list (list V)) (lengths : list Z) (null_word : V) :
  Forall2 valid_row tensor lengths ->
  TF.reverse_sequence
    (zip_with app (map (fun v => [v]) (replicate (length tensor) null_word))
              (zip_with reversed tensor lengths))
    (map (fun l => TF.add64 l 1) lengths)
  = Ok (zip_with (augmented null_word) tensor lengths).
Proof.
  induction 1 as [|row L tensor lengths Hv _ IH]; [done|].
  unfold TF.reverse_sequence in *. cbn [length replicate map zip_with rzipM].
  rewrite IH. rewrite reverse_row_ok.
  - cbn [rbind]. by rewrite reversed_null_reversed.
  - rewrite (add64_length row L Hv). destruct Hv as [HL HT].
    rewrite length_app, length_reversed by done. simpl length. lia.
Qed.

Lemma append_null_word_ok (tensor : list (list V)) (lengths : list Z) (null_word : V) :
  Forall2 valid_row tensor lengths ->
  Augment.append_null_word (length tensor) tensor lengths null_word
  = Ok (zip_with (augmented null_word) tensor lengths, map (fun L => L + 1) lengths).
Proof.
  intros H. unfold Augment.append_null_word.
  rewrite reverse_sequence_ok by done. simpl.
  unfold TF.concat1. rewrite rzipM_pure.
  2:{ rewrite length_map, length_replicate, length_zip_with.
      apply Forall2_length in H. lia. }
  simpl. rewrite reverse_sequence_again by done. simpl.
  do 2 f_equal.
  clear -H. induction H as [|row L ? ? Hv _ IH]; [done|].
  cbn [map]. by rewrite IH, (add64_length row L Hv).
Qed.

(** Where the entries of an augmented row come from. *)
Lemma augmented_lookup (null_word : V) (row : list V) (L : Z) (i : nat) :
  0 <= L <= Z.of_nat (length row) ->
  augmented null_word row L !! i
  = if decide (i < Z.to_nat L)%nat then row !! i
    else if decide (i = Z.to_nat L) then Some null_word
    else row !! (i - 1)%nat.
Proof.
  intros HL. unfold augmented.
  assert (Hlen : length (take (Z.to_nat L) row) = Z.to_nat L).
  { rewrite length_take. lia. }
  destruct (decide (i < Z.to_nat L)%nat) as [Hi|Hi].
  - rewrite lookup_app_l by lia. by rewrite lookup_take_lt.
  - rewrite lookup_app_r by lia. rewrite Hlen.
    destruct (decide (i = Z.to_nat L)) as [->|Hne].
    + by rewrite Nat.sub_diag.
    + destruct (i - Z.to_nat L)%nat as [|k] eqn:Hk; [lia|].
      simpl. rewrite lookup_drop. f_equal. lia.
Qed.

End AppendNullWordFacts.

(** C3 (as amended).  For every batch of sequences with valid lengths
    [0 <= L <= T], [append_null_word] returns the lengths [L + 1] and, for
    every example, a row of [T + 1] vectors that holds the null word at
    0-indexed position [L], the [L] valid tokens in their order before it,
    and after it the former positions [L ..] (the padding) unchanged; a
    vector of the new row at any other position that equals the null word
    is a vector of the input row. *)
Theorem append_null_word_places_sentinel {V : Type} (tensor : list (list V))
        (lengths : list Z) (null_word : V) :
  Forall2 Augment.valid_row tensor lengths ->
  exists new_tensor,
    Augment.append_null_word (length tensor) tensor lengths null_word
    = Ok (new_tensor, map (fun L => L + 1) lengths)
    /\ Forall3 (fun row L new_row =>
                  length new_row = S (length row)
                  /\ new_row !! Z.to_nat L = Some null_word
                  /\ take (Z.to_nat L) new_row = take (Z.to_nat L) row
                  /\ drop (S (Z.to_nat L)) new_row = drop (Z.to_nat L) row
                  /\ (forall i, i <> Z.to_nat L -> new_row !! i = Some null_word ->
                                In null_word row))
               tensor lengths new_tensor.
Proof.
  intros H. eexists. split; [by apply append_null_word_ok|].
  induction H as [|row L tensor lengths [HL HT] _ IH]; [constructor|].
  cbn [zip_with]. constructor; [|exact IH].
  assert (Hlen : length (take (Z.to_nat L) row) = Z.to_nat L).
  { rewrite length_take. lia. }
  unfold Augment.augmented. repeat split.
  - rewrite length_app, Hlen. cbn [length]. rewrite length_drop. lia.
  - by apply list_lookup_middle.
  - by rewrite take_app_length'.
  - rewrite cons_middle, app_assoc. apply drop_app_length'.
    rewrite length_app, Hlen. cbn [length]. lia.
  - intros i Hi Hnull.
    fold (Augment.augmented null_word row L) in Hnull.
    rewrite augmented_lookup in Hnull by done.
    repeat case_decide; try done;
      apply list_elem_of_In; eapply list_elem_of_lookup_2; exact Hnull.
Qed.

(** The claim of C3 as stated fails where a valid token equals the null
    word: for a row whose one valid token is the zero vector and the null
    word at its initial value (zeros), the result of reported length 2
    holds the null word's vector twice, at positions 0 and 1. *)
Lemma append_null_word_sentinel_twice :
  let zero : TF.vec := [0; 0]%Q in
  Forall2 Augment.valid_row [[zero]] [1]
  /\ Augment.append_null_word 1 [[zero]] [1] zero = Ok ([[zero; zero]], [2])
  /\ count_occ (fun x y : TF.vec => decide (x = y)) [zero; zero] zero = 2%nat.
Proof.
  cbv zeta. split; [|split].
  - repeat constructor; unfold Augment.valid_row; cbn [length]; lia.
  - reflexivity.
  - reflexivity.
Qed.

Lemma append_null_word_places_sentinel_witness :
  let tensor : list (list TF.vec) :=
    [[[1]; [2]; [0]]; [[3]; [0]; [0]]]%Q in
  Forall2 Augment.valid_row tensor [2; 1]
  /\ exists new_tensor,
      Augment.append_null_word 2 tensor [2; 1] [7%Q] = Ok (new_tensor, [3; 2])
      /\ new_tensor !! 0%nat = Some [[1]; [2]; [7]; [0]]%Q
      /\ new_tensor !! 1%nat = Some [[3]; [7]; [0]; [0]]%Q.
Proof.
  cbv zeta.
  assert (Hv : Forall2 (Augment.valid_row (V:=TF.vec))
                       [[[1]; [2]; [0]]; [[3]; [0]; [0]]]%Q [2; 1]).
  { repeat constructor; unfold Augment.valid_row; cbn [length]; lia. }
  split; [exact Hv|].
  destruct (append_null_word_places_sentinel _ _ [7%Q] Hv) as (new_tensor & Hrun & _).
  exists new_tensor. split; [exact Hrun|].
  cbv in Hrun. injection Hrun as <-. split; reflexivity.
Defined.

(** ** The dynamic pointer decoder: the stability flags *)

Section UpdateStable.

Import DPN.

Lemma update_stable_inv st cs ce ns ne st' cs' ce' :
  update_stable st cs ce ns ne = Ok (st', cs', ce') ->
  let flag := fun x : bool => if x then 1 else 0 in
  length cs = length ns /\ length ce = length ns /\ length ne = length ns
  /\ length st = length ns
  /\ st' = zip_with orb st
             (zip_with andb (zip_with Z.eqb ns cs) (zip_with Z.eqb ne ce))
  /\ cs' = zip_with TF.add64
             (zip_with TF.mul64 cs (map flag st'))
             (zip_with TF.mul64 (map (TF.sub64 1) (map flag st')) ns)
  /\ ce' = zip_with TF.add64
             (zip_with TF.mul64 ce (map flag st'))
             (zip_with TF.mul64 (map (TF.sub64 1) (map flag st')) ne).
Proof.
  unfold update_stable, TF.equal, TF.ewbool, TF.ew64, TF.cast_bool_int64.
  intros H. inv_bind.
  repeat match goal with
         | H : rzipM _ _ _ _ = Ok _ |- _ =>
             apply rzipM_pure_inv in H; destruct H as [? ?]
         end.
  subst.
  repeat match goal with
         | H : context [length (zip_with _ _ _)] |- _ => rewrite length_zip_with in H
         | H : context [length (map _ _)] |- _ => rewrite length_map in H
         end.
  cbv zeta. repeat split; try done; lia.
Qed.

End UpdateStable.

(** ** The dynamic pointer decoder: one iteration *)

Lemma arg_max_in_int64 (m : TF.matrix) (l : list Z) :
  TF.arg_max m = Ok l -> Forall TF.in_int64 l /\ length l = length m.
Proof.
  intros H. apply rmapM_Forall2 in H. split.
  - induction H as [|row z m l Hz _ IH]; constructor; [|done].
    destruct row; simpl in Hz; [discriminate|].
    injection Hz as <-. apply wrap64_in_int64.
  - symmetry. by eapply Forall2_length.
Qed.

Section BodyFacts.

Import DPN.

Variable net : Model.externals.
Variable self : Model.tensors.
Variable context_states : list TF.matrix.
Variable max_length : Z.
Variable context_states_flat : list TF.vec.
Variable offsets : list Z.

Local Abbreviation body :=
  (dpn_body net self context_states max_length context_states_flat offsets).

Lemma dpn_body_inv (i : nat) (f f' : frame) :
  body i f = Ok f' ->
  length (next_start f') = length offsets
  /\ length (next_end f') = length offsets
  /\ Forall TF.in_int64 (next_start f') /\ Forall TF.in_int64 (next_end f')
  /\ (exists ss es, start_scores f' = start_scores f ++ [ss]
                    /\ end_scores f' = end_scores f ++ [es])
  /\ (if (0 <? i)%nat
      then exists cs ce cs' ce',
          current_start f = Some cs /\ current_end f = Some ce
          /\ update_stable (is_stable f) cs ce (next_start f') (next_end f')
             = Ok (is_stable f', cs', ce')
          /\ current_start f' = Some cs' /\ current_end f' = Some ce'
      else is_stable f' = is_stable f
           /\ current_start f' = Some (next_start f')
           /\ current_end f' = Some (next_end f')).
Proof.
  unfold dpn_body. destruct (Model.controller_cell net (u f) (cur_state f)) as [ctr_out st].
  intros H. inv_bind.
  destruct a10 as [[st' cs'] ce']. inv_bind. subst f'. cbn.
  apply arg_max_in_int64 in Ha0 as [Hs _], Ha6 as [He _].
  apply rzipM_pure_inv in Ha1 as [Hls _], Ha7 as [Hle _].
  repeat split; try done; [eauto|].
  destruct i as [|i]; cbn in Ha10 |- *.
  - inv_bind. by subst.
  - inv_bind.
    destruct (current_start f) as [cs|]; [|discriminate].
    destruct (current_end f) as [ce|]; [|discriminate].
    simpl in *. inv_bind. subst. do 4 eexists.
    split; [reflexivity|]. split; [reflexivity|]. split; [eassumption|].
    split; reflexivity.
Qed.

End BodyFacts.

Section StabilityFacts.

Import DPN.

Lemma mul64_flag (c : Z) (s : bool) :
  TF.in_int64 c -> TF.mul64 c (if s then 1 else 0) = if s then c else 0.
Proof.
  intros Hc. unfold TF.mul64. destruct s.
  - rewrite Z.mul_1_r. by apply wrap64_small.
  - rewrite Z.mul_0_r. reflexivity.
Qed.

Lemma mul64_not_flag (n : Z) (s : bool) :
  TF.in_int64 n ->
  TF.mul64 (TF.sub64 1 (if s then 1 else 0)) n = if s then 0 else n.
Proof.
  intros Hn. unfold TF.mul64, TF.sub64. destruct s.
  - reflexivity.
  - change (TF.wrap64 (1 - 0)) with 1. rewrite Z.mul_1_l. by apply wrap64_small.
Qed.

(** [current * is_stable_int + (1 - is_stable_int) * next] keeps the
    current pointer of a stable example and takes the next one of any
    other. *)
Lemma select64 (c n : Z) (s : bool) :
  TF.in_int64 c -> TF.in_int64 n ->
  TF.add64 (TF.mul64 c (if s then 1 else 0))
           (TF.mul64 (TF.sub64 1 (if s then 1 else 0)) n)
  = if s then c else n.
Proof.
  intros Hc Hn. rewrite mul64_flag, mul64_not_flag by done.
  unfold TF.add64. destruct s.
  - rewrite Z.add_0_r. by apply wrap64_small.
  - rewrite Z.add_0_l. by apply wrap64_small.
Qed.

(** The update of the flags and pointers, read for one example. *)
Lemma update_stable_example st cs ce ns ne st' cs' ce' (b : nat) s c e n1 n2 :
  update_stable st cs ce ns ne = Ok (st', cs', ce') ->
  TF.in_int64 c -> TF.in_int64 e -> TF.in_int64 n1 -> TF.in_int64 n2 ->
  st !! b = Some s -> cs !! b = Some c -> ce !! b = Some e ->
  ns !! b = Some n1 -> ne !! b = Some n2 ->
  let s' := s || ((n1 =? c) && (n2 =? e)) in
  st' !! b = Some s'
  /\ cs' !! b = Some (if s' then c else n1)
  /\ ce' !! b = Some (if s' then e else n2).
Proof.
  intros H Hc He Hn1 Hn2 Hs Hcb Heb Hnb1 Hnb2.
  apply update_stable_inv in H. cbv zeta in H.
  destruct H as (_ & _ & _ & _ & Hst & Hcs & Hce).
  assert (Hs' : st' !! b = Some (s || ((n1 =? c) && (n2 =? e)))).
  { rewrite Hst, !lookup_zip_with, Hs, Hcb, Heb, Hnb1, Hnb2. reflexivity. }
  cbv zeta. split; [exact Hs'|]. split.
  - rewrite Hcs, !lookup_zip_with, !list_lookup_fmap, Hs', Hcb, Hnb1. simpl.
    by rewrite select64.
  - rewrite Hce, !lookup_zip_with, !list_lookup_fmap, Hs', Heb, Hnb2. simpl.
    by rewrite select64.
Qed.

Lemma update_stable_lengths st cs ce ns ne st' cs' ce' :
  update_stable st cs ce ns ne = Ok (st', cs', ce') ->
  length st' = length ns /\ length cs' = length ns /\ length ce' = length ns
  /\ length st = length ns /\ length cs = length ns /\ length ce = length ns
  /\ length ne = length ns.
Proof.
  intros H. apply update_stable_inv in H. cbv zeta in H.
  destruct H as (H1 & H2 & H3 & H4 & Hst & Hcs & Hce).
  assert (Hl : length st' = length ns).
  { rewrite Hst, !length_zip_with. lia. }
  repeat split; try done.
  - rewrite Hcs, !length_zip_with, !length_map. lia.
  - rewrite Hce, !length_zip_with, !length_map. lia.
Qed.

Lemma zip_with_add64_in_int64 (l k : list Z) :
  Forall TF.in_int64 (zip_with TF.add64 l k).
Proof.
  revert k. induction l as [|x l IH]; intros [|y k]; simpl; constructor; auto.
  apply wrap64_in_int64.
Qed.

Lemma update_stable_in_int64 st cs ce ns ne st' cs' ce' :
  update_stable st cs ce ns ne = Ok (st', cs', ce') ->
  Forall TF.in_int64 cs' /\ Forall TF.in_int64 ce'.
Proof.
  intros H. apply update_stable_inv in H. cbv zeta in H.
  destruct H as (_ & _ & _ & _ & _ & -> & ->).
  split; apply zip_with_add64_in_int64.
Qed.

End StabilityFacts.

Section LoopFacts.

Import DPN.

Variable net : Model.externals.
Variable self : Model.tensors.
Variable context_states : list TF.matrix.
Variable max_length : Z.
Variable context_states_flat : list TF.vec.
Variable offsets : list Z.

Local Abbreviation body :=
  (dpn_body net self context_states max_length context_states_flat offsets).
Local Abbreviation loop :=
  (dpn_for net self context_states max_length context_states_flat offsets).

Lemma dpn_for_app (l1 l2 : list nat) (f : frame) :
  loop (l1 ++ l2) f = let* f' := loop l1 f in loop l2 f'.
Proof.
  revert f. induction l1 as [|i l1 IH]; intros f; simpl; [done|].
  destruct (body i f) as [f'|e]; simpl; [apply IH|done].
Qed.

Lemma dpn_for_snoc (n : nat) (f0 f' : frame) :
  loop (seq 0 (S n)) f0 = Ok f' ->
  exists f, loop (seq 0 n) f0 = Ok f /\ body n f = Ok f'.
Proof.
  rewrite seq_S, dpn_for_app. intros H. inv_bind.
  exists a. split; [done|]. simpl in H.
  destruct (body n a); simpl in H; [congruence|discriminate].
Qed.

Lemma body_settled_first (f f' : frame) :
  length (is_stable f) = length offsets ->
  body 0 f = Ok f' -> settled (length offsets) f'.
Proof.
  intros Hst H. apply dpn_body_inv in H.
  destruct H as (Hls & Hle & His & Hie & _ & Heq & Hcs & Hce). simpl in *.
  exists (next_start f'), (next_end f').
  rewrite Heq. split_and!; done.
Qed.

(** One later iteration, read for one example. *)
Lemma body_example (i : nat) (f f' : frame) (b : nat) :
  settled (length offsets) f ->
  body (S i) f = Ok f' ->
  (b < length offsets)%nat ->
  exists s c e n1 n2,
    is_stable f !! b = Some s
    /\ pointer (current_start f) b = Some c
    /\ pointer (current_end f) b = Some e
    /\ next_start f' !! b = Some n1
    /\ next_end f' !! b = Some n2
    /\ let s' := s || ((n1 =? c) && (n2 =? e)) in
       is_stable f' !! b = Some s'
       /\ pointer (current_start f') b = Some (if s' then c else n1)
       /\ pointer (current_end f') b = Some (if s' then e else n2).
Proof.
  intros (cs & ce & Hcs & Hce & Lst & Lcs & Lce & _ & _ & Ics & Ice & _) H Hb.
  apply dpn_body_inv in H.
  destruct H as (Lns & Lne & Ins & Ine & _ & cs0 & ce0 & cs' & ce' & H1 & H2 & Hup & H3 & H4).
  rewrite Hcs in H1. rewrite Hce in H2. injection H1 as <-. injection H2 as <-.
  destruct (lookup_lt_is_Some_2 (is_stable f) b) as [s Hs]; [lia|].
  destruct (lookup_lt_is_Some_2 cs b) as [c Hc]; [lia|].
  destruct (lookup_lt_is_Some_2 ce b) as [e He]; [lia|].
  destruct (lookup_lt_is_Some_2 (next_start f') b) as [n1 Hn1]; [lia|].
  destruct (lookup_lt_is_Some_2 (next_end f') b) as [n2 Hn2]; [lia|].
  exists s, c, e, n1, n2.
  rewrite Hcs, Hce, H3, H4. simpl.
  repeat (split; [done|]).
  eapply update_stable_example; eauto.
  - eapply Forall_lookup_1; [exact Ics|exact Hc].
  - eapply Forall_lookup_1; [exact Ice|exact He].
  - eapply Forall_lookup_1; [exact Ins|exact Hn1].
  - eapply Forall_lookup_1; [exact Ine|exact Hn2].
Qed.

Lemma body_settled_next (i : nat) (f f' : frame) :
  settled (length offsets) f ->
  body (S i) f = Ok f' -> settled (length offsets) f'.
Proof.
  intros Hset H.
  pose proof (body_example i f f') as Hex.
  specialize (fun b => Hex b Hset H).
  apply dpn_body_inv in H.
  destruct H as (Lns & Lne & Ins & Ine & _ & cs0 & ce0 & cs' & ce' & H1 & H2 & Hup & H3 & H4).
  pose proof (update_stable_lengths _ _ _ _ _ _ _ _ Hup) as (L1 & L2 & L3 & _).
  pose proof (update_stable_in_int64 _ _ _ _ _ _ _ _ Hup) as [I1 I2].
  exists cs', ce'. split_and!; try done; try lia.
  intros b Hfalse.
  destruct (Hex b) as (s & c & e & n1 & n2 & _ & _ & _ & Hn1 & Hn2 & Hs' & Hc' & He').
  { apply lookup_lt_Some in Hfalse. lia. }
  cbv zeta in *. rewrite Hfalse in Hs'. injection Hs' as Hs'.
  rewrite <- Hs' in Hc', He'. rewrite H3 in Hc'. rewrite H4 in He'.
  simpl in Hc', He'. split; congruence.
Qed.

(** A stable example stays stable and keeps its pointers. *)
Lemma body_keeps_stable (i : nat) (f f' : frame) (b : nat) :
  settled (length offsets) f ->
  body (S i) f = Ok f' ->
  is_stable f !! b = Some true ->
  is_stable f' !! b = Some true
  /\ pointer (current_start f') b = pointer (current_start f) b
  /\ pointer (current_end f') b = pointer (current_end f) b.
Proof.
  intros Hset H Hstable.
  assert (Hb : (b < length offsets)%nat).
  { apply lookup_lt_Some in Hstable.
    destruct Hset as (? & ? & _ & _ & Lst & _). lia. }
  destruct (body_example i f f' b Hset H Hb)
    as (s & c & e & n1 & n2 & Hs & Hc & He & _ & _ & Hs' & Hc' & He').
  cbv zeta in *. rewrite Hstable in Hs. injection Hs as <-. simpl in *.
  by rewrite Hc, He.
Qed.

(** An example whose prediction repeats the one of the iteration before
    becomes (or stays) stable, and its pointers are the ones it had. *)
Lemma body_latches (i : nat) (f f' : frame) (b : nat) :
  settled (length offsets) f ->
  body (S i) f = Ok f' ->
  (b < length offsets)%nat ->
  next_start f' !! b = next_start f !! b ->
  next_end f' !! b = next_end f !! b ->
  is_stable f' !! b = Some true
  /\ pointer (current_start f') b = pointer (current_start f) b
  /\ pointer (current_end f') b = pointer (current_end f) b.
Proof.
  intros Hset H Hb Hrs Hre.
  destruct (body_example i f f' b Hset H Hb)
    as (s & c & e & n1 & n2 & Hs & Hc & He & Hn1 & Hn2 & Hs' & Hc' & He').
  cbv zeta in *. destruct s.
  - simpl in *. by rewrite Hc, He.
  - destruct Hset as (cs & ce & Hcs & Hce & _ & _ & _ & _ & _ & _ & _ & _ & _ & Hns).
    destruct (Hns b Hs) as [E1 E2].
    rewrite Hcs in Hc. rewrite Hce in He. simpl in Hc, He.
    assert (n1 = c) as -> by congruence.
    assert (n2 = e) as -> by congruence.
    rewrite !Z.eqb_refl in *. simpl in *.
    rewrite Hcs, Hce. simpl. by rewrite Hc, He.
Qed.

End LoopFacts.

(** ** The dynamic pointer decoder: the whole loop *)

Section IterateFacts.

Import DPN.

Variable net : Model.externals.
Variable self : Model.tensors.
Variable question_state : TF.matrix.
Variable context_states : list TF.matrix.
Variable rnd : TF.noise.

Local Abbreviation B := (Model._batch_size self).
Local Abbreviation iterate :=
  (fun n => dpn_iterate net self n question_state context_states rnd).

Lemma length_range (n : nat) : length (TF.range n) = n.
Proof. unfold TF.range. by rewrite length_map, length_seq. Qed.

Lemma dpn_iterate_S (n : nat) (f' : frame) :
  iterate (S n) = Ok f' ->
  exists f offsets,
    length offsets = B /\ iterate n = Ok f
    /\ dpn_body net self (TF.dropout context_states (Model.keep_prob self) rnd)
         (TF.wrap32 (TF.reduce_max (Model.context_length self)))
         (TF.flatten (TF.dropout context_states (Model.keep_prob self) rnd))
         offsets n f = Ok f'.
Proof.
  unfold dpn_iterate. intros H. apply dpn_for_snoc in H as (f & Hf & Hbody).
  eexists f, _. split; [|split; [exact Hf|exact Hbody]].
  by rewrite length_map, length_range.
Qed.

Lemma dpn_iterate_settled (n : nat) (f : frame) :
  iterate (S n) = Ok f -> settled B f.
Proof.
  revert f. induction n as [|n IH]; intros f H.
  - apply dpn_iterate_S in H as (f0 & offsets & Hlen & H0 & Hbody).
    rewrite <- Hlen. eapply body_settled_first; [|exact Hbody].
    unfold dpn_iterate in H0. simpl in H0. injection H0 as <-.
    simpl. by rewrite length_replicate.
  - apply dpn_iterate_S in H as (f0 & offsets & Hlen & H0 & Hbody).
    rewrite <- Hlen. eapply body_settled_next; [|exact Hbody].
    rewrite Hlen. by apply IH.
Qed.

(** Once an example is stable it stays stable, and its pointers stay
    what they are, through all later iterations. *)
Lemma dpn_iterate_frozen (n m : nat) (f_n f_m : frame) (b : nat) :
  (n <= m)%nat ->
  iterate (S n) = Ok f_n -> iterate (S m) = Ok f_m ->
  is_stable f_n !! b = Some true ->
  is_stable f_m !! b = Some true
  /\ pointer (current_start f_m) b = pointer (current_start f_n) b
  /\ pointer (current_end f_m) b = pointer (current_end f_n) b.
Proof.
  intros Hnm Hn. revert f_m. induction Hnm as [|m Hnm IH]; intros f_m Hm Hst.
  - rewrite Hn in Hm. injection Hm as <-. done.
  - apply dpn_iterate_S in Hm as (f & offsets & Hlen & Hf & Hbody).
    destruct (IH f Hf Hst) as (Hs & Hc & He).
    pose proof (dpn_iterate_settled m f Hf) as Hset. rewrite <- Hlen in Hset.
    destruct (body_keeps_stable _ _ _ _ _ _ _ _ _ b Hset Hbody Hs) as (Hs' & Hc' & He').
    split; [done|]. split; congruence.
Qed.

Lemma gather_lookup {A} (params : list A) (indices : list Z) (r : list A)
      (k : nat) (i : nat) :
  TF.gather params indices = Ok r ->
  indices !! k = Some (Z.of_nat i) -> r !! k = params !! i /\ is_Some (params !! i).
Proof.
  intros H Hk. apply rmapM_Forall2 in H.
  destruct (Forall2_lookup_l _ _ _ _ _ H Hk) as (a & Ha & Hg).
  unfold TF.gather1 in Hg.
  destruct (0 <=? Z.of_nat i); [|discriminate].
  rewrite Nat2Z.id in Hg.
  destruct (params !! i); [|discriminate].
  injection Hg as ->. split; [done|eauto].
Qed.

Lemma dpn_answer_layer_inv ss es sp ep :
  _dpn_answer_layer net self question_state context_states rnd = Ok (ss, es, sp, ep) ->
  exists f cs ce,
    iterate 4%nat = Ok f
    /\ current_start f = Some cs /\ current_end f = Some ce
    /\ ss = start_scores f /\ es = end_scores f
    /\ TF.gather cs (Model.answer_partition self) = Ok sp
    /\ TF.gather ce (Model.answer_partition self) = Ok ep.
Proof.
  unfold _dpn_answer_layer. intros H. inv_bind.
  destruct (current_end a) as [ce|] eqn:Ece; [|discriminate].
  destruct (current_start a) as [cs|] eqn:Ecs; [|discriminate].
  simpl in *. inv_bind. subst.
  do 3 eexists. split_and!; try reflexivity; eassumption.
Qed.

End IterateFacts.

(** C1.  In the dynamic pointer decoder, for every example [b]: when the
    (start, end) prediction of iteration [n >= 1] equals the prediction of
    iteration [n - 1], the stability flag of [b] is true after iteration
    [n] and after every later iteration [m], and the current start and end
    pointers of [b] after iteration [m] are the ones after iteration [n],
    whatever the scoring network returns in between; the pointers the
    layer returns for the answer slots of [b] are these frozen values. *)
Theorem dpn_stability_latches (net : Model.externals) (self : Model.tensors)
        (question_state : TF.matrix) (context_states : list TF.matrix)
        (rnd : TF.noise) (n m b : nat) (f_prev f_n f_m : DPN.frame) :
  (1 <= n)%nat -> (n <= m)%nat -> (b < Model._batch_size self)%nat ->
  DPN.dpn_iterate net self n question_state context_states rnd = Ok f_prev ->
  DPN.dpn_iterate net self (S n) question_state context_states rnd = Ok f_n ->
  DPN.dpn_iterate net self (S m) question_state context_states rnd = Ok f_m ->
  DPN.next_start f_n !! b = DPN.next_start f_prev !! b ->
  DPN.next_end f_n !! b = DPN.next_end f_prev !! b ->
  DPN.is_stable f_n !! b = Some true
  /\ DPN.is_stable f_m !! b = Some true
  /\ DPN.pointer (DPN.current_start f_m) b = DPN.pointer (DPN.current_start f_n) b
  /\ DPN.pointer (DPN.current_end f_m) b = DPN.pointer (DPN.current_end f_n) b
  /\ is_Some (DPN.pointer (DPN.current_start f_n) b)
  /\ is_Some (DPN.pointer (DPN.current_end f_n) b)
  /\ forall ss es sp ep k,
      (n <= 3)%nat ->
      DPN._dpn_answer_layer net self question_state context_states rnd
      = Ok (ss, es, sp, ep) ->
      Model.answer_partition self !! k = Some (Z.of_nat b) ->
      sp !! k = DPN.pointer (DPN.current_start f_n) b
      /\ ep !! k = DPN.pointer (DPN.current_end f_n) b.
Proof.
  intros Hn Hnm Hb Hprev Hfn Hfm Hrs Hre.
  destruct n as [|n]; [lia|].
  pose proof (dpn_iterate_settled _ _ _ _ _ _ _ Hprev) as Hset.
  pose proof (dpn_iterate_settled _ _ _ _ _ _ _ Hfn) as Hset_n.
  destruct (dpn_iterate_S _ _ _ _ _ _ _ Hfn) as (f & offsets & Hlen & Hf & Hbody).
  rewrite Hprev in Hf. injection Hf as <-.
  rewrite <- Hlen in Hset, Hb.
  destruct (body_latches _ _ _ _ _ _ _ _ _ b Hset Hbody Hb Hrs Hre) as (Hst & Hcs & Hce).
  assert (Hfrozen : forall m' f', (S n <= m')%nat ->
            DPN.dpn_iterate net self (S m') question_state context_states rnd = Ok f' ->
            DPN.is_stable f' !! b = Some true
            /\ DPN.pointer (DPN.current_start f') b = DPN.pointer (DPN.current_start f_n) b
            /\ DPN.pointer (DPN.current_end f') b = DPN.pointer (DPN.current_end f_n) b).
  { intros m' f' Hm' Hf'. eapply dpn_iterate_frozen; eauto. }
  destruct (Hfrozen m f_m Hnm Hfm) as (Hst_m & Hcs_m & Hce_m).
  destruct Hset_n as (cs & ce & Ecs & Ece & _ & Lcs & Lce & _).
  split_and!; try done.
  - rewrite Ecs. simpl. apply lookup_lt_is_Some_2. lia.
  - rewrite Ece. simpl. apply lookup_lt_is_Some_2. lia.
  - intros ss es sp ep k Hn3 Hrun Hk.
    apply dpn_answer_layer_inv in Hrun
      as (f4 & cs4 & ce4 & Hf4 & Ecs4 & Ece4 & _ & _ & Hsp & Hep).
    destruct (Hfrozen 3%nat f4 ltac:(lia) Hf4) as (_ & Hcs4 & Hce4).
    rewrite Ecs4 in Hcs4. rewrite Ece4 in Hce4. simpl in Hcs4, Hce4.
    destruct (gather_lookup _ _ _ _ _ Hsp Hk) as [-> _].
    destruct (gather_lookup _ _ _ _ _ Hep Hk) as [-> _].
    done.
Qed.

(** On the small batch the predictions of iterations 0 and 1 agree, the
    scores of iterations 2 and 3 put their largest entries elsewhere
    (start 0, end 2), and the layer still returns start 1 and end 1. *)
Lemma dpn_stability_latches_witness :
  exists f_prev f_n f_m,
    DPN.dpn_iterate Scenario.net Scenario.self 1
      Scenario.question_state Scenario.context_states Scenario.rnd = Ok f_prev
    /\ DPN.dpn_iterate Scenario.net Scenario.self 2
         Scenario.question_state Scenario.context_states Scenario.rnd = Ok f_n
    /\ DPN.dpn_iterate Scenario.net Scenario.self 4
         Scenario.question_state Scenario.context_states Scenario.rnd = Ok f_m
    /\ DPN.next_start f_m = [0] /\ DPN.next_end f_m = [2]
    /\ DPN.is_stable f_n !! 0%nat = Some true
    /\ DPN.is_stable f_m !! 0%nat = Some true
    /\ DPN.pointer (DPN.current_start f_m) 0 = Some 1
    /\ DPN.pointer (DPN.current_end f_m) 0 = Some 1.
Proof.
  do 3 eexists.
  split; [vm_compute; reflexivity|].
  split; [vm_compute; reflexivity|].
  split; [vm_compute; reflexivity|].
  split; [reflexivity|]. split; [reflexivity|].
  pose proof (dpn_stability_latches Scenario.net Scenario.self
                Scenario.question_state Scenario.context_states Scenario.rnd
                1 3 0 _ _ _
                ltac:(lia) ltac:(lia) ltac:(simpl; lia)
                eq_refl eq_refl eq_refl eq_refl eq_refl)
    as (H1 & H2 & H3 & H4 & _).
  split; [exact H1|]. split; [exact H2|]. split; [exact H3|exact H4].
Defined.

(** ** The dynamic pointer decoder returns *)

Section Totality.

Lemma arg_max_from_bound (row : list Q) (best : Q) (besti i : nat) :
  (besti < i)%nat -> (TF.arg_max_from best besti i row < i + length row)%nat.
Proof.
  revert best besti i. induction row as [|x row IH]; intros best besti i Hlt; simpl.
  - lia.
  - destruct (Qlt_le_dec best x).
    + specialize (IH x i (S i) ltac:(lia)). lia.
    + specialize (IH best besti (S i) ltac:(lia)). lia.
Qed.

Lemma arg_max_row_total (row : list Q) (W : nat) :
  length row = W -> (1 <= W)%nat -> Z.of_nat W < 2 ^ 63 ->
  exists z, TF.arg_max_row row = Ok z /\ 0 <= z < Z.of_nat W.
Proof.
  intros Hlen HW Hbig. destruct row as [|x row]; simpl in *; [lia|].
  eexists. split; [reflexivity|].
  pose proof (arg_max_from_bound row x 0 1 ltac:(lia)).
  rewrite wrap64_small; unfold TF.in_int64; lia.
Qed.

Lemma arg_max_total (m : TF.matrix) (W : nat) :
  Forall (fun row => length row = W) m -> (1 <= W)%nat -> Z.of_nat W < 2 ^ 63 ->
  exists l, TF.arg_max m = Ok l /\ length l = length m
            /\ Forall (fun z => 0 <= z < Z.of_nat W) l.
Proof.
  intros Hm HW Hbig. unfold TF.arg_max.
  induction Hm as [|row m Hrow _ (l & Hl & Hlen & Hall)]; simpl.
  - exists []. done.
  - destruct (arg_max_row_total row W Hrow HW Hbig) as (z & -> & Hz).
    rewrite Hl. simpl. exists (z :: l). split_and!; [done|simpl; lia|by constructor].
Qed.

Lemma gather_total {A} (params : list A) (indices : list Z) :
  Forall (fun i => 0 <= i < Z.of_nat (length params)) indices ->
  exists r, TF.gather params indices = Ok r /\ length r = length indices.
Proof.
  unfold TF.gather. induction 1 as [|i indices Hi _ (r & Hr & Hlen)]; simpl.
  - exists []. done.
  - unfold TF.gather1 at 1.
    replace (0 <=? i) with true by (symmetry; apply Z.leb_le; lia).
    destruct (lookup_lt_is_Some_2 params (Z.to_nat i)) as [a ->]; [lia|].
    rewrite Hr. simpl. exists (a :: r). split; [done|simpl; lia].
Qed.

Lemma concat1_total {A} (a b : list (list A)) :
  length a = length b ->
  exists r, TF.concat1 a b = Ok r /\ length r = length a.
Proof.
  intros Hlen. unfold TF.concat1. rewrite rzipM_pure by done.
  eexists. split; [done|]. rewrite length_zip_with. lia.
Qed.

Lemma ew64_total op (g : Z -> Z -> Z) (a b : list Z) :
  length a = length b -> TF.ew64 op g a b = Ok (zip_with g a b).
Proof. intros Hlen. unfold TF.ew64. by apply rzipM_pure. Qed.

Lemma add_total (a b : TF.matrix) (W : nat) :
  length a = length b ->
  Forall (fun row => length row = W) a -> Forall (fun row => length row = W) b ->
  exists r, TF.add a b = Ok r /\ length r = length a
            /\ Forall (fun row => length row = W) r.
Proof.
  intros Hlen Ha. revert b Hlen.
  induction Ha as [|x a Hx _ IH]; intros [|y b] Hlen Hb; simpl in Hlen; try lia.
  - exists []. done.
  - apply Forall_cons in Hb as [Hy Hb].
    destruct (IH b ltac:(lia) Hb) as (r & Hr & Hlr & Hwr).
    unfold TF.add in *. simpl. unfold TF.add_rows at 1.
    rewrite rzipM_pure by lia. simpl. rewrite Hr. simpl.
    eexists. split; [done|]. split; [simpl; lia|].
    constructor; [|done]. rewrite length_zip_with. lia.
Qed.

Lemma mask_for_lengths_shape value lengths max_length mask_right :
  length (Tfutil.mask_for_lengths value lengths max_length mask_right) = length lengths
  /\ Forall (fun row => length row = max_length)
            (Tfutil.mask_for_lengths value lengths max_length mask_right).
Proof.
  unfold Tfutil.mask_for_lengths. split; [by rewrite length_map|].
  apply Forall_map, Forall_forall. intros len _. simpl.
  unfold Tfutil.mask_row. by rewrite length_map, length_seq.
Qed.

Lemma update_stable_total st cs ce ns ne :
  length cs = length ns -> length ce = length ns -> length ne = length ns ->
  length st = length ns ->
  exists st' cs' ce', DPN.update_stable st cs ce ns ne = Ok (st', cs', ce').
Proof.
  intros H1 H2 H3 H4.
  unfold DPN.update_stable, TF.equal, TF.ewbool, TF.ew64, TF.cast_bool_int64.
  repeat (rewrite rzipM_pure;
          [cbn [rbind]
          |rewrite ?length_zip_with, ?length_map, ?length_zip_with; lia]).
  eauto.
Qed.

Lemma length_dropout (x : list TF.matrix) keep_prob rnd :
  length (TF.dropout x keep_prob rnd) = length x
  /\ forall M, Forall (fun states => Z.of_nat (length states) = M) x ->
               Forall (fun states => Z.of_nat (length states) = M)
                      (TF.dropout x keep_prob rnd).
Proof.
  unfold TF.dropout. split; [by rewrite length_imap|].
  intros M H. apply Forall_lookup_2. intros i states Hi.
  rewrite list_lookup_imap in Hi.
  apply fmap_Some in Hi as (states0 & E & ->).
  rewrite length_imap.
  eapply Forall_lookup_1 in H; [|exact E]. done.
Qed.

Lemma length_flatten {A} (t : list (list A)) (M : Z) :
  Forall (fun states => Z.of_nat (length states) = M) t ->
  Z.of_nat (length (TF.flatten t)) = Z.of_nat (length t) * M.
Proof.
  unfold TF.flatten. induction 1 as [|x t Hx _ IH]; simpl; [lia|].
  rewrite length_app. lia.
Qed.

End Totality.

Section BodyTotal.

Import DPN.

Variable net : Model.externals.
Variable self : Model.tensors.
Variable question_state : TF.matrix.
Variable context_states0 : list TF.matrix.
Variable rnd : TF.noise.
Hypothesis Hws : well_shaped net self question_state context_states0 rnd.

Local Abbreviation B := (Model._batch_size self).
Local Abbreviation M := (TF.reduce_max (Model.context_length self)).
Local Abbreviation W := (Z.to_nat (Model.embedder_max_length self + 1)).
Local Abbreviation context_states :=
  (TF.dropout context_states0 (Model.keep_prob self) rnd).
Local Abbreviation offsets := (map (fun b => TF.mul64 b M) (TF.range B)).
Local Abbreviation body :=
  (dpn_body net self context_states (TF.wrap32 M) (TF.flatten context_states) offsets).

Lemma length_offsets : length offsets = B.
Proof. by rewrite length_map, length_range. Qed.

Lemma flat_indices (ns : list Z) :
  length ns = B -> Forall (fun z => 0 <= z < Z.of_nat W) ns ->
  Forall (fun i => 0 <= i < Z.of_nat (length (TF.flatten context_states)))
         (zip_with TF.add64 ns offsets).
Proof.
  destruct Hws as (HW1 & HWM & HM0 & HBM & HM & _ & Hlen & Hpad & _).
  intros Hns Hall.
  destruct (length_dropout context_states0 (Model.keep_prob self) rnd) as [Ld Hd].
  rewrite (length_flatten _ M (Hd M Hpad)), Ld, Hlen.
  apply Forall_lookup_2. intros b i Hi.
  apply lookup_zip_with_Some in Hi as (s & o & -> & Hs & Ho).
  unfold TF.range in Ho. rewrite <- list_fmap_compose in Ho.
  apply list_lookup_fmap_Some in Ho as (b' & -> & Hb').
  apply lookup_seq in Hb' as [-> Hb]. simpl.
  eapply Forall_lookup_1 in Hall; [|exact Hs]. simpl in Hall.
  unfold TF.mul64. rewrite (wrap64_small (Z.of_nat b * M)) by (unfold TF.in_int64; nia).
  unfold TF.add64. rewrite wrap64_small by (unfold TF.in_int64; nia). nia.
Qed.

Lemma dpn_body_total (i : nat) (f : frame) :
  shaped B f -> (i = 0%nat \/ settled B f) ->
  exists f', body i f = Ok f' /\ shaped B f'.
Proof.
  intros (Lu & Lue & Lst & Lcur) Hi.
  pose proof Hws as (HW1 & HWM & HM0 & HBM & HM & _ & Hlen & Hpad & Hap & Hcell & Hnet).
  assert (HWbig : Z.of_nat W < 2 ^ 63) by lia.
  unfold dpn_body.
  pose proof (Hcell (u f) (cur_state f) Lu Lcur) as [Lctr Lnew].
  destruct (Model.controller_cell net (u f) (cur_state f)) as [ctr_out st].
  simpl in Lctr, Lnew.
  destruct (concat1_total (u f) ctr_out) as (inp & -> & Linp); [lia|].
  cbn [rbind].
  match goal with |- context [TF.arg_max ?m] =>
    assert (Hs : length m = B /\ Forall (fun row => length row = W) m)
      by (apply Hnet; lia);
    destruct Hs as [Lss Wss];
    destruct (arg_max_total m W Wss HW1 HWbig) as (ns & Hns & Lns & Rns);
    rewrite Hns; cbn [rbind]
  end.
  rewrite ew64_total by (rewrite length_offsets; lia). cbn [rbind].
  destruct (gather_total (TF.flatten context_states) (zip_with TF.add64 ns offsets))
    as (u_s & -> & Lus); [apply flat_indices; [lia|done]|].
  rewrite length_zip_with, length_offsets in Lus. cbn [rbind].
  destruct (concat1_total u_s (u_e f)) as (u1 & -> & Lu1); [lia|].
  cbn [rbind].
  destruct (concat1_total u1 ctr_out) as (inp2 & -> & Linp2); [lia|].
  cbn [rbind].
  match goal with |- context [TF.add ?m ?k] =>
    assert (He : length m = B /\ Forall (fun row => length row = W) m)
      by (apply Hnet; lia);
    destruct He as [Les Wes];
    destruct (mask_for_lengths_shape (Model.mask_value net) ns W false) as [Lmask Wmask];
    destruct (add_total m k W) as (heur & Hheur & Lheur & Wheur); [lia|done|done|];
    rewrite Hheur; cbn [rbind]
  end.
  destruct (arg_max_total heur W Wheur HW1 HWbig) as (ne & -> & Lne & Rne).
  cbn [rbind].
  rewrite ew64_total by (rewrite length_offsets; lia). cbn [rbind].
  destruct (gather_total (TF.flatten context_states) (zip_with TF.add64 ne offsets))
    as (u_e' & -> & Lue'); [apply flat_indices; [lia|done]|].
  rewrite length_zip_with, length_offsets in Lue'. cbn [rbind].
  destruct (concat1_total u_s u_e') as (u2 & -> & Lu2); [lia|].
  cbn [rbind].
  assert (Hgather : forall m : TF.matrix, length m = B ->
            exists r, TF.gather m (Model.answer_partition self) = Ok r).
  { intros m Lm. destruct (gather_total m (Model.answer_partition self)) as (r & Hr & _).
    - by rewrite Lm.
    - eauto. }
  destruct i as [|i]; cbn [Nat.ltb Nat.leb].
  - cbn [rbind].
    match goal with |- context [TF.gather ?m (Model.answer_partition self)] =>
      destruct (Hgather m Lss) as (ss & ->) end.
    cbn [rbind].
    match goal with |- context [TF.gather ?m (Model.answer_partition self)] =>
      destruct (Hgather m Les) as (es & ->) end.
    cbn [rbind]. eexists. split; [reflexivity|].
    unfold shaped. cbn. lia.
  - destruct Hi as [Hi|Hset]; [discriminate|].
    destruct Hset as (cs & ce & -> & -> & _ & Lcs & Lce & _).
    cbn [bound rbind].
    destruct (update_stable_total (is_stable f) cs ce ns ne)
      as (st' & cs' & ce' & Hup); try lia.
    rewrite Hup. cbn [rbind].
    apply update_stable_lengths in Hup as (Lst' & _).
    match goal with |- context [TF.gather ?m (Model.answer_partition self)] =>
      destruct (Hgather m Lss) as (ss & ->) end.
    cbn [rbind].
    match goal with |- context [TF.gather ?m (Model.answer_partition self)] =>
      destruct (Hgather m Les) as (es & ->) end.
    cbn [rbind]. eexists. split; [reflexivity|].
    unfold shaped. cbn. lia.
Qed.

End BodyTotal.

Section LayerTotal.

Import DPN.

Variable net : Model.externals.
Variable self : Model.tensors.
Variable question_state : TF.matrix.
Variable context_states : list TF.matrix.
Variable rnd : TF.noise.
Hypothesis Hws : well_shaped net self question_state context_states rnd.

Local Abbreviation B := (Model._batch_size self).
Local Abbreviation iterate :=
  (fun n => dpn_iterate net self n question_state context_states rnd).

Lemma dpn_iterate_step (n : nat) (f : frame) :
  iterate n = Ok f ->
  iterate (S n)
  = dpn_body net self (TF.dropout context_states (Model.keep_prob self) rnd)
      (TF.wrap32 (TF.reduce_max (Model.context_length self)))
      (TF.flatten (TF.dropout context_states (Model.keep_prob self) rnd))
      (map (fun b => TF.mul64 b (TF.reduce_max (Model.context_length self)))
           (TF.range B))
      n f.
Proof.
  unfold dpn_iterate. intros H. rewrite seq_S, dpn_for_app, H. simpl.
  match goal with |- rbind ?m _ = _ => by destruct m end.
Qed.

Lemma dpn_iterate_total (n : nat) :
  exists f, iterate n = Ok f /\ shaped B f /\ (n = 0%nat \/ settled B f).
Proof.
  induction n as [|n (f & Hf & Hsh & Hset)].
  - eexists. split; [reflexivity|]. split; [|by left].
    destruct Hws as (_ & _ & _ & _ & _ & Lq & _).
    unfold shaped, dpn_init, TF.zeros. simpl. by rewrite !length_replicate.
  - destruct (dpn_body_total net self question_state context_states rnd Hws n f Hsh Hset)
      as (f' & Hbody & Hsh').
    exists f'. rewrite (dpn_iterate_step n f Hf). split; [exact Hbody|].
    split; [exact Hsh'|]. right.
    eapply dpn_iterate_settled. rewrite (dpn_iterate_step n f Hf). exact Hbody.
Qed.

Lemma dpn_iterate_scores (n : nat) (f : frame) :
  iterate n = Ok f ->
  length (start_scores f) = n /\ length (end_scores f) = n.
Proof.
  revert f. induction n as [|n IH]; intros f H.
  - unfold dpn_iterate in H. simpl in H. injection H as <-. done.
  - apply dpn_iterate_S in H as (f0 & offsets & _ & H0 & Hbody).
    destruct (IH f0 H0) as [Ls Le].
    apply dpn_body_inv in Hbody as (_ & _ & _ & _ & (ss & es & -> & ->) & _).
    rewrite !length_app. simpl. lia.
Qed.

Lemma gather_same_index {A} (params : list A) (indices : list Z) (r : list A)
      (j k : nat) :
  TF.gather params indices = Ok r ->
  indices !! j = indices !! k -> r !! j = r !! k.
Proof.
  intros H Hjk. apply rmapM_Forall2 in H.
  destruct (indices !! j) as [i|] eqn:Ej.
  - symmetry in Hjk.
    destruct (Forall2_lookup_l _ _ _ _ _ H Ej) as (a & -> & Ha).
    destruct (Forall2_lookup_l _ _ _ _ _ H Hjk) as (a' & -> & Ha').
    congruence.
  - symmetry in Hjk. pose proof (Forall2_length _ _ _ H) as Hlen.
    apply lookup_ge_None in Ej, Hjk.
    rewrite !(proj2 (lookup_ge_None _ _)); [done|lia|lia].
Qed.

Lemma dpn_answer_layer_total :
  exists ss es sp ep, _dpn_answer_layer net self question_state context_states rnd
                      = Ok (ss, es, sp, ep).
Proof.
  destruct (dpn_iterate_total 4) as (f & Hf & _ & [Hset|Hset]); [discriminate|].
  destruct Hset as (cs & ce & Ecs & Ece & _ & Lcs & Lce & _).
  destruct Hws as (_ & _ & _ & _ & _ & _ & _ & _ & Hap & _).
  unfold _dpn_answer_layer. rewrite Hf. cbn [rbind]. rewrite Ece, Ecs. cbn [bound rbind].
  destruct (gather_total ce (Model.answer_partition self)) as (ep & -> & _);
    [by rewrite Lce|].
  destruct (gather_total cs (Model.answer_partition self)) as (sp & -> & _);
    [by rewrite Lcs|].
  cbn [rbind]. eauto.
Qed.

End LayerTotal.

(** C7.  On a batch of the expected shapes the dynamic pointer decoder
    returns: each of the four iterations of its loop is executed, whether
    or not the examples are stable; the two lists it returns hold four
    score tensors each, one per iteration; the pointers it returns are the
    final current pointers gathered by the answer partition, so that two
    answer slots of one context get the same start and the same end. *)
Theorem dpn_four_iterations (net : Model.externals) (self : Model.tensors)
        (question_state : TF.matrix) (context_states : list TF.matrix)
        (rnd : TF.noise) :
  DPN.well_shaped net self question_state context_states rnd ->
  exists ss es sp ep f1 f2 f3 f4,
    DPN._dpn_answer_layer net self question_state context_states rnd
    = Ok (ss, es, sp, ep)
    /\ DPN.dpn_iterate net self 1 question_state context_states rnd = Ok f1
    /\ DPN.dpn_iterate net self 2 question_state context_states rnd = Ok f2
    /\ DPN.dpn_iterate net self 3 question_state context_states rnd = Ok f3
    /\ DPN.dpn_iterate net self 4 question_state context_states rnd = Ok f4
    /\ ss = DPN.start_scores f4 /\ es = DPN.end_scores f4
    /\ length ss = 4%nat /\ length es = 4%nat
    /\ (forall k b, Model.answer_partition self !! k = Some (Z.of_nat b) ->
                    is_Some (sp !! k)
                    /\ sp !! k = DPN.pointer (DPN.current_start f4) b
                    /\ ep !! k = DPN.pointer (DPN.current_end f4) b)
    /\ (forall j k, Model.answer_partition self !! j = Model.answer_partition self !! k ->
                    sp !! j = sp !! k /\ ep !! j = ep !! k).
Proof.
  intros Hws.
  destruct (dpn_answer_layer_total net self question_state context_states rnd Hws)
    as (ss & es & sp & ep & Hrun).
  destruct (dpn_iterate_total net self question_state context_states rnd Hws 1)
    as (f1 & H1 & _).
  destruct (dpn_iterate_total net self question_state context_states rnd Hws 2)
    as (f2 & H2 & _).
  destruct (dpn_iterate_total net self question_state context_states rnd Hws 3)
    as (f3 & H3 & _).
  pose proof Hrun as Hinv.
  apply dpn_answer_layer_inv in Hinv
    as (f4 & cs & ce & H4 & Ecs & Ece & -> & -> & Hsp & Hep).
  destruct (dpn_iterate_scores _ _ _ _ _ _ _ H4) as [Ls Le].
  exists (DPN.start_scores f4), (DPN.end_scores f4), sp, ep, f1, f2, f3, f4.
  split_and!; try done.
  - intros k b Hk. rewrite Ecs, Ece. simpl.
    destruct (gather_lookup _ _ _ _ _ Hsp Hk) as [-> Hsome].
    destruct (gather_lookup _ _ _ _ _ Hep Hk) as [-> _]. done.
  - intros j k Hjk. split; eapply gather_same_index; eauto.
Qed.


Lemma scenario_well_shaped :
  DPN.well_shaped Scenario.net Scenario.self Scenario.question_state
    Scenario.context_states Scenario.rnd.
Proof.
  unfold DPN.well_shaped. cbn -[Z.pow Z.mul TF.dropout].
  split_and!; try lia; try done.
  - repeat constructor.
  - repeat constructor; lia.
  - intros u st _ Hst. by rewrite !length_map.
  - intros scope inputs Hin.
    unfold Scenario.scripted_network.
    split; [by rewrite length_map|].
    apply Forall_map, Forall_forall. intros row _. simpl.
    destruct (Qle_bool _ _); [done|]. by destruct (String.eqb _ _).
Qed.

(** A network whose rows are as wide as the contexts are long has the
    shapes the decoder relies on, on a batch padded to
    [embedder.max_length + 1] positions. *)
Lemma positional_net_well_shaped :
  DPN.well_shaped Scenario.positional_net Scenario.self Scenario.question_state
    Scenario.context_states Scenario.rnd.
Proof.
  unfold DPN.well_shaped. cbn -[Z.pow Z.mul TF.dropout].
  split_and!; try lia; try done.
  - repeat constructor.
  - repeat constructor; lia.
  - intros u st _ Hst. by rewrite !length_map.
  - intros scope inputs Hin. split; [reflexivity|]. by repeat constructor.
Qed.

Lemma dpn_four_iterations_witness :
  DPN.well_shaped Scenario.positional_net Scenario.self Scenario.question_state
    Scenario.context_states Scenario.rnd
  /\ exists f4,
      DPN._dpn_answer_layer Scenario.positional_net Scenario.self
        Scenario.question_state Scenario.context_states Scenario.rnd
      = Ok (DPN.start_scores f4, DPN.end_scores f4, [2; 2], [2; 2])
      /\ length (DPN.start_scores f4) = 4%nat
      /\ length (DPN.end_scores f4) = 4%nat.
Proof.
  split; [exact positional_net_well_shaped|].
  destruct (dpn_four_iterations Scenario.positional_net Scenario.self
              Scenario.question_state Scenario.context_states Scenario.rnd
              positional_net_well_shaped)
    as (ss & es & sp & ep & f1 & f2 & f3 & f4 & Hrun & _ & _ & _ & _ & -> & -> & Ls & Le & _).
  exists f4. split; [|split; [exact Ls|exact Le]].
  rewrite Hrun. vm_compute in Hrun. injection Hrun as _ _ <- <-. reflexivity.
Defined.

(** ** The dynamic pointer decoder: the scores it returns *)

(** C10.  In every iteration of the dynamic pointer decoder the end-score
    tensor appended to the returned list is the output of the scoring
    network gathered by the answer partition, without the mask, while the
    end pointer of the iteration is the arg-max of that output plus the
    mask on the positions before the start; and there is a batch on which
    the arg-max of the returned end scores (position 0) is not the end
    pointer chosen at that iteration (position 1). *)
Theorem dpn_end_scores_unmasked :
  (forall (net : Model.externals) (self : Model.tensors)
          (context_states : list TF.matrix) (max_length : Z)
          (context_states_flat : list TF.vec) (offsets : list Z)
          (i : nat) (f f' : DPN.frame),
      DPN.dpn_body net self context_states max_length context_states_flat offsets i f
      = Ok f' ->
      exists inputs es heuristic,
        let next_end_scores :=
          Model._highway_maxout_network net "end"
            (Model._answer_layer_depth self) (Model._answer_layer_poolsize self)
            inputs context_states (Model.context_length self) max_length
            (Model.size self) in
        DPN.end_scores f' = DPN.end_scores f ++ [es]
        /\ TF.gather next_end_scores (Model.answer_partition self) = Ok es
        /\ TF.add next_end_scores
             (Tfutil.mask_for_lengths (Model.mask_value net) (DPN.next_start f')
                (Z.to_nat (Model.embedder_max_length self + 1)) false)
           = Ok heuristic
        /\ TF.arg_max heuristic = Ok (DPN.next_end f'))
  /\ (exists net self question_state context_states rnd f es,
         DPN.dpn_iterate net self 1 question_state context_states rnd = Ok f
         /\ DPN.end_scores f = [es]
         /\ DPN.next_end f = [1]
         /\ TF.arg_max es = Ok [0; 0]).
Proof.
  split.
  - intros net self context_states max_length context_states_flat offsets i f f'.
    unfold DPN.dpn_body.
    destruct (Model.controller_cell net (DPN.u f) (DPN.cur_state f)) as [ctr_out st].
    intros H. inv_bind.
    destruct a10 as [[st' cs'] ce']. inv_bind. subst f'. cbn.
    do 3 eexists. split_and!; [reflexivity|eassumption|eassumption|eassumption].
  - exists Scenario.backward_net, Scenario.self, Scenario.question_state,
      Scenario.context_states, Scenario.rnd.
    do 2 eexists. split; [vm_compute; reflexivity|].
    split_and!; reflexivity.
Qed.

Lemma dpn_end_scores_unmasked_witness :
  exists f',
    DPN.dpn_body Scenario.backward_net Scenario.self Scenario.context_states 3
      (TF.flatten Scenario.context_states) [0] 0
      (DPN.dpn_init Scenario.self Scenario.question_state) = Ok f'
    /\ exists inputs es heuristic,
        DPN.end_scores f' = [es]
        /\ TF.gather (Scenario.backward_network "end" (PyInt 1) (PyInt 8) inputs
                        Scenario.context_states [3] 3 1) [0; 0] = Ok es
        /\ TF.add (Scenario.backward_network "end" (PyInt 1) (PyInt 8) inputs
                     Scenario.context_states [3] 3 1)
             (Tfutil.mask_for_lengths (-1000)%Q (DPN.next_start f') 3 false)
           = Ok heuristic
        /\ TF.arg_max heuristic = Ok (DPN.next_end f').
Proof.
  eexists. split; [vm_compute; reflexivity|].
  apply (proj1 dpn_end_scores_unmasked Scenario.backward_net Scenario.self
           Scenario.context_states 3 (TF.flatten Scenario.context_states) [0] 0%nat
           (DPN.dpn_init Scenario.self Scenario.question_state)).
  vm_compute. reflexivity.
Defined.

(** ** [tf.arg_max]: the first largest entry *)

Lemma arg_max_from_spec (row : list Q) (best : Q) (besti i : nat) :
  let r := TF.arg_max_from best besti i row in
  (r = besti /\ forall j x, row !! j = Some x -> (x <= best)%Q)
  \/ (exists k v, r = (i + k)%nat /\ row !! k = Some v /\ (best < v)%Q
                  /\ (forall j x, row !! j = Some x -> (x <= v)%Q)
                  /\ (forall j x, (j < k)%nat -> row !! j = Some x -> (x < v)%Q)).
Proof.
  revert best besti i. induction row as [|x row IH]; intros best besti i; cbn zeta.
  - left. split; [done|]. intros j y Hj. by rewrite lookup_nil in Hj.
  - simpl. destruct (Qlt_le_dec best x) as [Hlt|Hle].
    + right. destruct (IH x i (S i)) as [[-> Hall]|(k & v & -> & Hk & Hv & Hall & Hfirst)].
      * exists 0%nat, x. split_and!; [lia|done|done| |].
        -- intros [|j] y Hj; simpl in Hj; [injection Hj as <-; apply Qle_refl|eauto].
        -- intros j y Hj. lia.
      * exists (S k), v. split_and!; [lia|done| | |].
        -- by eapply Qlt_trans.
        -- intros [|j] y Hj; simpl in Hj; [injection Hj as <-; by apply Qlt_le_weak|eauto].
        -- intros [|j] y Hjk Hj; simpl in Hj; [by injection Hj as <-|].
           eapply Hfirst; [|exact Hj]. lia.
    + destruct (IH best besti (S i)) as [[-> Hall]|(k & v & -> & Hk & Hv & Hall & Hfirst)].
      * left. split; [done|].
        intros [|j] y Hj; simpl in Hj; [by injection Hj as <-|eauto].
      * right. exists (S k), v. split_and!; [lia|done|done| |].
        -- intros [|j] y Hj; simpl in Hj; [|eauto].
           injection Hj as <-. apply Qlt_le_weak. by eapply Qle_lt_trans.
        -- intros [|j] y Hjk Hj; simpl in Hj.
           ++ injection Hj as <-. by eapply Qle_lt_trans.
           ++ eapply Hfirst; [|exact Hj]. lia.
Qed.

(** The arg-max of a row is the index of an entry no other entry exceeds,
    and every entry before it is strictly smaller: ties go to the lowest
    index. *)
Lemma arg_max_row_spec (row : list Q) (z : Z) :
  TF.arg_max_row row = Ok z ->
  Z.of_nat (length row) < 2 ^ 63 ->
  exists r v, z = Z.of_nat r /\ row !! r = Some v
              /\ (forall j x, row !! j = Some x -> (x <= v)%Q)
              /\ (forall j x, (j < r)%nat -> row !! j = Some x -> (x < v)%Q).
Proof.
  destruct row as [|x row]; simpl; [discriminate|].
  intros H Hlen. injection H as <-.
  pose proof (arg_max_from_bound row x 0 1 ltac:(lia)) as Hb.
  rewrite wrap64_small by (unfold TF.in_int64; lia).
  destruct (arg_max_from_spec row x 0 1) as [[-> Hall]|(k & v & -> & Hk & Hv & Hall & Hfirst)].
  - exists 0%nat, x. split_and!; [done|done| |].
    + intros [|j] y Hj; simpl in Hj; [injection Hj as <-; apply Qle_refl|eauto].
    + intros j y Hj. lia.
  - exists (S k), v. split_and!; [done|done| |].
    + intros [|j] y Hj; simpl in Hj; [injection Hj as <-; by apply Qlt_le_weak|eauto].
    + intros [|j] y Hjk Hj; simpl in Hj; [by injection Hj as <-|].
      eapply Hfirst; [|exact Hj]. lia.
Qed.

(** ** The sequential pointer decoder *)

Section ScoringFacts.

Context {S : Type} {decoder : SPN.BeamSearchDecoder S}.
Variable net : Model.externals.
Variable self : Model.tensors.
Variable vars : SPN.variables.

(** What [spn_scoring] has computed when it returns its locals. *)
Lemma spn_scoring_inv question_state context_states answer_partition beam_size rnd
      (f : SPN.frame) :
  SPN.spn_scoring net self vars question_state context_states answer_partition
    beam_size rnd = Ok f ->
  let dropped := TF.dropout context_states (Model.keep_prob self) rnd in
  let width := Z.to_nat (Model.embedder_max_length self + 1) in
  exists question_state' context_states' end_input masked,
    SPN.start_scores f
    = SPN.hmn net self "start" (SPN.shape1 dropped) question_state dropped
        (Model.context_length self)
    /\ SPN.receive_start_scores (SPN.new_decoder beam_size answer_partition)
         (SPN.start_scores f)
       = Ok (SPN.beam_search_decoder f, SPN.predicted_start_pointer f)
    /\ SPN.expand_batch Z (SPN.beam_search_decoder f) answer_partition
       = Ok (SPN.partition f)
    /\ TF.gather question_state (SPN.partition f) = Ok question_state'
    /\ TF.gather dropped (SPN.partition f) = Ok context_states'
    /\ TF.gather (Model.context_length self) (SPN.partition f)
       = Ok (SPN.context_lengths f)
    /\ (if SPN._eval vars
        then SPN.start_pointer f = SPN.predicted_start_pointer f
        else SPN.expand_batch Z (SPN.beam_search_decoder f)
               (Model.correct_start_pointer self) = Ok (SPN.start_pointer f))
    /\ SPN.raw_end_scores f
       = SPN.hmn net self "end" (SPN.shape1 dropped) end_input context_states'
           (SPN.context_lengths f)
    /\ TF.add (SPN.raw_end_scores f)
         (Tfutil.mask_for_lengths (Model.mask_value net) (SPN.start_pointer f)
            width false) = Ok masked
    /\ TF.add masked
         (Tfutil.mask_for_lengths (Model.mask_value net)
            (map (fun s => TF.add64 (TF.add64 s SPN.MAX_ANSWER_LENGTH_HEURISTIC) 1)
                 (SPN.start_pointer f))
            width true) = Ok (SPN.masked_end_scores f)
    /\ SPN.end_scores f
       = if SPN._eval vars then SPN.masked_end_scores f else SPN.raw_end_scores f.
Proof.
  unfold SPN.spn_scoring. intros H. inv_bind.
  destruct a as [dec ps]. inv_bind. subst f. cbn.
  do 4 eexists. split_and!; try reflexivity; try eassumption.
  destruct (SPN._eval vars); inv_bind; by subst.
Qed.

End ScoringFacts.

Lemma wrap32_small z : - 2 ^ 31 <= z < 2 ^ 31 -> TF.wrap32 z = z.
Proof. unfold TF.wrap32. intros Hz. rewrite Z.mod_small; lia. Qed.

Lemma wrap32_wrap32 z : TF.wrap32 (TF.wrap32 z) = TF.wrap32 z.
Proof.
  apply wrap32_small. unfold TF.wrap32.
  pose proof (Z.mod_pos_bound (z + 2 ^ 31) (2 ^ 32)). lia.
Qed.

(** The variables after a sequence of calls: the mode is the one last
    set, the beam size the value last given, as an [int32]. *)
Lemma run_calls_spec (calls : list SPN.call) (v : SPN.variables) (b : Z) :
  SPN._beam_size v = TF.wrap32 b ->
  SPN._eval (SPN.run_calls v calls) = SPN.mode_after (SPN._eval v) calls
  /\ SPN._beam_size (SPN.run_calls v calls) = TF.wrap32 (SPN.beam_size_after b calls).
Proof.
  revert v b. induction calls as [|c calls IH]; intros v b Hb; simpl; [done|].
  destruct c as [| |k]; simpl.
  - apply (IH (SPN.set_eval v) b). exact Hb.
  - apply (IH (SPN.set_train v) b). exact Hb.
  - apply (IH (SPN.set_beam_size v k) k). reflexivity.
Qed.

(** The claim of C6 as stated fails: [set_beam_size] checks nothing and
    the beam size is an [int32] variable, so in evaluation mode after
    [set_beam_size(2 ^ 31)] the decoder works with [- 2 ^ 31], not with
    the value it was given. *)
Lemma spn_beam_size_not_as_configured :
  SPN._eval (SPN.run_calls SPN.initial_variables [SPN.SetEval; SPN.SetBeamSize (2 ^ 31)])
  = true
  /\ SPN.beam_size_after 1 [SPN.SetEval; SPN.SetBeamSize (2 ^ 31)] = 2 ^ 31
  /\ SPN.effective_beam_size
       (SPN.run_calls SPN.initial_variables [SPN.SetEval; SPN.SetBeamSize (2 ^ 31)])
     = - 2 ^ 31
  /\ SPN.effective_beam_size
       (SPN.run_calls SPN.initial_variables [SPN.SetEval; SPN.SetBeamSize (2 ^ 31)])
     <> SPN.beam_size_after 1 [SPN.SetEval; SPN.SetBeamSize (2 ^ 31)].
Proof.
  split; [reflexivity|]. split; [reflexivity|]. split; [reflexivity|].
  intros H. vm_compute in H. discriminate H.
Qed.

(** C6 (as amended).  After any calls of [set_eval], [set_train] and
    [set_beam_size] on a fresh model, the beam size the sequential decoder works with is 1
    when the model is in training mode and, when it is in evaluation
    mode, the value last given to [set_beam_size] (1 if none was) as the
    [int32] variable holds it: the value itself when it is an [int32].
    In training mode the layer is the run of the decoder with beam size 1
    on the fed answer partition, and the start pointer the end scoring
    uses is the fed gold start pointer, expanded by the beam search.  In
    evaluation mode the layer is the run of the decoder with the
    configured beam size on the partition [0 .. batch-1], gathered by the
    fed answer partition, and the end scoring uses the starts the beam
    search has chosen. *)
Theorem spn_beam_size_by_mode (calls : list SPN.call) :
  let vars := SPN.run_calls SPN.initial_variables calls in
  let configured := SPN.beam_size_after 1 calls in
  SPN._eval vars = SPN.mode_after false calls
  /\ SPN.effective_beam_size vars
     = (if SPN.mode_after false calls then TF.wrap32 configured else 1)
  /\ (SPN.mode_after false calls = true -> - 2 ^ 31 <= configured < 2 ^ 31 ->
      SPN.effective_beam_size vars = configured)
  /\ forall (S : Type) (decoder : SPN.BeamSearchDecoder S) net self
            question_state context_states rnd,
      (SPN._eval vars = false ->
       SPN._spn_answer_layer net self vars question_state context_states rnd
       = (let* r := SPN._spn_answer_layer_impl net self vars question_state
                      context_states (Model.answer_partition self) 1 rnd in
          Ok (fst r))
       /\ forall answer_partition beam_size (f : SPN.frame),
           SPN.spn_scoring net self vars question_state context_states
             answer_partition beam_size rnd = Ok f ->
           SPN.expand_batch Z (SPN.beam_search_decoder f)
             (Model.correct_start_pointer self) = Ok (SPN.start_pointer f))
      /\ (SPN._eval vars = true ->
          SPN._spn_answer_layer net self vars question_state context_states rnd
          = (let* (start_scores, end_scores, starts, ends, _) :=
               SPN._spn_answer_layer_impl net self vars question_state context_states
                 (TF.range (length question_state)) (TF.wrap32 configured) rnd in
             let* start_scores := TF.gather start_scores (Model.answer_partition self) in
             let* end_scores := TF.gather end_scores (Model.answer_partition self) in
             let* starts := TF.gather starts (Model.answer_partition self) in
             let* ends := TF.gather ends (Model.answer_partition self) in
             Ok (start_scores, end_scores, starts, ends))
          /\ forall (f : SPN.frame),
              SPN.spn_scoring net self vars question_state context_states
                (TF.range (length question_state)) (TF.wrap32 configured) rnd = Ok f ->
              SPN.start_pointer f = SPN.predicted_start_pointer f).
Proof.
  cbv zeta.
  destruct (run_calls_spec calls SPN.initial_variables 1 eq_refl) as [Hmode Hbeam].
  simpl in Hmode.
  assert (Heff : SPN.effective_beam_size (SPN.run_calls SPN.initial_variables calls)
                 = (if SPN.mode_after false calls
                    then TF.wrap32 (SPN.beam_size_after 1 calls) else 1)).
  { unfold SPN.effective_beam_size. by rewrite Hmode, Hbeam. }
  split; [exact Hmode|]. split; [exact Heff|]. split.
  - intros Heval Hrange. rewrite Heff, Heval. by apply wrap32_small.
  - intros S decoder net self question_state context_states rnd. split.
    + intros Htrain. split.
      * unfold SPN._spn_answer_layer, SPN.effective_beam_size,
          SPN.effective_answer_partition, SPN.expand_if_eval.
        rewrite Htrain.
        destruct (SPN._spn_answer_layer_impl _ _ _ _ _ _ _ _) as [[[[[ss es] s] e] top]|err];
          reflexivity.
      * intros answer_partition beam_size f Hf.
        apply spn_scoring_inv in Hf. cbv zeta in Hf.
        destruct Hf as (? & ? & ? & ? & _ & _ & _ & _ & _ & _ & Hstart & _).
        by rewrite Htrain in Hstart.
    + intros Heval. split.
      * unfold SPN._spn_answer_layer, SPN.effective_beam_size,
          SPN.effective_answer_partition, SPN.expand_if_eval.
        rewrite Heval, Hbeam. reflexivity.
      * intros f Hf. apply spn_scoring_inv in Hf. cbv zeta in Hf.
        destruct Hf as (? & ? & ? & ? & _ & _ & _ & _ & _ & _ & Hstart & _).
        by rewrite Heval in Hstart.
Qed.

(** After [set_beam_size(5)], [set_eval], [set_train] the decoder works
    with beam size 1 and scores the ends from the fed gold starts
    [[2; 0]], not from its own prediction [[1]]; after [set_eval],
    [set_beam_size(5)] it works with beam size 5, and after
    [set_beam_size(2 ^ 31)] with what the [int32] variable holds of it. *)
Lemma spn_beam_size_by_mode_witness :
  (SPN.run_calls SPN.initial_variables [SPN.SetBeamSize 5; SPN.SetEval; SPN.SetTrain]
   = Scenario.train_mode
   /\ SPN.effective_beam_size Scenario.train_mode = 1
   /\ exists f : SPN.frame,
       SPN.spn_scoring Scenario.net Scenario.self Scenario.train_mode
         Scenario.question_state Scenario.context_states [0; 0] 1 Scenario.rnd = Ok f
       /\ SPN.predicted_start_pointer f = [1]
       /\ SPN.expand_batch Z (SPN.beam_search_decoder f) [2; 0]
          = Ok (SPN.start_pointer f))
  /\ (SPN._eval (SPN.run_calls SPN.initial_variables [SPN.SetEval; SPN.SetBeamSize 5])
      = true
      /\ SPN.effective_beam_size
           (SPN.run_calls SPN.initial_variables [SPN.SetEval; SPN.SetBeamSize 5]) = 5)
  /\ SPN.effective_beam_size
       (SPN.run_calls SPN.initial_variables [SPN.SetEval; SPN.SetBeamSize (2 ^ 31)])
     = - 2 ^ 31.
Proof.
  split_and!.
  - reflexivity.
  - exact (proj1 (proj2 (spn_beam_size_by_mode
                           [SPN.SetBeamSize 5; SPN.SetEval; SPN.SetTrain]))).
  - destruct (spn_beam_size_by_mode [SPN.SetBeamSize 5; SPN.SetEval; SPN.SetTrain])
      as (_ & _ & _ & Hlayer).
    assert (Hf : exists f : SPN.frame,
               SPN.spn_scoring Scenario.net Scenario.self Scenario.train_mode
                 Scenario.question_state Scenario.context_states [0; 0] 1 Scenario.rnd
               = Ok f) by (eexists; vm_compute; reflexivity).
    destruct Hf as [f Hf]. exists f. split; [exact Hf|].
    destruct (Hlayer _ Scenario.greedy_decoder Scenario.net Scenario.self
                Scenario.question_state Scenario.context_states Scenario.rnd)
      as [Htrain _].
    destruct (Htrain eq_refl) as [_ Hforced].
    split; [|exact (Hforced _ _ _ Hf)].
    vm_compute in Hf. by injection Hf as <-.
  - exact (proj1 (spn_beam_size_by_mode [SPN.SetEval; SPN.SetBeamSize 5])).
  - destruct (spn_beam_size_by_mode [SPN.SetEval; SPN.SetBeamSize 5])
      as (_ & _ & H & _).
    apply H; [reflexivity|simpl; lia].
  - exact (proj1 (proj2 (spn_beam_size_by_mode [SPN.SetEval; SPN.SetBeamSize (2 ^ 31)]))).
Defined.

(** ** The sequential pointer decoder: the masked end scores *)


Lemma mask_for_lengths_lookup value lengths max_length mask_right (i : nat) len :
  lengths !! i = Some len ->
  Tfutil.mask_for_lengths value lengths max_length mask_right !! i
  = Some (Tfutil.mask_row value max_length mask_right len).
Proof.
  intros H. unfold Tfutil.mask_for_lengths.
  change (map ?f ?l) with (f <$> l). by rewrite list_lookup_fmap, H.
Qed.

Lemma mask_row_lookup value max_length mask_right len (k : nat) :
  (k < max_length)%nat ->
  Tfutil.mask_row value max_length mask_right len !! k
  = Some (if mask_right
          then (if len <=? Z.of_nat k then value else 0%Q)
          else (if Z.of_nat k <? len then value else 0%Q)).
Proof.
  intros Hk. unfold Tfutil.mask_row.
  change (map ?f ?l) with (f <$> l).
  rewrite list_lookup_fmap, lookup_seq_lt by done. reflexivity.
Qed.

Lemma length_mask_row value max_length mask_right len :
  length (Tfutil.mask_row value max_length mask_right len) = max_length.
Proof. unfold Tfutil.mask_row. by rewrite length_map, length_seq. Qed.





(** ** The sequential pointer decoder: the null word *)





(** ** Determinism of a forward pass *)

Lemma Qfloor_one_plus (u : Q) : (0 <= u)%Q -> (u < 1)%Q -> Qfloor (1 + u) = 1.
Proof.
  intros H0 H1.
  pose proof (Qfloor_le (1 + u)) as Hle.
  pose proof (Qlt_floor (1 + u)) as Hlt.
  assert (Hlo : (inject_Z 1 < inject_Z (Qfloor (1 + u) + 1))%Q).
  { eapply Qle_lt_trans; [|exact Hlt]. change (inject_Z 1) with 1%Q. lra. }
  assert (Hhi : (inject_Z (Qfloor (1 + u)) < inject_Z 2)%Q).
  { eapply Qle_lt_trans; [exact Hle|]. change (inject_Z 2) with 2%Q. lra. }
  rewrite <- Zlt_Qlt in Hlo, Hhi. lia.
Qed.

(** With [keep_prob = 1] no entry is dropped and none is rescaled. *)
Lemma dropout1_one (x u : Q) : (0 <= u)%Q -> (u < 1)%Q -> TF.dropout1 1 x u = x.
Proof.
  intros H0 H1. unfold TF.dropout1. rewrite Qfloor_one_plus by done.
  destruct x as [n d]. unfold Qdiv, Qmult, Qinv, inject_Z. simpl.
  by rewrite !Z.mul_1_r, !Pos.mul_1_r.
Qed.

Lemma imap_id_ext {A} (g : nat -> A -> A) (l : list A) :
  (forall i x, g i x = x) -> imap g l = l.
Proof.
  intros Hg. apply list_eq. intros i. rewrite list_lookup_imap.
  destruct (l !! i); simpl; [by rewrite Hg|done].
Qed.

Lemma dropout_one (x : list TF.matrix) (rnd : TF.noise) :
  (forall b t h, (0 <= rnd b t h)%Q /\ (rnd b t h < 1)%Q) ->
  TF.dropout x 1 rnd = x.
Proof.
  intros Hrnd. unfold TF.dropout.
  apply imap_id_ext. intros b states.
  apply imap_id_ext. intros t v.
  apply imap_id_ext. intros h e.
  destruct (Hrnd b t h). by apply dropout1_one.
Qed.

(** C8.  With the weights (the external networks), the mode and the beam
    size fixed and [keep_prob = 1], the results of a forward pass do not
    depend on the samples the dropout draws: two runs on one batch return
    the same start scores, end scores and pointers, for the dynamic and
    for the sequential decoder.  The arg-max every pointer comes from
    takes the first of the largest entries of its row. *)
Theorem forward_pass_deterministic {S : Type} {decoder : SPN.BeamSearchDecoder S}
        (net : Model.externals) (self : Model.tensors) (vars : SPN.variables)
        (question_state : TF.matrix) (context_states : list TF.matrix)
        (rnd1 rnd2 : TF.noise) :
  Model.keep_prob self = 1%Q ->
  (forall b t h, (0 <= rnd1 b t h)%Q /\ (rnd1 b t h < 1)%Q) ->
  (forall b t h, (0 <= rnd2 b t h)%Q /\ (rnd2 b t h < 1)%Q) ->
  DPN._dpn_answer_layer net self question_state context_states rnd1
  = DPN._dpn_answer_layer net self question_state context_states rnd2
  /\ SPN._spn_answer_layer net self vars question_state context_states rnd1
     = SPN._spn_answer_layer net self vars question_state context_states rnd2
  /\ forall row z,
      TF.arg_max_row row = Ok z -> Z.of_nat (length row) < 2 ^ 63 ->
      exists (r : nat) v,
        z = Z.of_nat r /\ row !! r = Some v
        /\ (forall j x, row !! j = Some x -> (x <= v)%Q)
        /\ (forall j x, (j < r)%nat -> row !! j = Some x -> (x < v)%Q).
Proof.
  intros Hkeep H1 H2. split_and!.
  - unfold DPN._dpn_answer_layer, DPN.dpn_iterate.
    by rewrite Hkeep, !dropout_one.
  - unfold SPN._spn_answer_layer, SPN._spn_answer_layer_impl, SPN.spn_scoring.
    by rewrite Hkeep, !dropout_one.
  - intros row z Hz Hlen. by apply arg_max_row_spec.
Qed.

Lemma forward_pass_deterministic_witness :
  let rnd1 : TF.noise := fun _ _ _ => (1 # 2)%Q in
  let rnd2 : TF.noise := fun b t h => if Nat.even (b + t + h) then 0%Q else (3 # 4)%Q in
  DPN._dpn_answer_layer Scenario.net Scenario.self Scenario.question_state
    Scenario.context_states rnd1
  = DPN._dpn_answer_layer Scenario.net Scenario.self Scenario.question_state
      Scenario.context_states rnd2
  /\ SPN._spn_answer_layer Scenario.net Scenario.self Scenario.eval_mode
       Scenario.question_state Scenario.context_states rnd1
     = SPN._spn_answer_layer Scenario.net Scenario.self Scenario.eval_mode
         Scenario.question_state Scenario.context_states rnd2.
Proof.
  intros rnd1 rnd2.
  destruct (forward_pass_deterministic (decoder := Scenario.greedy_decoder)
              Scenario.net Scenario.self Scenario.eval_mode
              Scenario.question_state Scenario.context_states rnd1 rnd2)
    as (Hd & Hs & _).
  - reflexivity.
  - intros b t h. unfold rnd1. split; [discriminate|reflexivity].
  - intros b t h. unfold rnd2.
    destruct (Nat.even (b + t + h)); (split; [discriminate|reflexivity]).
  - split; [exact Hd|exact Hs].
Defined.

(** ** Construction: the layer type *)

Section InitFacts.

Import Build.

Context {T : Type}.
Variable ExtractionQAModel_init : QAPointerModel T -> G unit.

Lemma init_before_pointer_layer (self : QAPointerModel T) (g g1 : graph) :
  ExtractionQAModel_init self g = (Ok tt, g1) ->
  _init T ExtractionQAModel_init self g
  = gbind
      (if py_eq_str (_answer_layer_type T self) "dpn"
       then _dpn_answer_layer (cell_constructor T self)
       else if py_eq_str (_answer_layer_type T self) "spn" then _spn_answer_layer
       else graise (ValueError "Unknown answer layer type: %s"
                               (_answer_layer_type T self)))
      (fun _ => gret tt)
      (g1 ++ pre_pointer_nodes (cell_constructor T self)).
Proof.
  intros Hbase. unfold _init, gbind at 1. rewrite Hbase.
  unfold pre_pointer_nodes, _preprocessing_layer, append_null_word, _match_layer,
    emit, gbind. cbn -[app variable_nodes attention_nodes].
  rewrite <- !app_assoc. reflexivity.
Qed.

End InitFacts.

Lemma cell_constructor_cases {T : Type} (self : Build.QAPointerModel T) :
  Build.cell_constructor T self = "GRUBlockCell"%string
  \/ Build.cell_constructor T self = "BasicRNNCell"%string
  \/ Build.cell_constructor T self = "LSTMBlockCell"%string.
Proof.
  unfold Build.cell_constructor.
  destruct (py_eq_str _ "GRU"); [by left|].
  destruct (py_eq_str _ "RNN"); [right; by left|right; by right].
Qed.

(** C5 (as amended).  For every [answer_layer_type] other than ["dpn"] and
    ["spn"], [_init] fails with the [ValueError] that names the type.  The
    error is raised where the pointer layer is chosen: the nodes of the
    variables, of the preprocessing layers, of the null-word augmentation
    and of the matching layer are in the graph by then, and no node of an
    answer layer is. *)
Theorem init_unknown_layer_type {T : Type}
        (ExtractionQAModel_init : Build.QAPointerModel T -> Build.G unit)
        (self : Build.QAPointerModel T) (g g1 : Build.graph) :
  Build.valid_layer_type (Build._answer_layer_type T self) = false ->
  ExtractionQAModel_init self g = (Ok tt, g1) ->
  let added := Build.pre_pointer_nodes (Build.cell_constructor T self) in
  Build._init T ExtractionQAModel_init self g
  = (Raise (ValueError "Unknown answer layer type: %s" (Build._answer_layer_type T self)),
     g1 ++ added)
  /\ In "is_eval"%string added
  /\ In "dot_co_attention"%string added
  /\ ~ In "start/highway_maxout_network"%string added
  /\ ~ In "end/highway_maxout_network"%string added.
Proof.
  intros Htype Hbase. cbv zeta.
  unfold Build.valid_layer_type in Htype. apply orb_false_iff in Htype as [Hdpn Hspn].
  split.
  - rewrite (init_before_pointer_layer _ _ _ _ Hbase), Hdpn, Hspn. reflexivity.
  - destruct (cell_constructor_cases self) as [-> | [-> | ->]];
      (split_and!;
       [ vm_compute; tauto
       | vm_compute; tauto
       | vm_compute; intros H; repeat destruct H as [H|H]; try discriminate; done
       | vm_compute; intros H; repeat destruct H as [H|H]; try discriminate; done ]).
Qed.

(** The claim of C5 as stated fails: with a base class that adds nothing
    and an empty graph, the error for the layer type ["foo"] leaves the
    nodes of the variables and of the layers before the pointer layer in
    the graph, 42 of them in this model. *)
Lemma init_unknown_layer_type_builds_graph :
  let self : Build.QAPointerModel unit :=
    {| Build.size := PyInt 8; Build.transfer_model := Some tt; Build.keep_prob := 1%Q;
       Build.name := PyStr "QAPointerModel"; Build._composition := PyStr "GRU";
       Build._device0 := "/cpu:0"; Build._device1 := "/cpu:0"; Build._device2 := "/cpu:0";
       Build._depends_on := []; Build._transfer_layer_size := PyInt 8;
       Build._answer_layer_depth := PyInt 1; Build._answer_layer_poolsize := PyInt 8;
       Build._answer_layer_type := PyStr "foo" |} in
  exists nodes,
    Build._init unit (fun _ => Build.gret tt) self []
    = (Raise (ValueError "Unknown answer layer type: %s" (PyStr "foo")), nodes)
    /\ length nodes = 42%nat
    /\ nodes !! 0%nat = Some "is_eval"%string.
Proof.
  cbv zeta. eexists. split; [vm_compute; reflexivity|]. split; reflexivity.
Qed.

Lemma init_unknown_layer_type_witness :
  let self : Build.QAPointerModel unit :=
    {| Build.size := PyInt 8; Build.transfer_model := Some tt; Build.keep_prob := 1%Q;
       Build.name := PyStr "QAPointerModel"; Build._composition := PyStr "GRU";
       Build._device0 := "/cpu:0"; Build._device1 := "/cpu:0"; Build._device2 := "/cpu:0";
       Build._depends_on := []; Build._transfer_layer_size := PyInt 8;
       Build._answer_layer_depth := PyInt 1; Build._answer_layer_poolsize := PyInt 8;
       Build._answer_layer_type := PyStr "foo" |} in
  Build.valid_layer_type (PyStr "foo") = false
  /\ Build._init unit (fun _ => Build.emit ["placeholders"%string]) self []
     = (Raise (ValueError "Unknown answer layer type: %s" (PyStr "foo")),
        ["placeholders"%string] ++ Build.pre_pointer_nodes "GRUBlockCell").
Proof.
  intros self. split; [reflexivity|].
  apply (init_unknown_layer_type (fun _ => Build.emit ["placeholders"%string]) self []
           ["placeholders"%string] eq_refl eq_refl).
Defined.

(** ** Construction: the configuration dictionary *)

Section ConfigFacts.

Import Build.

Context {T : Type}.
Variable ExtractionQAModel_init : QAPointerModel T -> G unit.
Variable super_get_config : QAPointerModel T -> gmap string pyval.
Variable model_from_config : pyval -> option (list string) -> G (option T).

Lemma setdefault_lookup (key k : string) (value : pyval) (config : gmap string pyval) :
  setdefault key value config !! k
  = if decide (key = k) then Some (default value (config !! key)) else config !! k.
Proof.
  unfold setdefault. destruct (config !! key) as [v|] eqn:E.
  - case_decide; [by subst; rewrite E|done].
  - rewrite lookup_insert. by case_decide.
Qed.

Lemma with_defaults_lookup (k : string) (config : gmap string pyval) :
  with_defaults config !! k
  = if decide (k = "answer_layer_type"%string)
    then Some (default (PyStr "dpn") (config !! "answer_layer_type"%string))
    else if decide (k = "answer_layer_poolsize"%string)
    then Some (default (PyInt 8) (config !! "answer_layer_poolsize"%string))
    else if decide (k = "answer_layer_depth"%string)
    then Some (default (PyInt 1) (config !! "answer_layer_depth"%string))
    else config !! k.
Proof.
  unfold with_defaults. rewrite !setdefault_lookup.
  repeat case_decide; subst; try done.
Qed.








End ConfigFacts.

Lemma get_config_lookup {T : Type}
      (super_get_config : Build.QAPointerModel T -> gmap string pyval)
      (self : Build.QAPointerModel T) (k : string) :
  Build.get_config T super_get_config self !! k
  = if decide (k = "answer_layer_type"%string) then Some (Build._answer_layer_type T self)
    else if decide (k = "answer_layer_poolsize"%string)
    then Some (Build._answer_layer_poolsize T self)
    else if decide (k = "answer_layer_depth"%string)
    then Some (Build._answer_layer_depth T self)
    else if decide (k = "composition"%string) then Some (Build._composition T self)
    else if decide (k = "type"%string) then Some (PyStr "pointer")
    else super_get_config self !! k.
Proof.
  unfold Build.get_config. rewrite !lookup_insert.
  repeat case_decide; subst; done.
Qed.



(** ** Construction: what a built model tells about its arguments *)

Section CreateFacts.

Import Build.

Context {T : Type}.
Variable ExtractionQAModel_init : QAPointerModel T -> G unit.
Variable super_get_config : QAPointerModel T -> gmap string pyval.
Variable model_from_config : pyval -> option (list string) -> G (option T).

Lemma init_Ok_inv (self : QAPointerModel T) (g g' : graph) :
  _init T ExtractionQAModel_init self g = (Ok tt, g') ->
  valid_layer_type (_answer_layer_type T self) = true
  /\ exists g1, ExtractionQAModel_init self g = (Ok tt, g1).
Proof.
  destruct (ExtractionQAModel_init self g) as [[[]|e] g1] eqn:Ebase.
  - rewrite (init_before_pointer_layer _ _ _ _ Ebase).
    unfold valid_layer_type, gbind.
    destruct (py_eq_str _ "dpn"); [eauto|].
    destruct (py_eq_str _ "spn"); [eauto|]. discriminate.
  - unfold _init, gbind at 1. rewrite Ebase. discriminate.
Qed.

Lemma device_Ok_inv (devices : option (list string)) (i : nat) (d : string) :
  device devices i = Ok d ->
  match devices with
  | None => d = "/cpu:0"%string
  | Some ds => ds !! (i `mod` length ds)%nat = Some d
  end.
Proof.
  unfold device. destruct devices as [ds|]; [|by intros [= <-]].
  destruct (ds !! _); [by intros [= <-]|discriminate].
Qed.

Lemma __init___inv (size : pyval) (tm : option T) (name composition : pyval)
      (keep_prob : Q) (devices : option (list string))
      (depth poolsize type : pyval) (g g' : graph) (m : QAPointerModel T) :
  __init__ T ExtractionQAModel_init size tm name composition keep_prob devices
    depth poolsize type g = (Ok m, g') ->
  exists d0 d1 d2,
    device devices 0 = Ok d0 /\ device devices 1 = Ok d1 /\ device devices 2 = Ok d2
    /\ m = {| Build.size := size; transfer_model := tm; Build.keep_prob := keep_prob;
              name := name; _composition := composition;
              _device0 := d0; _device1 := d1; _device2 := d2;
              _depends_on := []; _transfer_layer_size := size;
              _answer_layer_depth := depth; _answer_layer_poolsize := poolsize;
              _answer_layer_type := type |}
    /\ _init T ExtractionQAModel_init m g = (Ok tt, g').
Proof.
  unfold __init__, gbind, glift.
  destruct (device devices 0) as [d0|]; [|discriminate].
  destruct (device devices 1) as [d1|]; [|discriminate].
  destruct (device devices 2) as [d2|]; [|discriminate].
  match goal with |- context [_init T _ ?m g] =>
    destruct (_init T ExtractionQAModel_init m g) as [[[]|e] g1] eqn:Einit end;
    [|discriminate].
  unfold gret. intros [= <- <-]. exists d0, d1, d2. done.
Qed.

Lemma create_from_config_inv (config : gmap string pyval)
      (devices : option (list string)) (dropout : Q) (g g' : graph)
      (m : QAPointerModel T) :
  create_from_config T ExtractionQAModel_init model_from_config config devices dropout g
  = (Ok m, g') ->
  exists tm_config size name composition tm g1,
    config !! "transfer_model"%string = Some tm_config
    /\ config !! "size"%string = Some size
    /\ config !! "name"%string = Some name
    /\ config !! "composition"%string = Some composition
    /\ __init__ T ExtractionQAModel_init size tm name composition (1 - dropout)%Q devices
         (default (PyInt 1) (config !! "answer_layer_depth"%string))
         (default (PyInt 8) (config !! "answer_layer_poolsize"%string))
         (default (PyStr "dpn") (config !! "answer_layer_type"%string)) g1
       = (Ok m, g').
Proof.
  unfold create_from_config, gbind, glift, getitem.
  rewrite !with_defaults_lookup. simpl.
  destruct (config !! "transfer_model"%string) as [tm_config|]; [|discriminate].
  destruct (model_from_config tm_config devices g) as [[tm|e] g1]; [|discriminate].
  destruct tm as [tm|].
  - unfold gret at 1.
    destruct (config !! "size"%string) as [size|]; [|discriminate].
    destruct (config !! "name"%string) as [name|]; [|discriminate].
    destruct (config !! "composition"%string) as [composition|]; [|discriminate].
    intros H. by exists tm_config, size, name, composition, (Some tm), g1.
  - destruct (model_from_config tm_config devices g1) as [[tm|e] g2]; [|discriminate].
    destruct (config !! "size"%string) as [size|]; [|discriminate].
    destruct (config !! "name"%string) as [name|]; [|discriminate].
    destruct (config !! "composition"%string) as [composition|]; [|discriminate].
    intros H. by exists tm_config, size, name, composition, tm, g2.
Qed.

End CreateFacts.

(** [create_from_config] builds a model only from a dictionary that has
    the keys ["transfer_model"], ["size"], ["name"] and ["composition"]
    (the last has no default here, though [__init__] has one), with a
    device list that is not empty and a layer type, given or defaulted,
    that is ["dpn"] or ["spn"]. *)
Theorem create_from_config_requires {T : Type}
        (ExtractionQAModel_init : Build.QAPointerModel T -> Build.G unit)
        (model_from_config : pyval -> option (list string) -> Build.G (option T))
        (config : gmap string pyval) (devices : option (list string)) (dropout : Q)
        (g g' : Build.graph) (m : Build.QAPointerModel T) :
  Build.create_from_config T ExtractionQAModel_init model_from_config
    config devices dropout g = (Ok m, g') ->
  is_Some (config !! "transfer_model"%string)
  /\ is_Some (config !! "size"%string)
  /\ is_Some (config !! "name"%string)
  /\ is_Some (config !! "composition"%string)
  /\ devices <> Some []
  /\ Build.valid_layer_type
       (default (PyStr "dpn") (config !! "answer_layer_type"%string)) = true.
Proof.
  intros H. apply create_from_config_inv in H
    as (tm_config & size & name & composition & tm & g1 & -> & -> & -> & -> & H).
  apply __init___inv in H as (d0 & d1 & d2 & Hd0 & _ & _ & -> & H).
  apply init_Ok_inv in H as [Hvalid _]. simpl in Hvalid.
  split_and!; eauto. intros ->. discriminate.
Qed.

Lemma create_from_config_requires_witness :
  let base_init : Build.QAPointerModel unit -> Build.G unit :=
    fun _ => Build.emit ["placeholders"%string] in
  let load : pyval -> option (list string) -> Build.G (option unit) :=
    fun _ _ => Build.gret (Some tt) in
  let config : gmap string pyval :=
    <["size"%string := PyInt 8]>
      (<["name"%string := PyStr "QAPointerModel"]>
         (<["transfer_model"%string := PyDict []]>
            (<["composition"%string := PyStr "GRU"]> ∅))) in
  exists m g',
    Build.create_from_config unit base_init load config (Some ["/gpu:0"%string]) 0%Q []
    = (Ok m, g')
    /\ is_Some (config !! "composition"%string).
Proof.
  intros base_init load config.
  assert (H : exists m g',
             Build.create_from_config unit base_init load config
               (Some ["/gpu:0"%string]) 0%Q [] = (Ok m, g'))
    by (do 2 eexists; vm_compute; reflexivity).
  destruct H as (m & g' & H). exists m, g'. split; [exact H|].
  apply (create_from_config_requires _ _ _ _ _ _ _ _ H).
Defined.

(** A dictionary without ["transfer_model"] is refused with [KeyError]
    before the graph is touched; one without ["composition"] is refused
    with [KeyError] once the transfer model has been built, and no node of
    the pointer model is added. *)
Theorem create_from_config_missing_key {T : Type}
        (ExtractionQAModel_init : Build.QAPointerModel T -> Build.G unit)
        (model_from_config : pyval -> option (list string) -> Build.G (option T))
        (config : gmap string pyval) (devices : option (list string)) (dropout : Q)
        (g : Build.graph) :
  (config !! "transfer_model"%string = None ->
   Build.create_from_config T ExtractionQAModel_init model_from_config
     config devices dropout g = (Raise (KeyError "transfer_model"), g))
  /\ (forall tm_config tm g1 size name,
         config !! "transfer_model"%string = Some tm_config ->
         model_from_config tm_config devices g = (Ok (Some tm), g1) ->
         config !! "size"%string = Some size ->
         config !! "name"%string = Some name ->
         config !! "composition"%string = None ->
         Build.create_from_config T ExtractionQAModel_init model_from_config
           config devices dropout g = (Raise (KeyError "composition"), g1)).
Proof.
  split.
  - intros Htm. unfold Build.create_from_config, Build.gbind, Build.glift, Build.getitem.
    rewrite !with_defaults_lookup. simpl. by rewrite Htm.
  - intros tm_config tm g1 size name Htm Hload Hsize Hname Hcomp.
    unfold Build.create_from_config, Build.gbind, Build.glift, Build.getitem.
    rewrite !with_defaults_lookup. simpl.
    rewrite Htm, Hload. unfold Build.gret at 1. by rewrite Hsize, Hname, Hcomp.
Qed.

Lemma create_from_config_missing_key_witness :
  let base_init : Build.QAPointerModel unit -> Build.G unit :=
    fun _ => Build.emit ["placeholders"%string] in
  let load : pyval -> option (list string) -> Build.G (option unit) :=
    fun _ _ => Build.gbind (Build.emit ["transfer_model"%string])
                 (fun _ => Build.gret (Some tt)) in
  let config : gmap string pyval :=
    <["size"%string := PyInt 8]>
      (<["name"%string := PyStr "QAPointerModel"]>
         (<["transfer_model"%string := PyDict []]> ∅)) in
  Build.create_from_config unit base_init load (∅ : gmap string pyval) None 0%Q []
  = (Raise (KeyError "transfer_model"), [])
  /\ Build.create_from_config unit base_init load config None 0%Q []
     = (Raise (KeyError "composition"), ["transfer_model"%string]).
Proof.
  intros base_init load config. split.
  - apply (create_from_config_missing_key base_init load ∅ None 0%Q []). reflexivity.
  - apply (proj2 (create_from_config_missing_key base_init load config None 0%Q [])
             (PyDict []) tt ["transfer_model"%string] (PyInt 8) (PyStr "QAPointerModel"));
      reflexivity.
Defined.

(** With an empty device list [create_from_config] fails with
    [IndexError], at [devices[0]] in [__init__]: the transfer model has
    been built by then, and no node of the pointer model is added. *)
Theorem create_from_config_empty_devices {T : Type}
        (ExtractionQAModel_init : Build.QAPointerModel T -> Build.G unit)
        (model_from_config : pyval -> option (list string) -> Build.G (option T))
        (config : gmap string pyval) (dropout : Q) (g g1 : Build.graph)
        (tm_config size name composition : pyval) (tm : T) :
  config !! "transfer_model"%string = Some tm_config ->
  model_from_config tm_config (Some []) g = (Ok (Some tm), g1) ->
  config !! "size"%string = Some size ->
  config !! "name"%string = Some name ->
  config !! "composition"%string = Some composition ->
  Build.create_from_config T ExtractionQAModel_init model_from_config
    config (Some []) dropout g = (Raise IndexError, g1).
Proof.
  intros Htm Hload Hsize Hname Hcomp.
  unfold Build.create_from_config, Build.gbind, Build.glift, Build.getitem.
  rewrite !with_defaults_lookup. simpl.
  rewrite Htm, Hload. unfold Build.gret at 1. by rewrite Hsize, Hname, Hcomp.
Qed.

Lemma create_from_config_empty_devices_witness :
  let base_init : Build.QAPointerModel unit -> Build.G unit :=
    fun _ => Build.emit ["placeholders"%string] in
  let load : pyval -> option (list string) -> Build.G (option unit) :=
    fun _ _ => Build.gbind (Build.emit ["transfer_model"%string])
                 (fun _ => Build.gret (Some tt)) in
  let config : gmap string pyval :=
    <["size"%string := PyInt 8]>
      (<["name"%string := PyStr "QAPointerModel"]>
         (<["transfer_model"%string := PyDict []]>
            (<["composition"%string := PyStr "GRU"]> ∅))) in
  Build.create_from_config unit base_init load config (Some []) 0%Q []
  = (Raise IndexError, ["transfer_model"%string]).
Proof.
  intros base_init load config.
  apply (create_from_config_empty_devices base_init load config 0%Q []
           ["transfer_model"%string] (PyDict []) (PyInt 8) (PyStr "QAPointerModel")
           (PyStr "GRU") tt); reflexivity.
Defined.

(** The dictionary of a model that [create_from_config] has built from
    [config]: [get_config] gives ["type"] as ["pointer"], whatever
    [config] held there, and ["composition"] and the three answer-layer
    keys as in [config] with its defaults filled in.  The model keeps
    [1 - dropout] as its [keep_prob]. *)
Theorem get_config_of_created {T : Type}
        (ExtractionQAModel_init : Build.QAPointerModel T -> Build.G unit)
        (super_get_config : Build.QAPointerModel T -> gmap string pyval)
        (model_from_config : pyval -> option (list string) -> Build.G (option T))
        (config : gmap string pyval) (devices : option (list string)) (dropout : Q)
        (g g' : Build.graph) (m : Build.QAPointerModel T) :
  Build.create_from_config T ExtractionQAModel_init model_from_config
    config devices dropout g = (Ok m, g') ->
  Build.get_config T super_get_config m !! "type"%string = Some (PyStr "pointer")
  /\ (forall key,
         In key ["composition"; "answer_layer_depth"; "answer_layer_poolsize";
                 "answer_layer_type"]%string ->
         Build.get_config T super_get_config m !! key = Build.with_defaults config !! key)
  /\ Build.keep_prob T m = (1 - dropout)%Q.
Proof.
  intros H. apply create_from_config_inv in H
    as (tm_config & size & name & composition & tm & g1 & _ & _ & _ & Hcomp & H).
  apply __init___inv in H as (d0 & d1 & d2 & _ & _ & _ & -> & _).
  split; [by rewrite get_config_lookup|]. split; [|reflexivity].
  intros key Hkey. rewrite get_config_lookup, with_defaults_lookup. simpl.
  destruct Hkey as [<-|[<-|[<-|[<-|[]]]]]; simpl; by rewrite ?Hcomp.
Qed.

Lemma get_config_of_created_witness :
  let base_init : Build.QAPointerModel unit -> Build.G unit :=
    fun _ => Build.emit ["placeholders"%string] in
  let base_config : Build.QAPointerModel unit -> gmap string pyval :=
    fun m => <["size"%string := Build.size unit m]> (∅ : gmap string pyval) in
  let load : pyval -> option (list string) -> Build.G (option unit) :=
    fun _ _ => Build.gret (Some tt) in
  let config : gmap string pyval :=
    <["size"%string := PyInt 8]>
      (<["name"%string := PyStr "QAPointerModel"]>
         (<["transfer_model"%string := PyDict []]>
            (<["type"%string := PyStr "other"]>
               (<["composition"%string := PyStr "GRU"]> ∅)))) in
  exists m g',
    Build.create_from_config unit base_init load config None (1 # 5)%Q [] = (Ok m, g')
    /\ Build.get_config unit base_config m !! "type"%string = Some (PyStr "pointer")
    /\ Build.get_config unit base_config m !! "answer_layer_poolsize"%string
       = Some (PyInt 8)
    /\ Build.keep_prob unit m = (1 - (1 # 5))%Q.
Proof.
  intros base_init base_config load config.
  assert (H : exists m g',
             Build.create_from_config unit base_init load config None (1 # 5)%Q []
             = (Ok m, g'))
    by (do 2 eexists; vm_compute; reflexivity).
  destruct H as (m & g' & H). exists m, g'. split; [exact H|].
  destruct (get_config_of_created base_init base_config load _ _ _ _ _ _ H)
    as (Htype & Hkeys & Hkeep).
  split; [exact Htype|]. split; [|exact Hkeep].
  rewrite Hkeys; [reflexivity|]. simpl. tauto.
Defined.

(** The three devices of a model built on a device list are
    [devices[0]], [devices[1 % len(devices)]] and
    [devices[2 % len(devices)]]: a list of one device gives all three
    layers that device, a list of two puts the pointer layer on the first
    again. *)
Theorem init_devices_wrap_around {T : Type}
        (ExtractionQAModel_init : Build.QAPointerModel T -> Build.G unit)
        (size : pyval) (tm : option T) (name composition : pyval) (keep_prob : Q)
        (devices : list string) (depth poolsize type : pyval)
        (g g' : Build.graph) (m : Build.QAPointerModel T) :
  Build.__init__ T ExtractionQAModel_init size tm name composition keep_prob
    (Some devices) depth poolsize type g = (Ok m, g') ->
  devices !! 0%nat = Some (Build._device0 T m)
  /\ devices !! (1 `mod` length devices)%nat = Some (Build._device1 T m)
  /\ devices !! (2 `mod` length devices)%nat = Some (Build._device2 T m)
  /\ (length devices = 1%nat ->
      Build._device1 T m = Build._device0 T m /\ Build._device2 T m = Build._device0 T m)
  /\ (length devices = 2%nat -> Build._device2 T m = Build._device0 T m).
Proof.
  intros H. apply __init___inv in H as (d0 & d1 & d2 & H0 & H1 & H2 & -> & _).
  apply device_Ok_inv in H0, H1, H2. simpl.
  assert (Hne : devices <> []) by (intros ->; discriminate).
  rewrite Nat.Div0.mod_0_l in H0.
  split_and!; try done.
  - intros Hlen. rewrite Hlen in H1, H2. simpl in H1, H2. split; congruence.
  - intros Hlen. rewrite Hlen in H2. simpl in H2. congruence.
Qed.

Lemma init_devices_wrap_around_witness :
  let base_init : Build.QAPointerModel unit -> Build.G unit :=
    fun _ => Build.emit ["placeholders"%string] in
  exists m g',
    Build.__init__ unit base_init (PyInt 8) (Some tt) (PyStr "QAPointerModel")
      (PyStr "GRU") 1%Q (Some ["/gpu:0"; "/gpu:1"]%string) (PyInt 1) (PyInt 8)
      (PyStr "spn") [] = (Ok m, g')
    /\ Build._device1 unit m = "/gpu:1"%string
    /\ Build._device2 unit m = Build._device0 unit m.
Proof.
  intros base_init.
  assert (H : exists m g',
             Build.__init__ unit base_init (PyInt 8) (Some tt) (PyStr "QAPointerModel")
               (PyStr "GRU") 1%Q (Some ["/gpu:0"; "/gpu:1"]%string) (PyInt 1) (PyInt 8)
               (PyStr "spn") [] = (Ok m, g'))
    by (do 2 eexists; vm_compute; reflexivity).
  destruct H as (m & g' & H). exists m, g'. split; [exact H|].
  destruct (init_devices_wrap_around _ _ _ _ _ _ _ _ _ _ _ _ _ H)
    as (_ & H1 & _ & _ & H2).
  split; [|by apply H2]. simpl in H1. by injection H1 as <-.
Defined.

(** The defaults are filled in without touching what the dictionary
    holds: every entry of [config] is kept, and filling in a second time
    changes nothing. *)
Theorem with_defaults_keeps_config (config : gmap string pyval) :
  config ⊆ Build.with_defaults config
  /\ Build.with_defaults (Build.with_defaults config) = Build.with_defaults config.
Proof.
  split.
  - apply map_subseteq_spec. intros k v Hk. rewrite with_defaults_lookup.
    repeat case_decide; subst; by rewrite Hk.
  - apply map_eq. intros k. rewrite !with_defaults_lookup.
    repeat case_decide; subst; try done.
Qed.

Lemma py_eq_str_false (v : pyval) (s : string) :
  v <> PyStr s -> py_eq_str v s = false.
Proof.
  intros Hne. destruct v; try reflexivity. simpl.
  destruct (String.eqb_spec s0 s); [|done]. by subst.
Qed.

(** The composition is not checked: for every value other than ["GRU"]
    and ["RNN"] (["LSTM"], a misspelling, another case, a value that is
    no string) the model gets [LSTMBlockCell]s.  With the sequential
    decoder construction succeeds, and every recurrent cell in the graph
    is an [LSTMBlockCell].  With the dynamic decoder it fails with
    [TypeError] at the first call of the controller, which gives the
    cell the question state as its state: the layers before the pointer
    layer and the nodes the decoder makes before its loop are in the
    graph by then. *)
Theorem init_unknown_composition_builds_lstm {T : Type}
        (ExtractionQAModel_init : Build.QAPointerModel T -> Build.G unit)
        (self : Build.QAPointerModel T) (g g1 : Build.graph) :
  Build._composition T self <> PyStr "GRU" ->
  Build._composition T self <> PyStr "RNN" ->
  ExtractionQAModel_init self g = (Ok tt, g1) ->
  Build.cell_constructor T self = "LSTMBlockCell"%string
  /\ (Build._answer_layer_type T self = PyStr "spn" ->
      exists added,
        Build._init T ExtractionQAModel_init self g = (Ok tt, g1 ++ added)
        /\ In "LSTMBlockCell"%string added
        /\ ~ In "GRUBlockCell"%string added
        /\ ~ In "BasicRNNCell"%string added)
  /\ (Build._answer_layer_type T self = PyStr "dpn" ->
      Build._init T ExtractionQAModel_init self g
      = (Raise (TypeError "controller_cell"),
         g1 ++ Build.pre_pointer_nodes "LSTMBlockCell"
            ++ Build.dpn_setup_nodes "LSTMBlockCell")).
Proof.
  intros Hgru Hrnn Hbase.
  assert (Hcell : Build.cell_constructor T self = "LSTMBlockCell"%string).
  { unfold Build.cell_constructor. by rewrite !py_eq_str_false. }
  split; [exact Hcell|].
  rewrite (init_before_pointer_layer _ _ _ _ Hbase), Hcell. split.
  - intros ->. simpl.
    unfold Build._spn_answer_layer, Build.gbind, Build.emit, Build.gret.
    rewrite <- !app_assoc. eexists. split; [reflexivity|].
    split_and!;
      [ apply list_elem_of_In; apply (bool_decide_unpack _); vm_compute; exact I
      | intros H%list_elem_of_In; apply (bool_decide_pack _) in H; vm_compute in H; exact H
      | intros H%list_elem_of_In; apply (bool_decide_pack _) in H; vm_compute in H; exact H ].
  - intros ->. simpl.
    unfold Build._dpn_answer_layer, Build.gbind, Build.emit, Build.graise.
    cbn [Build.takes_tensor_state String.eqb Ascii.eqb Bool.eqb negb].
    by rewrite <- !app_assoc.
Qed.

Lemma init_unknown_composition_builds_lstm_witness :
  let model := fun type : string =>
    {| Build.size := PyInt 8; Build.transfer_model := Some tt; Build.keep_prob := 1%Q;
       Build.name := PyStr "QAPointerModel"; Build._composition := PyStr "gru";
       Build._device0 := "/cpu:0"; Build._device1 := "/cpu:0"; Build._device2 := "/cpu:0";
       Build._depends_on := []; Build._transfer_layer_size := PyInt 8;
       Build._answer_layer_depth := PyInt 1; Build._answer_layer_poolsize := PyInt 8;
       Build._answer_layer_type := PyStr type |} : Build.QAPointerModel unit in
  (exists added,
      Build._init unit (fun _ => Build.emit ["placeholders"%string]) (model "spn") []
      = (Ok tt, ["placeholders"%string] ++ added)
      /\ In "LSTMBlockCell"%string added
      /\ ~ In "GRUBlockCell"%string added)
  /\ Build._init unit (fun _ => Build.emit ["placeholders"%string]) (model "dpn") []
     = (Raise (TypeError "controller_cell"),
        ["placeholders"%string] ++ Build.pre_pointer_nodes "LSTMBlockCell"
           ++ Build.dpn_setup_nodes "LSTMBlockCell").
Proof.
  intros model. split.
  - destruct (init_unknown_composition_builds_lstm
                (fun _ => Build.emit ["placeholders"%string]) (model "spn"%string) []
                ["placeholders"%string])
      as (_ & Hspn & _); try reflexivity; try discriminate.
    destruct (Hspn eq_refl) as (added & Hrun & Hlstm & Hgru & _).
    exists added. done.
  - refine (proj2 (proj2 (init_unknown_composition_builds_lstm
                            (fun _ => Build.emit ["placeholders"%string])
                            (model "dpn"%string) [] ["placeholders"%string]
                            _ _ eq_refl)) eq_refl);
      discriminate.
Defined.

(** ** The dynamic pointer decoder: where the returned pointers come from *)

Section PairFacts.

Import DPN.

Variable net : Model.externals.
Variable self : Model.tensors.
Variable question_state : TF.matrix.
Variable context_states : list TF.matrix.
Variable rnd : TF.noise.

Local Abbreviation B := (Model._batch_size self).
Local Abbreviation iterate :=
  (fun n => dpn_iterate net self n question_state context_states rnd).

(** The current pointers of an example are the two predictions of one
    and the same iteration: of the last one while the example is not
    stable, else of an iteration whose prediction the next one repeated. *)
Lemma dpn_iterate_pair (n : nat) (f : frame) (b : nat) :
  iterate (S n) = Ok f -> (b < B)%nat ->
  exists m f_m s e,
    (m <= n)%nat /\ iterate (S m) = Ok f_m
    /\ next_start f_m !! b = Some s /\ next_end f_m !! b = Some e
    /\ pointer (current_start f) b = Some s
    /\ pointer (current_end f) b = Some e
    /\ ((is_stable f !! b = Some false /\ m = n)
        \/ exists f_next,
            (S m <= n)%nat /\ iterate (S (S m)) = Ok f_next
            /\ next_start f_next !! b = Some s /\ next_end f_next !! b = Some e).
Proof.
  revert f. induction n as [|n IH]; intros f H Hb.
  - pose proof H as Hset. apply dpn_iterate_settled in Hset.
    destruct Hset as (cs & ce & Ecs & Ece & _ & _ & _ & Lns & Lne & _).
    destruct (dpn_iterate_S _ _ _ _ _ _ _ H) as (f0 & offsets & _ & H0 & Hbody).
    apply dpn_body_inv in Hbody as (_ & _ & _ & _ & _ & Hst & Hcs & Hce). simpl in *.
    unfold dpn_iterate in H0. simpl in H0. injection H0 as <-. simpl in Hst.
    destruct (lookup_lt_is_Some_2 (next_start f) b) as [s Hs]; [lia|].
    destruct (lookup_lt_is_Some_2 (next_end f) b) as [e He]; [lia|].
    exists 0%nat, f, s, e. rewrite Hcs, Hce, Hst. simpl.
    split_and!; try done. left. split; [|done].
    by apply lookup_replicate_2.
  - destruct (dpn_iterate_S _ _ _ _ _ _ _ H) as (f0 & offsets & Hlen & H0 & Hbody).
    pose proof (dpn_iterate_settled _ _ _ _ _ _ _ H0) as Hset0.
    rewrite <- Hlen in Hset0, Hb.
    destruct (body_example _ _ _ _ _ _ _ _ _ b Hset0 Hbody Hb)
      as (s0 & c & e & n1 & n2 & Hs0 & Hc & He & Hn1 & Hn2 & Hs' & Hc' & He').
    cbv zeta in Hs', Hc', He'. rewrite Hlen in Hb.
    destruct (IH f0 H0 Hb) as (m & f_m & s & e0 & Hm & Hf_m & Hps & Hpe & Hcs & Hce & Hor).
    rewrite Hc in Hcs. rewrite He in Hce. injection Hcs as <-. injection Hce as <-.
    destruct s0; simpl in Hs', Hc', He'.
    + destruct Hor as [[Hfalse _]|(f_next & Hle & Hnext & Hrs & Hre)]; [congruence|].
      exists m, f_m, c, e. split_and!; try done; try lia.
      right. exists f_next. split_and!; try done; lia.
    + destruct ((n1 =? c) && (n2 =? e)) eqn:Eeq.
      * apply andb_true_iff in Eeq as [E1 E2].
        apply Z.eqb_eq in E1, E2. subst n1 n2.
        destruct Hor as [[_ ->]|(f_next & Hle & Hnext & Hrs & Hre)].
        -- exists n, f_m, c, e. split_and!; try done; try lia.
           right. exists f. split_and!; try done; lia.
        -- exists m, f_m, c, e. split_and!; try done; try lia.
           right. exists f_next. split_and!; try done; lia.
      * exists (S n), f, n1, n2. split_and!; try done; try lia. by left.
Qed.

End PairFacts.

Lemma dpn_answer_layer_pair (net : Model.externals) (self : Model.tensors)
        (question_state : TF.matrix) (context_states : list TF.matrix)
        (rnd : TF.noise) (ss es : list TF.matrix) (sp ep : list Z) (k b : nat) :
  DPN._dpn_answer_layer net self question_state context_states rnd
  = Ok (ss, es, sp, ep) ->
  Model.answer_partition self !! k = Some (Z.of_nat b) ->
  exists n f s e,
    (1 <= n <= 4)%nat
    /\ DPN.dpn_iterate net self n question_state context_states rnd = Ok f
    /\ DPN.next_start f !! b = Some s /\ DPN.next_end f !! b = Some e
    /\ sp !! k = Some s /\ ep !! k = Some e
    /\ (n = 4%nat
        \/ exists f_next,
            DPN.dpn_iterate net self (S n) question_state context_states rnd = Ok f_next
            /\ DPN.next_start f_next !! b = Some s
            /\ DPN.next_end f_next !! b = Some e).
Proof.
  intros Hrun Hk.
  apply dpn_answer_layer_inv in Hrun
    as (f4 & cs & ce & Hf4 & Ecs & Ece & _ & _ & Hsp & Hep).
  destruct (gather_lookup _ _ _ _ _ Hsp Hk) as [Hs Hsome].
  destruct (gather_lookup _ _ _ _ _ Hep Hk) as [He _].
  pose proof (dpn_iterate_settled _ _ _ _ _ _ _ Hf4) as Hset.
  destruct Hset as (cs' & ce' & Ecs' & _ & _ & Lcs & _).
  rewrite Ecs in Ecs'. injection Ecs' as <-.
  assert (Hb : (b < Model._batch_size self)%nat).
  { destruct Hsome as [x Hx]. apply lookup_lt_Some in Hx. lia. }
  destruct (dpn_iterate_pair net self question_state context_states rnd 3 f4 b Hf4 Hb)
    as (m & f_m & s & e & Hm & Hf_m & Hns & Hne & Hps & Hpe & Hor).
  rewrite Ecs in Hps. rewrite Ece in Hpe. simpl in Hps, Hpe.
  exists (S m), f_m, s, e. split_and!; try done; try lia; try congruence.
  destruct Hor as [[_ ->]|(f_next & _ & Hnext & Hrs & Hre)]; [by left|].
  right. by exists f_next.
Qed.

(** Each pair of pointers the dynamic pointer decoder returns is the
    prediction of one iteration: for every answer slot there is an
    iteration (the first to the fourth) whose predicted start and
    predicted end for the slot's example are the start and the end
    returned, so the start of one iteration is never paired with the end
    of another.  That iteration is the fourth, or one whose prediction
    the iteration after it repeated. *)
Theorem dpn_pointers_from_one_iteration (net : Model.externals) (self : Model.tensors)
        (question_state : TF.matrix) (context_states : list TF.matrix)
        (rnd : TF.noise) (ss es : list TF.matrix) (sp ep : list Z) (k b : nat) :
  DPN._dpn_answer_layer net self question_state context_states rnd
  = Ok (ss, es, sp, ep) ->
  Model.answer_partition self !! k = Some (Z.of_nat b) ->
  exists n f s e,
    (1 <= n <= 4)%nat
    /\ DPN.dpn_iterate net self n question_state context_states rnd = Ok f
    /\ DPN.next_start f !! b = Some s /\ DPN.next_end f !! b = Some e
    /\ sp !! k = Some s /\ ep !! k = Some e
    /\ (n = 4%nat
        \/ exists f_next,
            DPN.dpn_iterate net self (S n) question_state context_states rnd = Ok f_next
            /\ DPN.next_start f_next !! b = Some s
            /\ DPN.next_end f_next !! b = Some e).
Proof. apply dpn_answer_layer_pair. Qed.

Lemma dpn_pointers_from_one_iteration_witness :
  exists ss es sp ep n f,
    DPN._dpn_answer_layer Scenario.net Scenario.self Scenario.question_state
      Scenario.context_states Scenario.rnd = Ok (ss, es, sp, ep)
    /\ (1 <= n <= 4)%nat
    /\ DPN.dpn_iterate Scenario.net Scenario.self n Scenario.question_state
         Scenario.context_states Scenario.rnd = Ok f
    /\ DPN.next_start f !! 0%nat = sp !! 1%nat
    /\ DPN.next_end f !! 0%nat = ep !! 1%nat.
Proof.
  assert (H : exists ss es sp ep,
             DPN._dpn_answer_layer Scenario.net Scenario.self Scenario.question_state
               Scenario.context_states Scenario.rnd = Ok (ss, es, sp, ep))
    by (do 4 eexists; vm_compute; reflexivity).
  destruct H as (ss & es & sp & ep & H).
  destruct (dpn_pointers_from_one_iteration _ _ _ _ _ _ _ _ _ 1%nat 0%nat H eq_refl)
    as (n & f & s & e & Hn & Hf & Hs & He & Hsp & Hep & _).
  exists ss, es, sp, ep, n, f.
  split; [exact H|]. split; [exact Hn|]. split; [exact Hf|].
  split; congruence.
Defined.

(** ** The dynamic pointer decoder: the end is not before the start *)

Section OrderFacts.

Import DPN.

Variable net : Model.externals.
Variable self : Model.tensors.
Variable question_state : TF.matrix.
Variable context_states0 : list TF.matrix.
Variable rnd : TF.noise.
Hypothesis Hws : well_shaped net self question_state context_states0 rnd.
Hypothesis Hmask : mask_outweighs net self context_states0 rnd.

Local Abbreviation B := (Model._batch_size self).
Local Abbreviation W := (Z.to_nat (Model.embedder_max_length self + 1)).

Lemma dpn_body_order context_states_flat offsets
      (i : nat) (f f' : frame) (b : nat) (s e : Z) :
  length (u f) = B -> length (cur_state f) = B ->
  dpn_body net self (TF.dropout context_states0 (Model.keep_prob self) rnd)
    (TF.wrap32 (TF.reduce_max (Model.context_length self)))
    context_states_flat offsets i f = Ok f' ->
  next_start f' !! b = Some s -> next_end f' !! b = Some e ->
  0 <= s <= e /\ e < Z.of_nat W.
Proof.
  intros Lu Lcur.
  pose proof Hws as (HW1 & HWM & HM0 & HBM & HM & _ & Hlen & Hpad & Hap & Hcell & Hnet).
  unfold dpn_body.
  pose proof (Hcell (u f) (cur_state f) Lu Lcur) as [Lctr _].
  destruct (Model.controller_cell net (u f) (cur_state f)) as [ctr_out st].
  simpl in Lctr. intros H. inv_bind.
  destruct a10 as [[st' cs'] ce']. inv_bind. subst f'. cbn.
  intros Hs He.
  apply rzipM_pure_inv in Ha as [La ->].
  destruct (Hnet "start"%string (zip_with app (u f) ctr_out))
    as [_ Wss]; [rewrite length_zip_with; lia|].
  apply rmapM_Forall2 in Ha0, Ha6.
  destruct (Forall2_lookup_r _ _ _ _ _ Ha0 Hs) as (srow & Hsrow & Hsmax).
  destruct (Forall2_lookup_r _ _ _ _ _ Ha6 He) as (hrow & Hhrow & Hemax).
  eapply Forall_lookup_1 in Wss; [|exact Hsrow]. simpl in Wss.
  destruct (arg_max_row_total srow W Wss HW1 ltac:(lia)) as (s' & Hs' & Hsrange).
  rewrite Hsmax in Hs'. injection Hs' as <-.
  apply rzipM_Forall3 in Ha5.
  destruct (Forall3_lookup_r _ _ _ _ _ _ Ha5 Hhrow) as (raw & mrow & Hraw & Hmrow & Hadd).
  rewrite (mask_for_lengths_lookup _ _ _ _ b s Hs) in Hmrow. injection Hmrow as <-.
  apply rzipM_pure_inv in Hadd as [Lraw ->]. rewrite length_mask_row in Lraw.
  assert (Lh : length (zip_with Qplus raw
                         (Tfutil.mask_row (Model.mask_value net) W false s)) = W).
  { rewrite length_zip_with, length_mask_row. lia. }
  destruct (arg_max_row_spec _ e Hemax ltac:(lia)) as (r & v & -> & Hr & Hmax & _).
  assert (HrW : (r < W)%nat) by (apply lookup_lt_Some in Hr; lia).
  split; [|lia]. split; [lia|].
  destruct (Z_lt_le_dec (Z.of_nat r) s) as [Hlow|Hlow]; [|lia]. exfalso.
  destruct (lookup_lt_is_Some_2 raw r) as [x Hx]; [lia|].
  destruct (lookup_lt_is_Some_2 raw (Z.to_nat s)) as [y Hy]; [lia|].
  rewrite lookup_zip_with, Hx, mask_row_lookup in Hr by done. simpl in Hr.
  destruct (Z.ltb_spec (Z.of_nat r) s); [|lia]. injection Hr as <-.
  specialize (Hmax (Z.to_nat s) (y + 0)%Q).
  rewrite lookup_zip_with, Hy, mask_row_lookup in Hmax by lia. simpl in Hmax.
  destruct (Z.ltb_spec (Z.of_nat (Z.to_nat s)) s); [lia|].
  specialize (Hmax eq_refl).
  pose proof (Hmask _ b r (Z.to_nat s) raw x y Hraw Hx Hy) as Hlt.
  lra.
Qed.

(** Every iteration predicts an end that is not before its start. *)
Lemma dpn_iterate_order (n : nat) (f : frame) (b : nat) (s e : Z) :
  dpn_iterate net self (S n) question_state context_states0 rnd = Ok f ->
  next_start f !! b = Some s -> next_end f !! b = Some e ->
  0 <= s <= e /\ e < Z.of_nat W.
Proof.
  intros H Hs He.
  destruct (dpn_iterate_S _ _ _ _ _ _ _ H) as (f0 & offsets & _ & H0 & Hbody).
  destruct (dpn_iterate_total net self question_state context_states0 rnd Hws n)
    as (f0' & H0' & (Lu & _ & _ & Lcur) & _).
  rewrite H0 in H0'. injection H0' as <-.
  eapply dpn_body_order; eauto.
Qed.

End OrderFacts.

(** When the mask outweighs the end scores, the dynamic pointer decoder
    never returns an end before its start: on a batch of the expected
    shapes, every answer slot gets a start and an end with
    [0 <= start <= end <= embedder.max_length]. *)
Theorem dpn_end_not_before_start (net : Model.externals) (self : Model.tensors)
        (question_state : TF.matrix) (context_states : list TF.matrix)
        (rnd : TF.noise) (ss es : list TF.matrix) (sp ep : list Z) :
  DPN.well_shaped net self question_state context_states rnd ->
  DPN.mask_outweighs net self context_states rnd ->
  DPN._dpn_answer_layer net self question_state context_states rnd
  = Ok (ss, es, sp, ep) ->
  Forall2 (fun s e => 0 <= s <= e /\ e <= Model.embedder_max_length self) sp ep.
Proof.
  intros Hws Hmask Hrun.
  pose proof Hws as (HW1 & _ & _ & _ & _ & _ & _ & _ & Hap & _).
  pose proof Hrun as Hinv. apply dpn_answer_layer_inv in Hinv
    as (f4 & cs & ce & _ & _ & _ & _ & _ & Hsp & Hep).
  apply rmapM_Forall2, Forall2_length in Hsp, Hep.
  apply Forall2_same_length_lookup_2; [lia|].
  intros k s e Hs He.
  destruct (lookup_lt_is_Some_2 (Model.answer_partition self) k) as [p Hp].
  { apply lookup_lt_Some in Hs. lia. }
  eapply Forall_lookup_1 in Hap; [|exact Hp]. simpl in Hap.
  rewrite <- (Z2Nat.id p) in Hp by lia.
  destruct (dpn_answer_layer_pair net self question_state context_states
              rnd ss es sp ep k (Z.to_nat p) Hrun Hp)
    as (n & f & s' & e' & Hn & Hf & Hns & Hne & Hs' & He' & _).
  rewrite Hs in Hs'. rewrite He in He'. injection Hs' as <-. injection He' as <-.
  destruct n as [|n]; [lia|].
  destruct (dpn_iterate_order net self question_state context_states rnd Hws Hmask
              n f (Z.to_nat p) s e Hf Hns Hne) as [Hse HeW].
  split; [done|]. lia.
Qed.

Lemma early_net_well_shaped :
  DPN.well_shaped Scenario.early_net Scenario.self Scenario.question_state
    Scenario.context_states Scenario.rnd.
Proof.
  unfold DPN.well_shaped. cbn -[Z.pow Z.mul TF.dropout].
  split_and!; try lia; try done.
  - repeat constructor.
  - repeat constructor; lia.
  - intros u st _ Hst. by rewrite !length_map.
  - intros scope inputs Hin. split; [reflexivity|]. by repeat constructor.
Qed.

Lemma early_net_mask_outweighs :
  DPN.mask_outweighs Scenario.early_net Scenario.self Scenario.context_states
    Scenario.rnd.
Proof.
  intros inputs b j k row x y Hrow Hx Hy.
  destruct b as [|b]; [|discriminate].
  vm_compute in Hrow. injection Hrow as <-.
  destruct j as [|[|[|j]]]; simpl in Hx; try discriminate;
    destruct k as [|[|[|k]]]; simpl in Hy; try discriminate;
    injection Hx as <-; injection Hy as <-; reflexivity.
Qed.

(** The network scores every position of the context it is given; its
    raw end scores are largest at position 0, before the start 1 of
    every iteration; the end returned is 1. *)
Lemma dpn_end_not_before_start_witness :
  exists ss es,
    DPN._dpn_answer_layer Scenario.early_net Scenario.self Scenario.question_state
      Scenario.context_states Scenario.rnd = Ok (ss, es, [1; 1], [1; 1])
    /\ Forall2 (fun s e => 0 <= s <= e /\ e <= Model.embedder_max_length Scenario.self)
               [1; 1] [1; 1].
Proof.
  assert (H : exists ss es,
             DPN._dpn_answer_layer Scenario.early_net Scenario.self
               Scenario.question_state Scenario.context_states Scenario.rnd
             = Ok (ss, es, [1; 1], [1; 1]))
    by (do 2 eexists; vm_compute; reflexivity).
  destruct H as (ss & es & H). exists ss, es. split; [exact H|].
  exact (dpn_end_not_before_start _ _ _ _ _ _ _ _ _ early_net_well_shaped
           early_net_mask_outweighs H).
Defined.

(** ** The dynamic pointer decoder: the answer partition *)

Section PartitionFacts.

Import DPN.

Variable net : Model.externals.
Variable self : Model.tensors.
Variable question_state : TF.matrix.
Variable context_states : list TF.matrix.
Variable rnd : TF.noise.

Lemma gather_in_range {A} (params : list A) (indices : list Z) (r : list A) :
  TF.gather params indices = Ok r ->
  length r = length indices
  /\ Forall (fun i => 0 <= i < Z.of_nat (length params)) indices.
Proof.
  intros H. apply rmapM_Forall2 in H. split; [symmetry; by eapply Forall2_length|].
  induction H as [|i a indices r Hi _ IH]; constructor; [|done].
  unfold TF.gather1 in Hi. destruct (Z.leb_spec 0 i); [|discriminate].
  destruct (params !! Z.to_nat i) eqn:E; [|discriminate].
  apply lookup_lt_Some in E. lia.
Qed.

Lemma dpn_body_scores (context_states' : list TF.matrix) (max_length : Z)
      (context_states_flat : list TF.vec) (offsets : list Z)
      (i : nat) (f f' : frame) :
  dpn_body net self context_states' max_length context_states_flat offsets i f = Ok f' ->
  exists ss es,
    start_scores f' = start_scores f ++ [ss] /\ end_scores f' = end_scores f ++ [es]
    /\ length ss = length (Model.answer_partition self)
    /\ length es = length (Model.answer_partition self).
Proof.
  unfold dpn_body. destruct (Model.controller_cell net (u f) (cur_state f)) as [ctr_out st].
  intros H. inv_bind. destruct a10 as [[st' cs'] ce']. inv_bind. subst f'. cbn.
  apply gather_in_range in Ha11 as [L1 _], Ha12 as [L2 _].
  do 2 eexists. split_and!; [reflexivity|reflexivity|exact L1|exact L2].
Qed.

Lemma dpn_iterate_scores_rows (n : nat) (f : frame) :
  dpn_iterate net self n question_state context_states rnd = Ok f ->
  Forall (fun scores => length scores = length (Model.answer_partition self))
         (start_scores f ++ end_scores f).
Proof.
  revert f. induction n as [|n IH]; intros f H.
  - unfold dpn_iterate in H. simpl in H. injection H as <-. constructor.
  - apply dpn_iterate_S in H as (f0 & offsets & _ & H0 & Hbody).
    apply IH in H0. apply Forall_app in H0 as [Hs He].
    apply dpn_body_scores in Hbody as (ss & es & -> & -> & Lss & Les).
    rewrite !Forall_app. split_and!; try done; by repeat constructor.
Qed.

End PartitionFacts.

(** The dynamic pointer decoder returns only for an answer partition that
    points into the batch: an entry below 0 or from [_batch_size] on makes
    the pass fail.  What it returns has one row per answer slot: both
    pointer vectors and each of the score tensors. *)
Theorem dpn_answer_partition_in_range (net : Model.externals) (self : Model.tensors)
        (question_state : TF.matrix) (context_states : list TF.matrix)
        (rnd : TF.noise) (ss es : list TF.matrix) (sp ep : list Z) :
  DPN._dpn_answer_layer net self question_state context_states rnd
  = Ok (ss, es, sp, ep) ->
  Forall (fun p => 0 <= p < Z.of_nat (Model._batch_size self))
         (Model.answer_partition self)
  /\ length sp = length (Model.answer_partition self)
  /\ length ep = length (Model.answer_partition self)
  /\ Forall (fun scores => length scores = length (Model.answer_partition self))
            (ss ++ es).
Proof.
  intros Hrun. apply dpn_answer_layer_inv in Hrun
    as (f4 & cs & ce & Hf4 & Ecs & Ece & -> & -> & Hsp & Hep).
  pose proof (dpn_iterate_settled _ _ _ _ _ _ _ Hf4) as Hset.
  destruct Hset as (cs' & ce' & Ecs' & _ & _ & Lcs & _).
  rewrite Ecs in Ecs'. injection Ecs' as <-.
  apply gather_in_range in Hsp as [Lsp Hrange], Hep as [Lep _].
  rewrite Lcs in Hrange. split_and!; try done.
  by eapply dpn_iterate_scores_rows.
Qed.

Lemma dpn_answer_partition_in_range_witness :
  exists ss es sp ep,
    DPN._dpn_answer_layer Scenario.net Scenario.self Scenario.question_state
      Scenario.context_states Scenario.rnd = Ok (ss, es, sp, ep)
    /\ length sp = 2%nat /\ length ep = 2%nat
    /\ Forall (fun scores : TF.matrix => length scores = 2%nat) (ss ++ es).
Proof.
  assert (H : exists ss es sp ep,
             DPN._dpn_answer_layer Scenario.net Scenario.self Scenario.question_state
               Scenario.context_states Scenario.rnd = Ok (ss, es, sp, ep))
    by (do 4 eexists; vm_compute; reflexivity).
  destruct H as (ss & es & sp & ep & H). exists ss, es, sp, ep.
  split; [exact H|].
  destruct (dpn_answer_partition_in_range _ _ _ _ _ _ _ _ _ H) as (_ & L1 & L2 & L3).
  split; [exact L1|]. split; [exact L2|exact L3].
Defined.

(** ** The dynamic pointer decoder: the states it gathers *)

Lemma flatten_lookup {A} (t : list (list A)) (M : Z) (b : nat) (i : Z) :
  Forall (fun states => Z.of_nat (length states) = M) t ->
  0 <= i < M ->
  TF.flatten t !! Z.to_nat (i + Z.of_nat b * M) = t !! b ≫= (fun states => states !! Z.to_nat i).
Proof.
  unfold TF.flatten. intros Ht Hi. revert b.
  induction Ht as [|states t Hs _ IH]; intros b; [by rewrite lookup_nil|].
  destruct b as [|b]; simpl.
  - rewrite Z.add_0_r. apply lookup_app_l. lia.
  - rewrite lookup_app_r by nia. rewrite <- IH. f_equal. nia.
Qed.

Section GatherFacts.

Import DPN.

Variable net : Model.externals.
Variable self : Model.tensors.
Variable question_state : TF.matrix.
Variable context_states0 : list TF.matrix.
Variable rnd : TF.noise.
Hypothesis Hws : well_shaped net self question_state context_states0 rnd.

Local Abbreviation B := (Model._batch_size self).
Local Abbreviation M := (TF.reduce_max (Model.context_length self)).
Local Abbreviation W := (Z.to_nat (Model.embedder_max_length self + 1)).
Local Abbreviation context_states :=
  (TF.dropout context_states0 (Model.keep_prob self) rnd).
Local Abbreviation offsets := (map (fun b => TF.mul64 b M) (TF.range B)).

(** One entry of [tf.gather(context_states_flat, pointer + offsets)]: the
    state of example [b] at the position the pointer gives. *)
Lemma gather_flat (pointers : list Z) (gathered : list TF.vec) (b : nat) (p : Z) :
  TF.gather (TF.flatten context_states) (zip_with TF.add64 pointers offsets) = Ok gathered ->
  pointers !! b = Some p -> (b < B)%nat -> 0 <= p < Z.of_nat W ->
  exists states row,
    context_states !! b = Some states /\ states !! Z.to_nat p = Some row
    /\ gathered !! b = Some row.
Proof.
  destruct Hws as (HW1 & HWM & HM0 & HBM & HM & _ & Hlen & Hpad & _).
  intros Hg Hp Hb Hrange.
  destruct (length_dropout context_states0 (Model.keep_prob self) rnd) as [Ld Hd].
  specialize (Hd M Hpad).
  assert (Hidx : zip_with TF.add64 pointers offsets !! b
                 = Some (Z.of_nat (Z.to_nat (p + Z.of_nat b * M)))).
  { rewrite lookup_zip_with, Hp. simpl.
    unfold TF.range. rewrite <- list_fmap_compose.
    change (map ?g ?l) with (g <$> l).
    rewrite list_lookup_fmap, lookup_seq_lt by done. simpl.
    unfold TF.mul64. rewrite (wrap64_small (Z.of_nat b * M)) by (unfold TF.in_int64; nia).
    unfold TF.add64. rewrite wrap64_small by (unfold TF.in_int64; nia).
    f_equal. nia. }
  destruct (gather_lookup _ _ _ _ _ Hg Hidx) as [Hrow [row Hflat]].
  rewrite Hflat in Hrow.
  rewrite (flatten_lookup _ M b p Hd) in Hflat by lia.
  destruct (context_states !! b) as [states|] eqn:Estates; [|discriminate].
  simpl in Hflat. exists states, row. done.
Qed.

Lemma dpn_body_gathers (i : nat) (f f' : frame) (b : nat) (s e : Z) :
  length (u f) = B -> length (cur_state f) = B ->
  dpn_body net self context_states (TF.wrap32 M) (TF.flatten context_states) offsets i f
  = Ok f' ->
  next_start f' !! b = Some s -> next_end f' !! b = Some e ->
  exists states row_s row_e,
    context_states !! b = Some states
    /\ states !! Z.to_nat s = Some row_s /\ states !! Z.to_nat e = Some row_e
    /\ u f' !! b = Some (row_s ++ row_e) /\ u_e f' !! b = Some row_e.
Proof.
  intros Lu Lcur.
  pose proof Hws as (HW1 & HWM & HM0 & HBM & HM & _ & Hlen & Hpad & Hap & Hcell & Hnet).
  unfold dpn_body.
  pose proof (Hcell (u f) (cur_state f) Lu Lcur) as [Lctr _].
  destruct (Model.controller_cell net (u f) (cur_state f)) as [ctr_out st].
  simpl in Lctr. intros H. inv_bind.
  destruct a10 as [[st' cs'] ce']. inv_bind. subst f'. cbn.
  intros Hs He.
  apply rzipM_pure_inv in Ha as [La ->].
  destruct (Hnet "start"%string (zip_with app (u f) ctr_out))
    as [Lss Wss]; [rewrite length_zip_with; lia|].
  pose proof Ha0 as Hamax. apply arg_max_in_int64 in Hamax as [_ La0].
  pose proof Ha6 as Hemax'. apply arg_max_in_int64 in Hemax' as [_ La6].
  apply rmapM_Forall2 in Ha0, Ha6.
  destruct (Forall2_lookup_r _ _ _ _ _ Ha0 Hs) as (srow & Hsrow & Hsmax).
  destruct (Forall2_lookup_r _ _ _ _ _ Ha6 He) as (hrow & Hhrow & Hemax).
  eapply Forall_lookup_1 in Wss; [|exact Hsrow]. simpl in Wss.
  destruct (arg_max_row_total srow W Wss HW1 ltac:(lia)) as (s' & Hs' & Hsrange).
  rewrite Hsmax in Hs'. injection Hs' as <-.
  apply rzipM_Forall3 in Ha5.
  destruct (Forall3_lookup_r _ _ _ _ _ _ Ha5 Hhrow) as (raw & mrow & Hraw & Hmrow & Hadd).
  rewrite (mask_for_lengths_lookup _ _ _ _ b s Hs) in Hmrow. injection Hmrow as <-.
  apply rzipM_pure_inv in Hadd as [Lraw ->]. rewrite length_mask_row in Lraw.
  destruct (arg_max_row_total (zip_with Qplus raw
                                 (Tfutil.mask_row (Model.mask_value net) W false s)) W)
    as (e' & He' & Herange); [rewrite length_zip_with, length_mask_row; lia|done|lia|].
  rewrite Hemax in He'. injection He' as <-.
  assert (Hb : (b < B)%nat).
  { apply lookup_lt_Some in Hsrow. lia. }
  apply rzipM_pure_inv in Ha1 as [_ ->], Ha7 as [_ ->].
  destruct (gather_flat _ _ b s Ha2 Hs Hb Hsrange) as (states & row_s & Hst & Hrs & Hgs).
  destruct (gather_flat _ _ b e Ha8 He Hb Herange) as (states' & row_e & Hst' & Hre & Hge).
  rewrite Hst in Hst'. injection Hst' as <-.
  apply rzipM_pure_inv in Ha9 as [_ ->].
  exists states, row_s, row_e. split_and!; try done.
  by rewrite lookup_zip_with, Hgs, Hge.
Qed.

End GatherFacts.

(** The indices into the flattened context states are right: after every
    iteration the decoder carries, for each example, the state of that
    example's context at the predicted start joined with the state at the
    predicted end, and the latter alone as [u_e]. *)
Theorem dpn_gathers_predicted_states (net : Model.externals) (self : Model.tensors)
        (question_state : TF.matrix) (context_states : list TF.matrix)
        (rnd : TF.noise) (n : nat) (f : DPN.frame) (b : nat) (s e : Z) :
  DPN.well_shaped net self question_state context_states rnd ->
  DPN.dpn_iterate net self (S n) question_state context_states rnd = Ok f ->
  DPN.next_start f !! b = Some s -> DPN.next_end f !! b = Some e ->
  exists states row_s row_e,
    TF.dropout context_states (Model.keep_prob self) rnd !! b = Some states
    /\ states !! Z.to_nat s = Some row_s /\ states !! Z.to_nat e = Some row_e
    /\ DPN.u f !! b = Some (row_s ++ row_e) /\ DPN.u_e f !! b = Some row_e.
Proof.
  intros Hws H Hs He.
  destruct (dpn_iterate_total net self question_state context_states rnd Hws n)
    as (f0 & H0 & (Lu & _ & _ & Lcur) & _).
  rewrite (dpn_iterate_step _ _ _ _ _ n f0 H0) in H.
  eapply dpn_body_gathers; eauto.
Qed.

Lemma dpn_gathers_predicted_states_witness :
  exists f,
    DPN.dpn_iterate Scenario.early_net Scenario.self 3 Scenario.question_state
      Scenario.context_states Scenario.rnd = Ok f
    /\ DPN.next_start f = [1] /\ DPN.next_end f = [1]
    /\ DPN.u f !! 0%nat = Some ([2] ++ [2])%Q.
Proof.
  assert (H : exists f,
             DPN.dpn_iterate Scenario.early_net Scenario.self 3 Scenario.question_state
               Scenario.context_states Scenario.rnd = Ok f
             /\ DPN.next_start f = [1] /\ DPN.next_end f = [1])
    by (eexists; split; [vm_compute; reflexivity|]; split; reflexivity).
  destruct H as (f & H & Hs & He). exists f.
  split; [exact H|]. split; [exact Hs|]. split; [exact He|].
  destruct (dpn_gathers_predicted_states _ _ _ _ _ _ f 0%nat 1 1 early_net_well_shaped H)
    as (states & row_s & row_e & Hst & Hrs & Hre & Hu & _).
  - by rewrite Hs.
  - by rewrite He.
  - rewrite Hu. vm_compute in Hst. injection Hst as <-.
    vm_compute in Hrs, Hre. by injection Hrs as <-; injection Hre as <-.
Defined.

(** ** The sequential pointer decoder: the outputs in evaluation mode *)

(** In evaluation mode the sequential pointer decoder runs the beam
    search once per example (on the partition [0 .. batch-1]) and returns
    the final prediction gathered by the fed answer partition: one row per
    answer slot, and the same scores, start and end for two slots of one
    example. *)
Theorem spn_eval_outputs_by_partition {S : Type} {decoder : SPN.BeamSearchDecoder S}
        (net : Model.externals) (self : Model.tensors) (vars : SPN.variables)
        (question_state : TF.matrix) (context_states : list TF.matrix)
        (rnd : TF.noise) (ss es : TF.matrix) (starts ends : list Z) :
  SPN._eval vars = true ->
  SPN._spn_answer_layer net self vars question_state context_states rnd
  = Ok (ss, es, starts, ends) ->
  exists ss0 es0 starts0 ends0 top,
    SPN._spn_answer_layer_impl net self vars question_state context_states
      (TF.range (length question_state)) (SPN._beam_size vars) rnd
    = Ok (ss0, es0, starts0, ends0, top)
    /\ TF.gather ss0 (Model.answer_partition self) = Ok ss
    /\ TF.gather es0 (Model.answer_partition self) = Ok es
    /\ TF.gather starts0 (Model.answer_partition self) = Ok starts
    /\ TF.gather ends0 (Model.answer_partition self) = Ok ends
    /\ length starts = length (Model.answer_partition self)
    /\ length ends = length (Model.answer_partition self)
    /\ forall j k,
        Model.answer_partition self !! j = Model.answer_partition self !! k ->
        ss !! j = ss !! k /\ es !! j = es !! k
        /\ starts !! j = starts !! k /\ ends !! j = ends !! k.
Proof.
  intros Heval H.
  unfold SPN._spn_answer_layer, SPN.effective_beam_size,
    SPN.effective_answer_partition, SPN.expand_if_eval in H.
  rewrite Heval in H. inv_bind.
  destruct a as [[[[ss0 es0] starts0] ends0] top]. inv_bind.
  subst. exists ss0, es0, starts0, ends0, top.
  split_and!; try done.
  - by apply gather_in_range in Ha2 as [? _].
  - by apply gather_in_range in Ha3 as [? _].
  - intros j k Hjk. split_and!; eapply gather_same_index; eauto.
Qed.

Lemma spn_eval_outputs_by_partition_witness :
  exists ss es starts ends,
    SPN._spn_answer_layer Scenario.late_net Scenario.self Scenario.eval_mode
      Scenario.question_state Scenario.context_states Scenario.rnd
    = Ok (ss, es, starts, ends)
    /\ length starts = 2%nat
    /\ starts !! 0%nat = starts !! 1%nat /\ ends !! 0%nat = ends !! 1%nat.
Proof.
  assert (H : exists ss es starts ends,
             SPN._spn_answer_layer Scenario.late_net Scenario.self Scenario.eval_mode
               Scenario.question_state Scenario.context_states Scenario.rnd
             = Ok (ss, es, starts, ends))
    by (do 4 eexists; vm_compute; reflexivity).
  destruct H as (ss & es & starts & ends & H). exists ss, es, starts, ends.
  split; [exact H|].
  destruct (spn_eval_outputs_by_partition Scenario.late_net Scenario.self
              Scenario.eval_mode _ _ _ _ _ _ _ eq_refl H)
    as (ss0 & es0 & starts0 & ends0 & top & _ & _ & _ & _ & _ & L & _ & Hsame).
  split; [exact L|].
  destruct (Hsame 0%nat 1%nat eq_refl) as (_ & _ & Hs & He). split; [exact Hs|exact He].
Defined.

(** ** The null-token augmenter: when it fails *)

(** [append_null_word] succeeds on exactly the batches it is made for:
    [_batch_size] rows, one length for each row, every length between 0
    and the number of positions of its row.  A batch of another size than
    [_batch_size], a negative length or one beyond the padded width is an
    error. *)
Theorem append_null_word_succeeds_iff {V : Type} (batch_size : nat)
        (tensor : list (list V)) (lengths : list Z) (null_word : V) :
  Forall (fun row => Z.of_nat (length row) < 2 ^ 63 - 1) tensor ->
  (exists r, Augment.append_null_word batch_size tensor lengths null_word = Ok r)
  <-> (length tensor = batch_size
       /\ Forall2 (fun row L => 0 <= L <= Z.of_nat (length row)) tensor lengths).
Proof.
  intros Hbig. split.
  - intros [r H]. unfold Augment.append_null_word in H. inv_bind.
    apply rzipM_pure_inv in Ha0 as [Lnull _].
    rewrite length_map, length_replicate in Lnull.
    apply rzipM_Forall3 in Ha.
    assert (Hrows : Forall2 (fun row L => 0 <= L <= Z.of_nat (length row)) tensor lengths
                    /\ length a = length tensor).
    { clear -Ha. induction Ha as [|row L rev tensor lengths a Hrow _ [IH1 IH2]].
      - split; [constructor|done].
      - split; [|simpl; lia]. constructor; [|done].
        unfold TF.reverse_row in Hrow.
        destruct (Z.leb_spec 0 L), (Z.leb_spec L (Z.of_nat (length row)));
          simpl in Hrow; try discriminate. lia. }
    destruct Hrows as [Hrows La]. split; [lia|done].
  - intros [<- Hrows]. eexists. apply append_null_word_ok.
    apply Forall2_same_length_lookup_2; [by eapply Forall2_length|].
    intros i row L Hrow HL. split.
    + by eapply (Forall2_lookup_lr _ _ _ _ _ _ Hrows).
    + by eapply (Forall_lookup_1 _ _ _ _ Hbig).
Qed.

Lemma append_null_word_succeeds_iff_witness :
  (exists r, Augment.append_null_word 2 [[1; 2; 3]; [4; 5; 6]] [3; 1] 0 = Ok r)
  /\ ~ (exists r, Augment.append_null_word 2 [[1; 2; 3]; [4; 5; 6]] [3; 4] 0 = Ok r)
  /\ ~ (exists r, Augment.append_null_word 3 [[1; 2; 3]; [4; 5; 6]] [3; 1] 0 = Ok r).
Proof.
  assert (Hbig : Forall (fun row : list Z => Z.of_nat (length row) < 2 ^ 63 - 1)
                        [[1; 2; 3]; [4; 5; 6]])
    by (repeat constructor).
  split_and!.
  - apply (append_null_word_succeeds_iff 2 [[1; 2; 3]; [4; 5; 6]] [3; 1] 0 Hbig).
    split; [reflexivity|]. repeat constructor; simpl; lia.
  - intros H.
    apply (append_null_word_succeeds_iff 2 [[1; 2; 3]; [4; 5; 6]] [3; 4] 0 Hbig) in H
      as [_ H].
    apply Forall2_cons_1 in H as [_ H]. apply Forall2_cons_1 in H as [H _].
    simpl in H. lia.
  - intros H.
    apply (append_null_word_succeeds_iff 3 [[1; 2; 3]; [4; 5; 6]] [3; 1] 0 Hbig) in H
      as [H _].
    discriminate.
Defined.

(** ** The device flag *)

Section DeviceFlagFacts.

Import Stdlib.Strings.Ascii.

Lemma split_not_nil (sep : Ascii.ascii) (s : string) : Flags.split sep s <> [].
Proof.
  destruct s as [|c s]; simpl; [done|].
  destruct (Ascii.eqb c sep); [done|]. by destruct (Flags.split sep s).
Qed.

Lemma split_no_separator (sep : Ascii.ascii) (s : string) :
  ~ In sep (String.list_ascii_of_string s) -> Flags.split sep s = [s].
Proof.
  induction s as [|c s IH]; simpl; [done|]. intros Hnot.
  destruct (Ascii.eqb_spec c sep) as [->|Hne]; [tauto|].
  rewrite IH by tauto. reflexivity.
Qed.

(** The device list the tools build from their flag is never empty, so
    the three device look-ups of [__init__] on it cannot fail: each finds
    a piece of the flag.  A flag without a comma is one device, which all
    three layers get. *)
Theorem devices_flag_never_empty (flag : string) :
  Flags.devices flag <> []
  /\ (forall i, exists d,
         Build.device (Some (Flags.devices flag)) i = Ok d
         /\ In d (Flags.devices flag))
  /\ (~ In ","%char (String.list_ascii_of_string flag) ->
      forall i, Build.device (Some (Flags.devices flag)) i = Ok flag).
Proof.
  unfold Flags.devices. split; [apply split_not_nil|]. split.
  - intros i. unfold Build.device.
    destruct (lookup_lt_is_Some_2 (Flags.split "," flag)
                (i `mod` length (Flags.split "," flag))) as [d Hd].
    { apply Nat.mod_upper_bound. pose proof (split_not_nil "," flag).
      by destruct (Flags.split "," flag). }
    rewrite Hd. exists d. split; [done|].
    apply list_elem_of_In. by eapply list_elem_of_lookup_2.
  - intros Hnot i. rewrite (split_no_separator _ _ Hnot). unfold Build.device.
    cbn [length]. by rewrite Nat.mod_1_r.
Qed.

End DeviceFlagFacts.

(** ** The projection of the preprocessing layer: its initial weights *)

Section ProjectionFacts.

Import Projection.

Lemma sum_app (l k : list Q) :
  (fold_right Qplus 0 (l ++ k) == fold_right Qplus 0 l + fold_right Qplus 0 k)%Q.
Proof.
  induction l as [|x l IH]; simpl; [lra|]. rewrite IH. lra.
Qed.

(** The product of a vector with column [j] of some rows of the identity
    matrix: the entry of the vector at the row that has its 1 in column
    [j], if there is one. *)
Lemma column_of_eye (n m : nat) (x : TF.vec) (a j : nat) :
  (j < n)%nat -> length x = m ->
  (fold_right Qplus 0
     (zip_with (fun xi row => xi * nth j row 0) x
        (map (fun i => map (fun j => if Nat.eqb i j then 1 else 0) (seq 0 n))
             (seq a m)))
   == if (a <=? j)%nat && (j <? a + length x)%nat then nth (j - a) x 0 else 0)%Q.
Proof.
  intros Hj <-. revert a. induction x as [|xi x IH]; intros a.
  - simpl. destruct ((a <=? j)%nat && (j <? a + 0)%nat) eqn:E; [|reflexivity].
    apply andb_true_iff in E as [E1 E2].
    apply Nat.leb_le in E1. apply Nat.ltb_lt in E2. lia.
  - cbn [length seq map zip_with fold_right]. rewrite IH.
    assert (Hnth : nth j (map (fun j0 => if Nat.eqb a j0 then 1%Q else 0%Q) (seq 0 n)) 0%Q
                   = if Nat.eqb a j then 1%Q else 0%Q).
    { rewrite (nth_indep _ 0%Q (if Nat.eqb a 0 then 1%Q else 0%Q))
        by (rewrite length_map, length_seq; lia).
      rewrite (map_nth (fun j0 => if Nat.eqb a j0 then 1%Q else 0%Q)).
      by rewrite seq_nth. }
    rewrite Hnth.
    destruct (Nat.eqb_spec a j) as [Heq|Hne].
    + rewrite Heq.
      replace (S j <=? j)%nat with false by (symmetry; apply Nat.leb_gt; lia).
      replace (j <=? j)%nat with true by (symmetry; apply Nat.leb_le; lia).
      replace (j <? j + S (length x))%nat with true by (symmetry; apply Nat.ltb_lt; lia).
      rewrite Nat.sub_diag. simpl. lra.
    + destruct (Nat.leb_spec a j), (Nat.leb_spec (S a) j); try lia; cbn [andb].
      * destruct (Nat.ltb_spec j (S a + length x)), (Nat.ltb_spec j (a + S (length x)));
          try lia.
        -- replace (j - a)%nat with (S (j - S a)) by lia. cbn [nth]. lra.
        -- lra.
      * lra.
Qed.

End ProjectionFacts.

(** With the initial value of its weights the projection adds the
    forward and the backward state of the encoder: for an input
    [fw ++ bw] of two vectors of [size] entries, entry [j] of the product
    with the weights is [fw[j] + bw[j]]. *)
Theorem projection_initially_sums_directions (size : nat) (fw bw : TF.vec) :
  length fw = size -> length bw = size ->
  let projected :=
    Projection.matmul (fw ++ bw) (Projection.projection_initializer size) size in
  length projected = size
  /\ forall (j : nat) x y,
      fw !! j = Some x -> bw !! j = Some y ->
      exists z, projected !! j = Some z /\ (z == x + y)%Q.
Proof.
  intros Lfw Lbw. cbv zeta. unfold Projection.matmul. split.
  - by rewrite length_map, length_seq.
  - intros j x y Hx Hy.
    assert (Hj : (j < size)%nat) by (apply lookup_lt_Some in Hx; lia).
    change (map ?g ?l) with (g <$> l) at 1.
    rewrite list_lookup_fmap, lookup_seq_lt by done. simpl.
    eexists. split; [reflexivity|].
    unfold Projection.projection_initializer, Projection.concatenate, Projection.eye.
    rewrite zip_with_app by (by rewrite length_map, length_seq).
    rewrite sum_app.
    rewrite (column_of_eye size size fw 0 j Hj Lfw).
    rewrite (column_of_eye size size bw 0 j Hj Lbw).
    cbn [Nat.leb andb Nat.add]. rewrite Nat.sub_0_r.
    replace (j <? length fw)%nat with true by (symmetry; apply Nat.ltb_lt; lia).
    replace (j <? length bw)%nat with true by (symmetry; apply Nat.ltb_lt; lia).
    rewrite (nth_lookup_Some _ _ _ _ Hx), (nth_lookup_Some _ _ _ _ Hy). reflexivity.
Qed.

Lemma projection_initially_sums_directions_witness :
  exists z,
    Projection.matmul ([1; 2] ++ [10; 20])%Q (Projection.projection_initializer 2) 2
      !! 1%nat = Some z
    /\ (z == 2 + 20)%Q.
Proof.
  destruct (projection_initially_sums_directions 2 [1; 2]%Q [10; 20]%Q eq_refl eq_refl)
    as [_ H].
  apply (H 1%nat 2%Q 20%Q); reflexivity.
Defined.

(** ** The inference tool: [insert_answers] *)

Section InsertAnswersFacts.

Import Inference.

Variable threshold : Q.
Variable answers : gmap string InferenceResult.

Local Abbreviation body := (insert_answer threshold answers).
Local Abbreviation loop := (for_questions threshold answers).
Local Abbreviation written := (Inference.written threshold).
Local Abbreviation updated := (Inference.updated threshold answers).

Lemma insert_answer_Some (q q' : json) :
  body q = Return (Some q') ->
  exists d s r type,
    q = JDict d
    /\ d !! "id"%string = Some (JStr s) /\ answers !! s = Some r
    /\ d !! "type"%string = Some type
    /\ written (json_eq_str type "list") r <> []
    /\ q' = JDict (<["ideal_answer"%string := JStr ""]>
                    (<["exact_answer"%string :=
                         exact_answer (written (json_eq_str type "list") r)]> d)).
Proof.
  unfold insert_answer, getitem, find, written.
  destruct q as [| | | | |l|d]; try discriminate.
  destruct (d !! "id"%string) as [q_id|] eqn:Eid; [|discriminate].
  destruct q_id as [| | | |s| |]; try discriminate.
  destruct (answers !! s) as [r|] eqn:Er; [|discriminate].
  destruct (d !! "type"%string) as [type|] eqn:Etype; [|discriminate].
  intros H. exists d, s, r, type.
  destruct (if json_eq_str type "list" then above_threshold threshold r
            else take 5 (answer_strings r)) as [|a chosen] eqn:Echosen.
  - destruct (answer_strings r) as [|s0 rest]; [discriminate|].
    injection H as <-. split_and!; done.
  - injection H as <-. split_and!; done.
Qed.

Lemma insert_answer_None (q : json) :
  body q = Return None -> answered answers q = false.
Proof.
  unfold insert_answer, getitem, find, answered, answer_of, question_id.
  destruct q as [| | | | |l|d]; try discriminate.
  destruct (d !! "id"%string) as [q_id|] eqn:Eid; [|discriminate].
  destruct q_id as [| | | |s| |]; try discriminate; try (intros _; by apply bool_decide_eq_false_2; intros [? ?]).
  destruct (answers !! s) as [r|] eqn:Er.
  - destruct (d !! "type"%string) as [type|]; [|discriminate].
    destruct (if json_eq_str type "list" then _ else _);
      [destruct (answer_strings r)|]; discriminate.
  - intros _. apply bool_decide_eq_false_2. by intros [? ?].
Qed.

Lemma updated_field (q q' : json) (key : string) :
  updated q q' ->
  key <> "exact_answer"%string -> key <> "ideal_answer"%string ->
  field q' key = field q key.
Proof.
  intros [[_ ->]|H] Hk1 Hk2; [done|].
  apply insert_answer_Some in H as (d & s & r & type & -> & _ & _ & _ & _ & ->).
  simpl. by rewrite !lookup_insert_ne.
Qed.

Lemma updated_answered (q q' : json) :
  updated q q' -> answered answers q' = answered answers q.
Proof.
  intros H. unfold answered, answer_of, question_id.
  change (match q' with JDict d => d !! "id"%string | _ => None end)
    with (field q' "id").
  change (match q with JDict d => d !! "id"%string | _ => None end)
    with (field q "id").
  by rewrite (updated_field q q' "id" H).
Qed.

Lemma insert_answer_Some_answered (q q' : json) :
  body q = Return (Some q') -> answered answers q = true.
Proof.
  intros H. apply insert_answer_Some in H as (d & s & r & type & -> & Hid & Hr & _).
  unfold answered, answer_of, question_id. rewrite Hid, Hr.
  apply bool_decide_eq_true_2. eauto.
Qed.

Lemma for_questions_Return (items acc out after : list json) :
  loop items acc = (Return out, after) ->
  Forall2 updated items after
  /\ out = acc ++ List.filter (answered answers) after.
Proof.
  revert acc out after. induction items as [|q items IH]; intros acc out after; simpl.
  - intros [= <- <-]. split; [constructor|]. by rewrite app_nil_r.
  - destruct (body q) as [[q'|]|e] eqn:Eq; [| |discriminate].
    + destruct (loop items (acc ++ [q'])) as [r after'] eqn:Eloop.
      intros [= -> <-]. apply IH in Eloop as [Hall ->].
      split; [constructor; [by right|done]|].
      simpl. rewrite (updated_answered q q') by (by right).
      rewrite (insert_answer_Some_answered q q' Eq). by rewrite <- app_assoc.
    + destruct (loop items acc) as [r after'] eqn:Eloop.
      intros [= -> <-]. apply IH in Eloop as [Hall ->].
      split; [constructor; [by left|done]|].
      simpl. by rewrite (insert_answer_None q Eq).
Qed.

Lemma filter_updated (items after : list json) :
  Forall2 updated items after ->
  Forall2 updated (List.filter (answered answers) items)
          (List.filter (answered answers) after).
Proof.
  induction 1 as [|q q' items after Hq _ IH]; simpl; [constructor|].
  rewrite (updated_answered q q' Hq).
  destruct (answered answers q); [constructor|]; done.
Qed.

(** The outcome of the whole call, read through the loop. *)
Lemma insert_answers_Return (doc out doc' : json) :
  insert_answers threshold answers doc = (Return out, doc') ->
  exists after,
    Forall2 updated (questions_of doc) after
    /\ out = JDict {[ "questions"%string := JList (List.filter (answered answers) after) ]}
    /\ (forall qs, getitem doc "questions" = Return (JList qs) ->
                   doc' = setitem doc "questions" (JList after)).
Proof.
  unfold insert_answers, questions_of, field, getitem.
  destruct doc as [| | | | |l|d]; try discriminate.
  destruct (d !! "questions"%string) as [v|] eqn:Ev; [|discriminate].
  destruct (iterate v) as [items|e] eqn:Eit; [|discriminate].
  destruct (loop items []) as [r after] eqn:Eloop.
  destruct r as [questions|e]; [|discriminate].
  intros [= <- <-]. apply for_questions_Return in Eloop as [Hall ->]. simpl.
  destruct v as [| | | |s|l|d']; try discriminate; simpl in Eit; injection Eit as <-.
  - destruct (String.list_ascii_of_string s) as [|c cs]; simpl in Hall.
    + inversion Hall; subst. exists []. split_and!; [constructor|done|discriminate].
    + inversion Hall as [|? ? ? ? [[Hb _]|Hb] _]; subst; discriminate.
  - exists after. split_and!; [done|done|]. intros qs [= <-]. done.
  - destruct (map_to_list d') as [|[k x] kvs]; simpl in Hall.
    + inversion Hall; subst. exists []. split_and!; [constructor|done|discriminate].
    + inversion Hall as [|? ? ? ? [[Hb _]|Hb] _]; subst; discriminate.
Qed.

End InsertAnswersFacts.

Section InsertAnswersResults.

Import Inference.

Variable threshold : Q.
Variable answers : gmap string InferenceResult.

Local Abbreviation written := (Inference.written threshold).
Local Abbreviation updated := (Inference.updated threshold answers).

Lemma questions_of_result (l : list json) :
  questions_of (JDict {[ "questions"%string := JList l ]}) = l.
Proof. unfold questions_of, field. by rewrite lookup_singleton. Qed.

Lemma fst_insert_answers (doc out : json) :
  fst (insert_answers threshold answers doc) = Return out ->
  exists doc', insert_answers threshold answers doc = (Return out, doc').
Proof.
  destruct (insert_answers threshold answers doc) as [r doc'].
  simpl. intros ->. eauto.
Qed.

(** Every question of the result, read back: it is the update of an
    answered question of the document. *)
Lemma insert_answers_written (doc out : json) (q' : json) :
  fst (insert_answers threshold answers doc) = Return out ->
  In q' (questions_of out) ->
  exists r,
    answer_of answers q' = Some r
    /\ written (is_list q') r <> []
    /\ field q' "exact_answer" = Some (exact_answer (written (is_list q') r))
    /\ field q' "ideal_answer" = Some (JStr "").
Proof.
  intros H Hin. apply fst_insert_answers in H as [doc' H].
  apply insert_answers_Return in H as (after & Hall & -> & _).
  rewrite questions_of_result in Hin.
  apply filter_In in Hin as [Hin Hans].
  apply list_elem_of_In, list_elem_of_lookup in Hin as [i Hi].
  destruct (Forall2_lookup_r _ _ _ _ _ Hall Hi) as (q & _ & [[Hnone ->]|Hsome]).
  { apply insert_answer_None in Hnone. congruence. }
  apply insert_answer_Some in Hsome
    as (d & s & r & type & -> & Hid & Hr & Htype & Hne & ->).
  exists r. unfold answer_of, question_id, is_list, field.
  rewrite !lookup_insert_ne, Hid, Hr, Htype by done.
  split_and!; [done|done| |].
  - by rewrite lookup_insert_eq.
  - by rewrite lookup_insert_eq.
Qed.

Lemma Qgt_bool (p t : Q) : negb (Qle_bool p t) = true <-> (t < p)%Q.
Proof.
  rewrite negb_true_iff. split.
  - intros H. apply Qnot_le_lt. intros Hle. apply Qle_bool_iff in Hle. congruence.
  - intros H. destruct (Qle_bool p t) eqn:E; [|done].
    apply Qle_bool_iff in E. by apply Qlt_not_le in H.
Qed.

Lemma above_threshold_In (r : InferenceResult) (s : string) :
  In s (above_threshold threshold r)
  <-> exists p, In (s, p) (pairs r) /\ (threshold < p)%Q.
Proof.
  unfold above_threshold. rewrite in_map_iff. split.
  - intros ([s' p] & <- & Hin). apply filter_In in Hin as [Hin Hp].
    exists p. split; [done|]. by apply Qgt_bool.
  - intros (p & Hin & Hp). exists (s, p). split; [done|].
    apply filter_In. split; [done|]. by apply Qgt_bool.
Qed.

Lemma for_questions_Throw (items acc after : list json) (e : exn) :
  for_questions threshold answers items acc = (Throw e, after) ->
  exists (n : nat) q,
    items !! n = Some q
    /\ insert_answer threshold answers q = Throw e
    /\ Forall2 updated (take n items) (take n after)
    /\ drop n after = drop n items.
Proof.
  revert acc after. induction items as [|q items IH]; intros acc after; simpl.
  - discriminate.
  - destruct (insert_answer threshold answers q) as [[q'|]|e'] eqn:Eq.
    + destruct (for_questions threshold answers items (acc ++ [q'])) as [r after'] eqn:Eloop.
      intros [= -> <-]. apply IH in Eloop as (n & q0 & Hn & Hq0 & Hall & Hdrop).
      exists (S n), q0. simpl. split_and!; try done. constructor; [by right|done].
    + destruct (for_questions threshold answers items acc) as [r after'] eqn:Eloop.
      intros [= -> <-]. apply IH in Eloop as (n & q0 & Hn & Hq0 & Hall & Hdrop).
      exists (S n), q0. simpl. split_and!; try done. constructor; [by left|done].
    + intros [= -> <-]. exists 0%nat, q. simpl. split_and!; done.
Qed.

(** On a question with a string id and a type the body fails only for
    want of an answer string. *)
Lemma insert_answer_well_formed (q : json) :
  well_formed q ->
  if nothing_to_insert threshold answers q
  then insert_answer threshold answers q = Throw IndexError
  else exists o, insert_answer threshold answers q = Return o.
Proof.
  intros [[s Hid] [type Htype]].
  unfold nothing_to_insert, answer_of, is_list, insert_answer, getitem, find,
    question_id, field in *.
  destruct q as [| | | | |l|d]; try discriminate.
  rewrite !Hid, !Htype.
  destruct (answers !! s) as [r|]; [|eauto].
  destruct (answer_strings r) as [|s0 rest] eqn:Estr;
    destruct (json_eq_str type "list");
    try destruct (above_threshold threshold r);
    simpl; eauto.
Qed.

Lemma for_questions_well_formed (items acc : list json) :
  Forall well_formed items ->
  if existsb (nothing_to_insert threshold answers) items
  then fst (for_questions threshold answers items acc) = Throw IndexError
  else exists out, fst (for_questions threshold answers items acc) = Return out.
Proof.
  intros Hwf. revert acc. induction Hwf as [|q items Hq _ IH]; intros acc; simpl.
  - eauto.
  - pose proof (insert_answer_well_formed q Hq) as Hbody.
    destruct (nothing_to_insert threshold answers q); simpl.
    + by rewrite Hbody.
    + destruct Hbody as [[q'|] ->].
      * specialize (IH (acc ++ [q'])).
        destruct (for_questions threshold answers items (acc ++ [q'])) as [r after].
        exact IH.
      * specialize (IH acc).
        destruct (for_questions threshold answers items acc) as [r after].
        exact IH.
Qed.

End InsertAnswersResults.

(** [insert_answers] returns a dictionary with the one key ["questions"];
    its list holds the questions of the document whose id is a key of
    [answers], in the order of the document, and no other question. *)
Theorem insert_answers_keeps_answered (threshold : Q)
        (answers : gmap string Inference.InferenceResult) (doc out : Inference.json) :
  fst (Inference.insert_answers threshold answers doc) = Inference.Return out ->
  out = Inference.JDict
          {[ "questions"%string := Inference.JList (Inference.questions_of out) ]}
  /\ map Inference.question_id (Inference.questions_of out)
     = map Inference.question_id
         (List.filter (Inference.answered answers) (Inference.questions_of doc)).
Proof.
  intros H. apply fst_insert_answers in H as [doc' H].
  apply insert_answers_Return in H as (after & Hall & -> & _).
  rewrite questions_of_result. split; [done|].
  apply filter_updated in Hall.
  induction Hall as [|q q' l l' Hq _ IH]; simpl; [done|].
  f_equal; [|exact IH].
  change (Inference.field q' "id" = Inference.field q "id").
  apply (updated_field threshold answers q q' "id" Hq); done.
Qed.

Lemma insert_answers_keeps_answered_witness :
  exists out,
    fst (Inference.insert_answers InferenceScenario.threshold InferenceScenario.answers
           InferenceScenario.bioasq_json) = Inference.Return out
    /\ map Inference.question_id (Inference.questions_of out)
       = [Some (Inference.JStr "q1"); Some (Inference.JStr "q2")].
Proof.
  assert (H : exists out,
             fst (Inference.insert_answers InferenceScenario.threshold
                    InferenceScenario.answers InferenceScenario.bioasq_json)
             = Inference.Return out)
    by (eexists; vm_compute; reflexivity).
  destruct H as [out H]. exists out. split; [exact H|].
  destruct (insert_answers_keeps_answered _ _ _ _ H) as [_ ->].
  reflexivity.
Defined.

(** Every question [insert_answers] returns has an ["exact_answer"] that
    is a list of at least one one-element list holding an answer string,
    and the empty string as its ["ideal_answer"]. *)
Theorem insert_answers_exact_answer_shape (threshold : Q)
        (answers : gmap string Inference.InferenceResult) (doc out : Inference.json) :
  fst (Inference.insert_answers threshold answers doc) = Inference.Return out ->
  Forall (fun question =>
            exists answer_strings,
              answer_strings <> []
              /\ Inference.field question "exact_answer"
                 = Some (Inference.JList
                           (map (fun s => Inference.JList [Inference.JStr s])
                                answer_strings))
              /\ Inference.field question "ideal_answer"
                 = Some (Inference.JStr ""))
         (Inference.questions_of out).
Proof.
  intros H. apply Forall_forall. intros q' Hin. apply list_elem_of_In in Hin.
  destruct (insert_answers_written threshold answers doc out q' H Hin)
    as (r & _ & Hne & Hexact & Hideal).
  eexists. split; [exact Hne|]. split; [exact Hexact|exact Hideal].
Qed.

Lemma insert_answers_exact_answer_shape_witness :
  exists out,
    fst (Inference.insert_answers InferenceScenario.threshold InferenceScenario.answers
           InferenceScenario.bioasq_json) = Inference.Return out
    /\ Forall (fun question =>
                 exists answer_strings,
                   answer_strings <> []
                   /\ Inference.field question "exact_answer"
                      = Some (Inference.JList
                                (map (fun s => Inference.JList [Inference.JStr s])
                                     answer_strings))
                   /\ Inference.field question "ideal_answer"
                      = Some (Inference.JStr ""))
              (Inference.questions_of out).
Proof.
  assert (H : exists out,
             fst (Inference.insert_answers InferenceScenario.threshold
                    InferenceScenario.answers InferenceScenario.bioasq_json)
             = Inference.Return out)
    by (eexists; vm_compute; reflexivity).
  destruct H as [out H]. exists out. split; [exact H|].
  exact (insert_answers_exact_answer_shape _ _ _ _ H).
Defined.

(** A returned question whose type is not ["list"] carries the first
    five answer strings of its result (all of them when there are fewer),
    in their order; there is at least one. *)
Theorem insert_answers_first_five (threshold : Q)
        (answers : gmap string Inference.InferenceResult)
        (doc out question : Inference.json) :
  fst (Inference.insert_answers threshold answers doc) = Inference.Return out ->
  In question (Inference.questions_of out) ->
  Inference.is_list question = false ->
  exists r,
    Inference.answer_of answers question = Some r
    /\ Inference.answer_strings r <> []
    /\ Inference.field question "exact_answer"
       = Some (Inference.exact_answer (take 5 (Inference.answer_strings r)))
    /\ (length (take 5 (Inference.answer_strings r)) <= 5)%nat.
Proof.
  intros H Hin Hlist.
  destruct (insert_answers_written threshold answers doc out question H Hin)
    as (r & Hr & Hne & Hexact & _).
  rewrite Hlist in Hne, Hexact. unfold Inference.written in Hne, Hexact.
  exists r. destruct (Inference.answer_strings r) as [|s0 rest]; [done|].
  split_and!; [done|done|exact Hexact|].
  rewrite length_take. lia.
Qed.

Lemma insert_answers_first_five_witness :
  exists out,
    fst (Inference.insert_answers InferenceScenario.threshold InferenceScenario.answers
           InferenceScenario.bioasq_json) = Inference.Return out
    /\ exists question,
        In question (Inference.questions_of out)
        /\ Inference.field question "exact_answer"
           = Some (Inference.exact_answer ["a"; "b"; "c"; "d"; "e"]%string).
Proof.
  assert (H : exists out,
             fst (Inference.insert_answers InferenceScenario.threshold
                    InferenceScenario.answers InferenceScenario.bioasq_json)
             = Inference.Return out
             /\ exists question,
                 In question (Inference.questions_of out)
                 /\ Inference.is_list question = false
                 /\ Inference.answer_of InferenceScenario.answers question
                    = InferenceScenario.answers !! "q1"%string).
  { eexists. split; [vm_compute; reflexivity|].
    eexists. split; [left; reflexivity|]. split; reflexivity. }
  destruct H as (out & H & question & Hin & Hlist & Hq).
  exists out. split; [exact H|]. exists question. split; [exact Hin|].
  destruct (insert_answers_first_five _ _ _ _ _ H Hin Hlist) as (r & Hr & _ & Hexact & _).
  rewrite Hr in Hq. vm_compute in Hq. injection Hq as ->. exact Hexact.
Defined.

(** A returned list question carries the answers whose probability is
    strictly above the threshold, in the order of its result; when no
    probability is above the threshold it carries the first answer string
    alone, whatever its probability. *)
Theorem insert_answers_list_threshold (threshold : Q)
        (answers : gmap string Inference.InferenceResult)
        (doc out question : Inference.json) :
  fst (Inference.insert_answers threshold answers doc) = Inference.Return out ->
  In question (Inference.questions_of out) ->
  Inference.is_list question = true ->
  exists r answer_strings,
    Inference.answer_of answers question = Some r
    /\ Inference.field question "exact_answer"
       = Some (Inference.exact_answer answer_strings)
    /\ (forall s, In s (Inference.above_threshold threshold r)
                  <-> exists p, In (s, p) (Inference.pairs r) /\ (threshold < p)%Q)
    /\ (Inference.above_threshold threshold r <> [] ->
        answer_strings = Inference.above_threshold threshold r)
    /\ (Inference.above_threshold threshold r = [] ->
        exists s rest,
          Inference.answer_strings r = s :: rest /\ answer_strings = [s]).
Proof.
  intros H Hin Hlist.
  destruct (insert_answers_written threshold answers doc out question H Hin)
    as (r & Hr & Hne & Hexact & _).
  rewrite Hlist in Hne, Hexact. unfold Inference.written in Hne, Hexact.
  exists r. eexists. split; [exact Hr|]. split; [exact Hexact|].
  split; [apply above_threshold_In|].
  destruct (Inference.above_threshold threshold r) as [|a chosen].
  - split; [done|]. intros _.
    destruct (Inference.answer_strings r) as [|s rest]; [done|]. by exists s, rest.
  - split; [done|]. discriminate.
Qed.

Lemma insert_answers_list_threshold_witness :
  exists out,
    fst (Inference.insert_answers InferenceScenario.threshold InferenceScenario.answers
           InferenceScenario.bioasq_json) = Inference.Return out
    /\ exists question,
        In question (Inference.questions_of out)
        /\ Inference.field question "exact_answer"
           = Some (Inference.exact_answer ["x"; "z"]%string).
Proof.
  assert (H : exists out,
             fst (Inference.insert_answers InferenceScenario.threshold
                    InferenceScenario.answers InferenceScenario.bioasq_json)
             = Inference.Return out
             /\ exists question,
                 In question (Inference.questions_of out)
                 /\ Inference.is_list question = true
                 /\ Inference.answer_of InferenceScenario.answers question
                    = InferenceScenario.answers !! "q2"%string).
  { eexists. split; [vm_compute; reflexivity|].
    eexists. split; [right; left; reflexivity|]. split; reflexivity. }
  destruct H as (out & H & question & Hin & Hlist & Hq).
  exists out. split; [exact H|]. exists question. split; [exact Hin|].
  destruct (insert_answers_list_threshold _ _ _ _ _ H Hin Hlist)
    as (r & strs & Hr & Hexact & _ & Habove & _).
  rewrite Hr in Hq. vm_compute in Hq. injection Hq as ->.
  rewrite Hexact, Habove; [reflexivity|discriminate].
Defined.

(** On a document whose questions all have a string id and a type,
    [insert_answers] can fail in one way only: with [IndexError], when
    some answered question has a result without answer strings and is no
    list question or has no pair above the threshold.  In every other
    case it returns. *)
Theorem insert_answers_fails_without_answer_strings (threshold : Q)
        (answers : gmap string Inference.InferenceResult)
        (doc : Inference.json) (questions : list Inference.json) :
  Inference.getitem doc "questions" = Inference.Return (Inference.JList questions) ->
  Forall Inference.well_formed questions ->
  (existsb (Inference.nothing_to_insert threshold answers) questions = true ->
   fst (Inference.insert_answers threshold answers doc)
   = Inference.Throw Inference.IndexError)
  /\ (existsb (Inference.nothing_to_insert threshold answers) questions = false ->
      exists out,
        fst (Inference.insert_answers threshold answers doc) = Inference.Return out).
Proof.
  intros Hdoc Hwf.
  pose proof (for_questions_well_formed threshold answers questions [] Hwf) as Hloop.
  unfold Inference.insert_answers. rewrite Hdoc. simpl.
  destruct (Inference.for_questions threshold answers questions []) as [r after].
  simpl in Hloop.
  destruct (existsb (Inference.nothing_to_insert threshold answers) questions).
  - split; [|discriminate]. intros _. by rewrite Hloop.
  - split; [discriminate|]. intros _. destruct Hloop as [out ->]. simpl. eauto.
Qed.

Lemma insert_answers_fails_without_answer_strings_witness :
  fst (Inference.insert_answers InferenceScenario.threshold
         InferenceScenario.empty_answers
         (Inference.JDict
            {[ "questions"%string := Inference.JList InferenceScenario.typed_questions ]}))
  = Inference.Throw Inference.IndexError.
Proof.
  apply (insert_answers_fails_without_answer_strings InferenceScenario.threshold
           InferenceScenario.empty_answers _ InferenceScenario.typed_questions).
  - reflexivity.
  - repeat constructor; try (eexists; reflexivity).
  - reflexivity.
Defined.

(** [insert_answers] works in place.  After a call that returns, the list
    the caller's document holds under ["questions"] has the questions it
    had, in their order: one without an answer is as it was, one with an
    answer is the object the result holds, and it differs from what it
    was in the keys ["exact_answer"] and ["ideal_answer"] only. *)
Theorem insert_answers_in_place (threshold : Q)
        (answers : gmap string Inference.InferenceResult)
        (doc out doc' : Inference.json) (questions : list Inference.json) :
  Inference.getitem doc "questions" = Inference.Return (Inference.JList questions) ->
  Inference.insert_answers threshold answers doc = (Inference.Return out, doc') ->
  exists questions',
    doc' = Inference.setitem doc "questions" (Inference.JList questions')
    /\ Inference.questions_of out
       = List.filter (Inference.answered answers) questions'
    /\ Forall2 (fun question question' =>
                  (Inference.answered answers question = false -> question' = question)
                  /\ Inference.answered answers question'
                     = Inference.answered answers question
                  /\ forall key, key <> "exact_answer"%string ->
                                 key <> "ideal_answer"%string ->
                                 Inference.field question' key
                                 = Inference.field question key)
               questions questions'.
Proof.
  intros Hdoc H.
  apply insert_answers_Return in H as (after & Hall & -> & Hdoc').
  exists after. split; [by eapply Hdoc'|]. rewrite questions_of_result. split; [done|].
  assert (Inference.questions_of doc = questions) as <-.
  { unfold Inference.questions_of, Inference.field.
    destruct doc; try discriminate. simpl in Hdoc.
    destruct (d !! "questions"%string); [|discriminate]. by injection Hdoc as ->. }
  eapply Forall2_impl; [exact Hall|]. intros q q' Hq. split_and!.
  - intros Hno. destruct Hq as [[_ ->]|Hsome]; [done|].
    apply (insert_answer_Some_answered threshold answers) in Hsome. congruence.
  - by apply (updated_answered threshold answers).
  - intros key. by apply (updated_field threshold answers).
Qed.

Lemma insert_answers_in_place_witness :
  exists out doc',
    Inference.insert_answers InferenceScenario.threshold InferenceScenario.answers
      InferenceScenario.bioasq_json = (Inference.Return out, doc')
    /\ exists questions',
        doc' = Inference.setitem InferenceScenario.bioasq_json "questions"
                 (Inference.JList questions')
        /\ questions' !! 1%nat = Some InferenceScenario.open_question
        /\ Inference.questions_of out
           = List.filter (Inference.answered InferenceScenario.answers) questions'.
Proof.
  assert (H : exists out doc',
             Inference.insert_answers InferenceScenario.threshold
               InferenceScenario.answers InferenceScenario.bioasq_json
             = (Inference.Return out, doc'))
    by (do 2 eexists; vm_compute; reflexivity).
  destruct H as (out & doc' & H). exists out, doc'. split; [exact H|].
  assert (Hdoc : Inference.getitem InferenceScenario.bioasq_json "questions"
                 = Inference.Return
                     (Inference.JList
                        [InferenceScenario.factoid_question;
                         InferenceScenario.open_question;
                         InferenceScenario.list_question]))
    by reflexivity.
  destruct (insert_answers_in_place _ _ _ _ _ _ Hdoc H)
    as (questions' & Hdoc' & Hout & Hall).
  exists questions'. split; [exact Hdoc'|]. split; [|exact Hout].
  destruct (Forall2_lookup_l _ _ _ 1%nat _ Hall eq_refl) as (q' & Hq' & Hsame & _).
  rewrite Hq'. f_equal. apply Hsame. reflexivity.
Defined.

(** When [insert_answers] fails, it fails at one question of the list:
    the questions before it keep what the loop has written into them,
    the failing question and the ones after it are as they were. *)
Theorem insert_answers_failure_keeps_updates (threshold : Q)
        (answers : gmap string Inference.InferenceResult)
        (doc doc' : Inference.json) (questions : list Inference.json)
        (e : Inference.exn) :
  Inference.getitem doc "questions" = Inference.Return (Inference.JList questions) ->
  Inference.insert_answers threshold answers doc = (Inference.Throw e, doc') ->
  exists (n : nat) question questions',
    questions !! n = Some question
    /\ Inference.insert_answer threshold answers question = Inference.Throw e
    /\ doc' = Inference.setitem doc "questions" (Inference.JList questions')
    /\ drop n questions' = drop n questions
    /\ Forall2 (Inference.updated threshold answers)
               (take n questions) (take n questions').
Proof.
  intros Hdoc. unfold Inference.insert_answers. rewrite Hdoc. simpl.
  destruct (Inference.for_questions threshold answers questions []) as [r after] eqn:Eloop.
  destruct r as [out|e']; [discriminate|]. intros [= -> <-].
  apply for_questions_Throw in Eloop as (n & q & Hn & Hq & Hall & Hdrop).
  exists n, q, after. split_and!; done.
Qed.

Lemma insert_answers_failure_keeps_updates_witness :
  exists doc',
    Inference.insert_answers InferenceScenario.threshold InferenceScenario.empty_answers
      (Inference.JDict
         {[ "questions"%string := Inference.JList InferenceScenario.typed_questions ]})
    = (Inference.Throw Inference.IndexError, doc')
    /\ Inference.field (default Inference.JNull (Inference.questions_of doc' !! 0%nat))
         "exact_answer"
       = Some (Inference.exact_answer ["x"%string])
    /\ drop 1 (Inference.questions_of doc') = drop 1 InferenceScenario.typed_questions.
Proof.
  assert (H : exists doc',
             Inference.insert_answers InferenceScenario.threshold
               InferenceScenario.empty_answers
               (Inference.JDict
                  {[ "questions"%string :=
                       Inference.JList InferenceScenario.typed_questions ]})
             = (Inference.Throw Inference.IndexError, doc'))
    by (eexists; vm_compute; reflexivity).
  destruct H as (doc' & H). exists doc'. split; [exact H|].
  assert (Hdoc : Inference.getitem
                   (Inference.JDict
                      {[ "questions"%string :=
                           Inference.JList InferenceScenario.typed_questions ]})
                   "questions"
                 = Inference.Return (Inference.JList InferenceScenario.typed_questions))
    by reflexivity.
  destruct (insert_answers_failure_keeps_updates _ _ _ _ _ _ Hdoc H)
    as (n & q & questions' & Hn & Hq & -> & Hdrop & Hall).
  assert (Hqs : Inference.questions_of
                  (Inference.setitem
                     (Inference.JDict
                        {[ "questions"%string :=
                             Inference.JList InferenceScenario.typed_questions ]})
                     "questions" (Inference.JList questions')) = questions').
  { unfold Inference.questions_of, Inference.field, Inference.setitem.
    by rewrite lookup_insert_eq. }
  rewrite Hqs. clear H Hdoc Hqs.
  destruct n as [|[|[|n]]]; try discriminate.
  - vm_compute in Hn. injection Hn as <-. vm_compute in Hq. discriminate.
  - clear Hn Hq. split; [|exact Hdrop].
    destruct questions' as [|q0 rest]; [inversion Hall|].
    simpl in Hall. apply Forall2_cons_1 in Hall as [[[Hnone _]|Hsome] _].
    + vm_compute in Hnone. discriminate.
    + vm_compute in Hsome. injection Hsome as <-. reflexivity.
  - vm_compute in Hn. injection Hn as <-. vm_compute in Hq. discriminate.
Defined.

Section InsertAnswersAgain.

Import Inference.

Variable threshold : Q.
Variable answers : gmap string InferenceResult.

Lemma insert_answer_intro (d : gmap string json) (s : string) (r : InferenceResult)
      (type : json) :
  d !! "id"%string = Some (JStr s) -> answers !! s = Some r ->
  d !! "type"%string = Some type ->
  written threshold (json_eq_str type "list") r <> [] ->
  insert_answer threshold answers (JDict d)
  = Return (Some (JDict (<["ideal_answer"%string := JStr ""]>
                           (<["exact_answer"%string :=
                                exact_answer
                                  (written threshold (json_eq_str type "list") r)]> d)))).
Proof.
  intros Hid Hr Htype Hne.
  unfold insert_answer, getitem, find, written in *. rewrite Hid, Hr, Htype.
  destruct (if json_eq_str type "list" then above_threshold threshold r
            else take 5 (answer_strings r)) as [|a chosen].
  - destruct (answer_strings r) as [|s0 rest]; [done|]. reflexivity.
  - reflexivity.
Qed.

(** The body leaves a question it has updated as it is. *)
Lemma insert_answer_fixed (q q' : json) :
  insert_answer threshold answers q = Return (Some q') ->
  insert_answer threshold answers q' = Return (Some q').
Proof.
  intros H. apply insert_answer_Some in H
    as (d & s & r & type & -> & Hid & Hr & Htype & Hne & ->).
  rewrite (insert_answer_intro _ s r type); try done.
  - do 3 f_equal. apply map_eq. intros k. rewrite !lookup_insert.
    repeat case_decide; done.
  - by rewrite !lookup_insert_ne.
  - by rewrite !lookup_insert_ne.
Qed.

Lemma for_questions_fixed (l acc : list json) :
  Forall (fun q => insert_answer threshold answers q = Return (Some q)) l ->
  for_questions threshold answers l acc = (Return (acc ++ l), l).
Proof.
  intros H. revert acc. induction H as [|q l Hq _ IH]; intros acc; simpl.
  - by rewrite app_nil_r.
  - rewrite Hq, IH. by rewrite <- app_assoc.
Qed.

End InsertAnswersAgain.

(** [insert_answers] applied to the document it has returned, with the
    same answers, returns that document again and leaves it as it is. *)
Theorem insert_answers_idempotent (threshold : Q)
        (answers : gmap string Inference.InferenceResult) (doc out : Inference.json) :
  fst (Inference.insert_answers threshold answers doc) = Inference.Return out ->
  Inference.insert_answers threshold answers out = (Inference.Return out, out).
Proof.
  intros H. apply fst_insert_answers in H as [doc' H].
  apply insert_answers_Return in H as (after & Hall & -> & _).
  assert (Hfixed : Forall (fun q => Inference.insert_answer threshold answers q
                                    = Inference.Return (Some q))
                          (List.filter (Inference.answered answers) after)).
  { apply Forall_forall. intros q' Hin.
    apply list_elem_of_In, filter_In in Hin as [Hin Hans].
    apply list_elem_of_In, list_elem_of_lookup in Hin as [i Hi].
    destruct (Forall2_lookup_r _ _ _ _ _ Hall Hi) as (q & _ & [[Hnone ->]|Hsome]).
    - apply insert_answer_None in Hnone. congruence.
    - by eapply insert_answer_fixed. }
  unfold Inference.insert_answers, Inference.getitem.
  rewrite lookup_singleton_eq. simpl.
  rewrite (for_questions_fixed threshold answers _ [] Hfixed). simpl.
  by rewrite insert_singleton_eq.
Qed.

Lemma insert_answers_idempotent_witness :
  exists out,
    fst (Inference.insert_answers InferenceScenario.threshold InferenceScenario.answers
           InferenceScenario.bioasq_json) = Inference.Return out
    /\ Inference.insert_answers InferenceScenario.threshold InferenceScenario.answers out
       = (Inference.Return out, out).
Proof.
  assert (H : exists out,
             fst (Inference.insert_answers InferenceScenario.threshold
                    InferenceScenario.answers InferenceScenario.bioasq_json)
             = Inference.Return out)
    by (eexists; vm_compute; reflexivity).
  destruct H as [out H]. exists out. split; [exact H|].
  exact (insert_answers_idempotent _ _ _ _ H).
Defined.
